(** * openrun: a shallow embedding of the workflow engine

    The first half of the file holds the definitions, in the layout of the
    Python package:

    - [Py]: the built-ins of the interpreter the package relies on
      ([str.strip], [str.lower], [str.split], [int], [bool], [str],
      [json.dumps], and [re] for the pattern the package compiles);
    - [StateSlot], [StateContainer]: [openrun/core/state.py];
    - [Interpolation]: [openrun/core/interpolation.py];
    - [StepError], [StepRunResult], [Step]: [openrun/steps/base.py];
    - [Edge], [Flow]: [openrun/flow/edge.py] and [openrun/flow/flow.py];
    - [Event]: [openrun/events.py];
    - [JoinTracker], [Runner]: [openrun/flow/runner.py];
    - [Validator]: [openrun/validation/validator.py];
    - [SetState], [Conditional], [Switch]: the steps of
      [openrun/steps/execution/set_state.py], [conditional.py] and
      [switch.py];
    - [Security]: [openrun/validation/security.py];
    - [Spec]: definitions that follow the words of the specification;
    - [Aux]: notions used in the proofs;
    - [Fixture]: example data.

    The second half holds the theorems: [StringFacts], [StateFacts],
    [InterpolationFacts], [JoinFacts], [RunnerFacts], [TrackerFacts],
    [Termination], [FlowFacts], [ValidatorFacts], [ModeFacts],
    [RouteFacts], [InvariantFacts], [EventFacts], [SecurityFacts],
    [QuietFacts], [ResolveFacts], [KindFacts], [StepFacts], [RunFacts] and
    [Examples].

    Conventions.  Fallible code returns [res A]; a [try]/[except] of the
    source is a [match] on that result.  Code that mutates an object
    returns the new object.  A [dict] whose order of insertion matters (the
    values of the state, the fields of a configuration) is an association
    list; the dictionaries and sets of the driver, which are only looked
    up, are [gmap] and [gset].  The floating-point numbers and the library
    functions whose code is not part of the package (float conversions
    and comparison, [repr] of containers, the JSON parser, validation by
    pydantic, [urlparse] and [ipaddress]) are the members of the classes
    [Py.Builtins], [Py.FloatOrder], [Interpolation.Pydantic] and
    [Security.Net]. *)

From Stdlib Require Import ZArith Ascii String DecimalString Lia.
From stdpp Require Import base option list gmap sets strings sorting.

Set Warnings "-register-all".
Local Open Scope Z_scope.

(** ** Exceptions

    A raised Python exception is a value carrying the name of its class and
    its message.  Fallible code returns [res A]. *)

Record Exn := mkExn { exn_type : string; exn_msg : string }.

Inductive res (A : Type) : Type :=
| Ok (a : A)
| Raise (e : Exn).
Arguments Ok {A} a.
Arguments Raise {A} e.

#[global] Instance res_ret : MRet res := fun A a => Ok a.
#[global] Instance res_bind : MBind res := fun A B f m =>
  match m with Ok a => f a | Raise e => Raise e end.
#[global] Instance res_fmap : FMap res := fun A B f m =>
  match m with Ok a => Ok (f a) | Raise e => Raise e end.

Definition is_ok {A} (m : res A) : bool :=
  match m with Ok _ => true | Raise _ => false end.

(** ** Python built-ins *)

Module Py.

(** A [str] is modelled as a [string]: a sequence of characters with code
    points below 256. *)

(** [str.isspace] on one character: TAB..CR, FS..US, space, NEL, NBSP. *)
Definition isspace (c : ascii) : bool :=
  let n := N_of_ascii c in
  ((9 <=? n) && (n <=? 13) || (28 <=? n) && (n <=? 32)
   || (n =? 133) || (n =? 160))%N.

Definition is_empty (s : string) : bool :=
  match s with EmptyString => true | String _ _ => false end.

Fixpoint lstrip (s : string) : string :=
  match s with
  | EmptyString => EmptyString
  | String c s' => if isspace c then lstrip s' else s
  end.

Fixpoint rstrip (s : string) : string :=
  match s with
  | EmptyString => EmptyString
  | String c s' =>
      let r := rstrip s' in
      if isspace c && is_empty r then EmptyString else String c r
  end.

(** [s.strip()] *)
Definition strip (s : string) : string := rstrip (lstrip s).

(** [str.lower] on one character: A..Z and the upper-case letters of the
    Latin-1 block move up by 32. *)
Definition lower_char (c : ascii) : ascii :=
  let n := N_of_ascii c in
  if ((65 <=? n) && (n <=? 90) || (192 <=? n) && (n <=? 214)
      || (216 <=? n) && (n <=? 222))%N
  then ascii_of_N (n + 32) else c.

(** [s.lower()] *)
Fixpoint lower (s : string) : string :=
  match s with
  | EmptyString => EmptyString
  | String c s' => String (lower_char c) (lower s')
  end.

(** [s.split(sep)] for a separator of one character. *)
Fixpoint split (sep : ascii) (s : string) : list string :=
  match s with
  | EmptyString => [EmptyString]
  | String c s' =>
      if decide (c = sep) then EmptyString :: split sep s'
      else match split sep s' with
           | h :: t => String c h :: t
           | [] => [String c EmptyString]
           end
  end.

(** [needle in hay] on strings. *)
Fixpoint contains (needle hay : string) : bool :=
  String.prefix needle hay
  || match hay with
     | EmptyString => false
     | String _ hay' => contains needle hay'
     end.

Definition digit_of (c : ascii) : option Z :=
  let n := N_of_ascii c in
  if ((48 <=? n) && (n <=? 57))%N then Some (Z.of_N (n - 48)) else None.

(** The digits of an integer literal: at least one digit, single
    underscores allowed between digits. *)
Fixpoint parse_digits (acc : Z) (prev_digit : bool) (s : string) : option Z :=
  match s with
  | EmptyString => if prev_digit then Some acc else None
  | String c s' =>
      match digit_of c with
      | Some d => parse_digits (10 * acc + d) true s'
      | None =>
          if bool_decide (c = "_"%char) && prev_digit
          then parse_digits acc false s'
          else None
      end
  end.

(** [int(s)] in base ten; [None] stands for [ValueError].  The
    interpreter's limit on the number of digits (4300 by default) is not
    modelled. *)
Definition int (s : string) : option Z :=
  match strip s with
  | String "+" s' => parse_digits 0 false s'
  | String "-" s' => Z.opp <$> parse_digits 0 false s'
  | s' => parse_digits 0 false s'
  end.

(** [str(n)] for an [int]. *)
Definition str_of_int (n : Z) : string := NilZero.string_of_int (Z.to_int n).

(** *** Insertion-ordered dictionaries with string keys *)

Section Dict.
Context {V : Type}.

Definition dict := list (string * V).

(** [d.get(k)] *)
Fixpoint dict_get (k : string) (d : list (string * V)) : option V :=
  match d with
  | [] => None
  | (k', v) :: d' => if decide (k' = k) then Some v else dict_get k d'
  end.

(** [d[k] = v]: an existing key keeps its position. *)
Fixpoint dict_set (k : string) (v : V) (d : list (string * V))
  : list (string * V) :=
  match d with
  | [] => [(k, v)]
  | (k', v') :: d' =>
      if decide (k' = k) then (k, v) :: d' else (k', v') :: dict_set k v d'
  end.

End Dict.

(** *** Values

    The values held by the state container: JSON data.  The type of
    floating-point numbers is a parameter. *)

Section Values.
Context {F : Type}.

Inductive value : Type :=
| VNone
| VBool (b : bool)
| VInt (n : Z)
| VFloat (x : F)
| VStr (s : string)
| VList (l : list value)
| VDict (d : list (string * value)).

Definition is_none (v : value) : bool :=
  match v with VNone => true | _ => false end.

(** [isinstance(v, (dict, list))] *)
Definition is_container (v : value) : bool :=
  match v with VList _ | VDict _ => true | _ => false end.

(** [d.get(k)] on a dict of values: [None] for a missing key. *)
Definition get_or_none (k : string) (d : list (string * value)) : value :=
  match dict_get k d with
  | Some v => v
  | None => VNone
  end.

End Values.
Arguments value F : clear implicits.

(** The operations of the interpreter and of its standard library that are
    taken as given: floating-point conversions, [repr] of containers and
    the JSON parser. *)
Class Builtins (F : Type) := {
  (** [bool(x)] for a float *)
  float_bool : F → bool;
  (** [repr(x)] for a float *)
  float_repr : F → string;
  (** the JSON encoding of a float: its [repr], or [NaN], [Infinity],
      [-Infinity] *)
  float_json : F → string;
  (** [float(n)] for an [int]; raises [OverflowError] *)
  float_of_int : Z → res F;
  (** [float(s)] for a [str]; raises [ValueError] *)
  float_of_str : string → res F;
  (** [str(v)] for a list or a dict *)
  container_str : value F → string;
  (** [json.loads(s)]; raises [JSONDecodeError] *)
  json_loads : string → res (value F);
}.

Section ValueOps.
Context {F : Type} `{!Builtins F}.

(** [bool(v)] *)
Definition bool (v : value F) : bool :=
  match v with
  | VNone => false
  | VBool b => b
  | VInt n => negb (n =? 0)
  | VFloat x => float_bool x
  | VStr s => negb (is_empty s)
  | VList l => match l with [] => false | _ => true end
  | VDict d => match d with [] => false | _ => true end
  end.

(** [str(v)] *)
Definition str (v : value F) : string :=
  match v with
  | VNone => "None"
  | VBool true => "True"
  | VBool false => "False"
  | VInt n => str_of_int n
  | VFloat x => float_repr x
  | VStr s => s
  | VList _ | VDict _ => container_str v
  end.

(** [float(v)] for a value that is not a [str]. *)
Definition float (v : value F) : res F :=
  match v with
  | VBool b => float_of_int (if b then 1 else 0)
  | VInt n => float_of_int n
  | VFloat x => Ok x
  | VStr s => float_of_str s
  | VNone | VList _ | VDict _ =>
      Raise (mkExn "TypeError" "float() argument must be a string or a real number")
  end.

(** *** [json.dumps] with its default arguments *)

Definition hex_digit (n : N) : ascii :=
  if (n <? 10)%N then ascii_of_N (48 + n) else ascii_of_N (87 + n).

(** One character inside a JSON string ([ensure_ascii=True]): the
    printable ASCII characters stand for themselves, the others are
    escaped. *)
Definition json_escape_char (c : ascii) : string :=
  let n := N_of_ascii c in
  if bool_decide (c = "034"%char) then String "\" (String "034" EmptyString)
  else if bool_decide (c = "\"%char) then "\\"
  else if (n =? 10)%N then "\n"
  else if (n =? 13)%N then "\r"
  else if (n =? 9)%N then "\t"
  else if (n =? 8)%N then "\b"
  else if (n =? 12)%N then "\f"
  else if ((32 <=? n) && (n <=? 126))%N then String c EmptyString
  else "\u00" +:+ String (hex_digit (n / 16)) (String (hex_digit (n mod 16)) EmptyString).

Fixpoint json_escape (s : string) : string :=
  match s with
  | EmptyString => EmptyString
  | String c s' => json_escape_char c +:+ json_escape s'
  end.

Definition json_string (s : string) : string :=
  String "034" (json_escape s +:+ String "034" EmptyString).

Fixpoint json_dumps (v : value F) : string :=
  match v with
  | VNone => "null"
  | VBool true => "true"
  | VBool false => "false"
  | VInt n => str_of_int n
  | VFloat x => float_json x
  | VStr s => json_string s
  | VList l =>
      "[" +:+ String.concat ", " (map json_dumps l) +:+ "]"
  | VDict d =>
      "{" +:+ String.concat ", "
                (map (fun kv => json_string kv.1 +:+ ": " +:+ json_dumps kv.2) d)
          +:+ "}"
  end.

End ValueOps.

(** *** Regular expressions

    The fragment of [re] needed for the pattern the package compiles:
    literal characters, negated one-character classes, greedy [+] on a
    character class, concatenation and capturing groups.  Matching is by
    backtracking, longest repetition first, as in [re]. *)

Inductive charclass :=
| Lit (c : ascii)        (* the character [c] *)
| NotLit (c : ascii).    (* the class that excludes [c] *)

Inductive regex :=
| Chr (k : charclass)
| Plus (k : charclass)
| Cat (r1 r2 : regex)
| Grp (r : regex).

Definition accepts (k : charclass) (c : ascii) : Datatypes.bool :=
  match k with
  | Lit a => bool_decide (c = a)
  | NotLit a => negb (bool_decide (c = a))
  end.

Section Matcher.
Context {R : Type}.

(** One or more characters of class [k], then the continuation; the
    longest run is tried first. *)
Fixpoint match_plus (k : charclass) (cont : string → option R) (s : string)
  : option R :=
  match s with
  | EmptyString => None
  | String c s' =>
      if accepts k c then
        match match_plus k cont s' with
        | Some r => Some r
        | None => cont s'
        end
      else None
  end.

(** [match_re r s caps cont]: match [r] at the start of [s], then continue
    with the rest of the string and the groups captured so far. *)
Fixpoint match_re (r : regex) (s : string) (caps : list string)
    (cont : string → list string → option R) : option R :=
  match r with
  | Chr k =>
      match s with
      | EmptyString => None
      | String c s' => if accepts k c then cont s' caps else None
      end
  | Plus k => match_plus k (fun s' => cont s' caps) s
  | Cat r1 r2 =>
      match_re r1 s caps (fun s' caps' => match_re r2 s' caps' cont)
  | Grp r1 =>
      match_re r1 s caps (fun s' caps' =>
        cont s' (caps' ++ [String.substring 0 (String.length s - String.length s') s]))
  end.

End Matcher.

(** [pattern.match(s)]: the rest of the string after the match and the
    captured groups. *)
Definition match_at (r : regex) (s : string) : option (string * list string) :=
  match_re r s [] (fun s' caps => Some (s', caps)).

(** [m.group(i)] for [i] from 1; a group that took no part is empty. *)
Definition group (caps : list string) (i : nat) : string :=
  nth (pred i) caps EmptyString.

(** [pattern.sub(repl, s)] for a pattern that matches no empty string: scan
    from the left; a match is replaced by [repl] applied to its groups and
    the scan resumes after the match; a character at which no match
    starts is copied. *)
Fixpoint sub_go (fuel : nat) (r : regex) (repl : list string → string)
    (s : string) : string :=
  match fuel with
  | O => s
  | S fuel' =>
      match s with
      | EmptyString => EmptyString
      | String c s' =>
          match match_at r s with
          | Some (rest, caps) =>
              if (String.length rest <? String.length s)%nat
              then repl caps +:+ sub_go fuel' r repl rest
              else String c (sub_go fuel' r repl s')
          | None => String c (sub_go fuel' r repl s')
          end
      end
  end.

Definition sub (r : regex) (repl : list string → string) (s : string)
  : string :=
  sub_go (String.length s) r repl s.

(** [pattern.finditer(s)]: the groups of the successive matches. *)
Fixpoint finditer_go (fuel : nat) (r : regex) (s : string)
  : list (list string) :=
  match fuel with
  | O => []
  | S fuel' =>
      match s with
      | EmptyString => []
      | String c s' =>
          match match_at r s with
          | Some (rest, caps) =>
              if (String.length rest <? String.length s)%nat
              then caps :: finditer_go fuel' r rest
              else finditer_go fuel' r s'
          | None => finditer_go fuel' r s'
          end
      end
  end.

Definition finditer (r : regex) (s : string) : list (list string) :=
  finditer_go (String.length s) r s.

(** [s.endswith(suffix)] *)
Fixpoint endswith (s suffix : string) : Datatypes.bool :=
  bool_decide (s = suffix)
  || match s with
     | EmptyString => false
     | String _ s' => endswith s' suffix
     end.

(** [a < b] on strings: the order of the code points, a proper prefix
    first. *)
Definition str_lt (a b : string) : Datatypes.bool := String.ltb a b.

(** The last [n] hexadecimal digits of [x], in lower case. *)
Fixpoint hex_digits (n : nat) (x : N) : string :=
  match n with
  | O => EmptyString
  | S n' => hex_digits n' (x / 16) +:+ String (hex_digit (x mod 16)) EmptyString
  end.

(** [str(u)] for a [uuid.UUID]: 32 hexadecimal digits in groups of 8, 4,
    4, 4 and 12. *)
Definition str_of_uuid (u : N) : string :=
  let hex := hex_digits 32 u in
  String.substring 0 8 hex +:+ "-" +:+ String.substring 8 4 hex +:+ "-"
  +:+ String.substring 12 4 hex +:+ "-" +:+ String.substring 16 4 hex +:+ "-"
  +:+ String.substring 20 12 hex.

(** The order of the floating-point numbers, taken as given: [x < y].
    [x > y] is [y < x]. *)
Class FloatOrder (F : Type) := {
  float_lt : F → F → Datatypes.bool;
}.

End Py.

(** ** [openrun/core/types.py] *)

Inductive StateType := ANY | TEXT | NUMBER | BOOLEAN | OBJECT | ARRAY.

Inductive JoinMode := NO_WAIT | ALL_SUCCESS | ALL_DONE | FIRST_SUCCESS.

Inductive StepType :=
| TRIGGER_WEBHOOK | TRIGGER_SCHEDULE | TRIGGER_EVENT
| REQUEST | SET_STATE | CONDITIONAL | TRANSFORM | SUB_FLOW | DELAY | SWITCH
| CONVERSATION_START | USER_MESSAGE | REPLY.

Inductive StepRunStatus := SUCCESS | ERROR.

#[global] Instance StateType_eq_dec : EqDecision StateType.
Proof. solve_decision. Defined.
#[global] Instance JoinMode_eq_dec : EqDecision JoinMode.
Proof. solve_decision. Defined.
#[global] Instance StepType_eq_dec : EqDecision StepType.
Proof. solve_decision. Defined.
#[global] Instance StepRunStatus_eq_dec : EqDecision StepRunStatus.
Proof. solve_decision. Defined.

(** The [value] of a member of the [StepType] enumeration. *)
Definition StepType_value (t : StepType) : string :=
  match t with
  | TRIGGER_WEBHOOK => "trigger_webhook"
  | TRIGGER_SCHEDULE => "trigger_schedule"
  | TRIGGER_EVENT => "trigger_event"
  | REQUEST => "request"
  | SET_STATE => "set_state"
  | CONDITIONAL => "conditional"
  | TRANSFORM => "transform"
  | SUB_FLOW => "sub_flow"
  | DELAY => "delay"
  | SWITCH => "switch"
  | CONVERSATION_START => "conversation_start"
  | USER_MESSAGE => "user_message"
  | REPLY => "reply"
  end.

(** Step, edge and run identifiers ([uuid.UUID]) are 128-bit numbers. *)
Abbreviation UUID := N.

(** ** [openrun/core/state.py] *)

Module StateSlot.
Section StateSlot.
Context {F : Type} `{!Py.Builtins F}.

Record t := mk {
  name : string;
  type : StateType;
  description : option string;
}.

(** [StateSlot.cast]: coerce [value] to the slot's type. *)
Definition cast (self : t) (value : Py.value F) : res (Py.value F) :=
  match value with
  | Py.VNone => Ok Py.VNone
  | _ =>
      match type self with
      | TEXT => Ok (Py.VStr (Py.str value))
      | NUMBER =>
          match value with
          | Py.VStr s =>
              match Py.int s with
              | Some n => Ok (Py.VInt n)
              | None => Py.VFloat <$> Py.float value
              end
          | _ => Py.VFloat <$> Py.float value
          end
      | BOOLEAN =>
          match value with
          | Py.VStr s =>
              Ok (Py.VBool (bool_decide (Py.lower s ∈ ["true"; "1"; "yes"])))
          | _ => Ok (Py.VBool (Py.bool value))
          end
      | OBJECT =>
          match value with
          | Py.VStr s => Py.json_loads s
          | _ => Ok value
          end
      | ARRAY =>
          match value with
          | Py.VStr s => Py.json_loads s
          | _ => Ok value
          end
      | ANY => Ok value
      end
  end.

End StateSlot.
Arguments t : clear implicits.
End StateSlot.

Module StateContainer.
Section StateContainer.
Context {F : Type} `{!Py.Builtins F}.

Record t := mk {
  slots : gmap string StateSlot.t;
  values : list (string * Py.value F);
}.

(** [StateContainer()] *)
Definition empty : t := mk ∅ [].

(** [define]: the container with the new slot, and the slot. *)
Definition define (self : t) (name : string) (type : StateType)
    (description : option string) : t * StateSlot.t :=
  let slot := StateSlot.mk name type description in
  (mk (<[name := slot]> (slots self)) (values self), slot).

(** [set]: cast through the slot when one is declared, then store. *)
Definition set (self : t) (name : string) (value : Py.value F) : res t :=
  value' ← match slots self !! name with
            | Some slot => StateSlot.cast slot value
            | None => Ok value
            end;
  Ok (mk (slots self) (Py.dict_set name value' (values self))).

(** [get] *)
Definition get (self : t) (name : string) (default : Py.value F)
  : Py.value F :=
  match Py.dict_get name (values self) with
  | Some value => value
  | None => default
  end.

(** The loop of [get_nested]: [current] is the value reached so far. *)
Fixpoint get_nested_loop (parts : list string) (current default : Py.value F)
  : Py.value F :=
  match parts with
  | [] => current
  | part :: parts' =>
      match current with
      | Py.VNone => default
      | Py.VList l =>
          match Py.int part with
          | Some index =>
              if (0 <=? index) && (index <? Z.of_nat (length l))
              then match l !! Z.to_nat index with
                   | Some item => get_nested_loop parts' item default
                   | None => default
                   end
              else default
          | None => default
          end
      | Py.VDict d =>
          match Py.get_or_none part d with
          | Py.VNone => default
          | current' => get_nested_loop parts' current' default
          end
      | _ => default
      end
  end.

(** [get_nested] *)
Definition get_nested (self : t) (path : string) (default : Py.value F)
  : Py.value F :=
  get_nested_loop (Py.split "." path) (Py.VDict (values self)) default.

(** [get_as_string] *)
Definition get_as_string (self : t) (name : string) : string :=
  match Py.get_or_none name (values self) with
  | Py.VNone => ""
  | value =>
      if Py.is_container value then Py.json_dumps value else Py.str value
  end.

(** [copy]: both maps are copied; values are immutable here, so the copy
    is the container itself. *)
Definition copy (self : t) : t := mk (slots self) (values self).

End StateContainer.
Arguments t : clear implicits.
End StateContainer.

(** ** [openrun/core/interpolation.py] *)

Module Interpolation.

(** [REF_PATTERN = re.compile(r"\{\{([^}]+)\}\}")] *)
Definition REF_PATTERN : Py.regex :=
  Py.Cat (Py.Chr (Py.Lit "{"))
    (Py.Cat (Py.Chr (Py.Lit "{"))
       (Py.Cat (Py.Grp (Py.Plus (Py.NotLit "}")))
          (Py.Cat (Py.Chr (Py.Lit "}")) (Py.Chr (Py.Lit "}"))))).

(** The target type [T] of a field annotated [Interpolated[T]], as
    [cast_to_type] tells them apart. *)
Inductive target := TStr | TInt | TFloat | TBool | TDict | TList | TOther.

Section Configs.
Context {F : Type}.

(** The values of configuration fields: plain data and nested
    configuration models.  A model carries the name of its class, the
    result of [get_type_hints] on the class ([None] when it raises;
    otherwise the fields annotated [Interpolated[T]], with their [T]) and
    its fields in the order of [model_fields]. *)
Inductive cval : Type :=
| CNone
| CBool (b : bool)
| CInt (n : Z)
| CFloat (x : F)
| CStr (s : string)
| CList (l : list cval)
| CDict (d : list (string * cval))
| CModel (m : model)
with model : Type :=
| Model (cls : string) (hints : option (list (string * target)))
        (fields : list (string * cval)).

Definition model_fields (m : model) : list (string * cval) :=
  match m with Model _ _ fields => fields end.

Definition model_hints (m : model) : option (list (string * target)) :=
  match m with Model _ hints _ => hints end.

(** A JSON value as the value of a configuration field. *)
Fixpoint cval_of_value (v : Py.value F) : cval :=
  match v with
  | Py.VNone => CNone
  | Py.VBool b => CBool b
  | Py.VInt n => CInt n
  | Py.VFloat x => CFloat x
  | Py.VStr s => CStr s
  | Py.VList l => CList (map cval_of_value l)
  | Py.VDict d => CDict (map (fun kv => (kv.1, cval_of_value kv.2)) d)
  end.

(** [bool(v)] for the value of a configuration field. *)
Definition cval_bool `{!Py.Builtins F} (v : cval) : bool :=
  match v with
  | CNone => false
  | CBool b => b
  | CInt n => negb (n =? 0)
  | CFloat x => Py.float_bool x
  | CStr s => negb (Py.is_empty s)
  | CList l => match l with [] => false | _ => true end
  | CDict d => match d with [] => false | _ => true end
  | CModel _ => true
  end.

End Configs.
Arguments cval F : clear implicits.
Arguments model F : clear implicits.

(** Construction of a configuration model by pydantic (the call of
    [config.__class__] on the resolved values): validation may coerce the
    fields or raise [ValidationError]. *)
Class Pydantic (F : Type) := {
  model_validate : model F → res (model F);
  (** the number [0.0] *)
  float_zero : F;
}.

Section Resolve.
Context {F : Type} `{!Py.Builtins F} `{!Pydantic F}.

(** The function [replace_ref] local to [resolve_template], applied to
    group 1 of a match. *)
Definition replace_ref (state : StateContainer.t F) (group1 : string)
  : string :=
  let path := Py.strip group1 in
  let value := StateContainer.get_nested state path Py.VNone in
  match value with
  | Py.VNone => ""
  | _ =>
      if Py.is_container value then Py.json_dumps value else Py.str value
  end.

(** [resolve_template] on a [str]. *)
Definition resolve_template (template : string) (state : StateContainer.t F)
  : string :=
  Py.sub REF_PATTERN (fun caps => replace_ref state (Py.group caps 1)) template.

(** [cast_to_type] *)
Definition cast_to_type (value : string) (target_type : target)
  : res (cval F) :=
  match target_type with
  | TStr => Ok (CStr value)
  | TInt =>
      if Py.is_empty value then Ok (CInt 0)
      else match Py.int value with
           | Some n => Ok (CInt n)
           | None => Raise (mkExn "ValueError" "invalid literal for int()")
           end
  | TFloat =>
      if Py.is_empty value then Ok (CFloat float_zero)
      else CFloat <$> Py.float_of_str value
  | TBool =>
      if Py.is_empty value then Ok (CBool false)
      else Ok (CBool (bool_decide (Py.lower value ∈ ["true"; "1"; "yes"])))
  | TDict =>
      if Py.is_empty value then Ok (CDict [])
      else cval_of_value <$> Py.json_loads value
  | TList =>
      if Py.is_empty value then Ok (CList [])
      else cval_of_value <$> Py.json_loads value
  | TOther => Ok (CStr value)
  end.

(** [resolve_value] *)
Definition resolve_value (value : cval F) (state : StateContainer.t F)
    (target_type : target) : res (cval F) :=
  match value with
  | CStr s =>
      if Py.contains "{{" s
      then cast_to_type (resolve_template s state) target_type
      else Ok value
  | _ => Ok value
  end.

(** [resolve_dict_values] *)
Fixpoint resolve_dict_value (state : StateContainer.t F) (value : cval F)
  : cval F :=
  match value with
  | CStr s =>
      if Py.contains "{{" s then CStr (resolve_template s state) else value
  | CDict d =>
      CDict (map (fun kv => (kv.1, resolve_dict_value state kv.2)) d)
  | _ => value
  end.

Definition resolve_dict_values (d : list (string * cval F))
    (state : StateContainer.t F) : list (string * cval F) :=
  map (fun kv => (kv.1, resolve_dict_value state kv.2)) d.

(** [resolve_config] *)
Fixpoint resolve_config (config : model F) (state : StateContainer.t F)
  : res (model F) :=
  match config with
  | Model cls hints fields =>
      match hints with
      | None => Ok config
      | Some h =>
          let fix resolve_list (l : list (cval F)) : res (list (cval F)) :=
            match l with
            | [] => Ok []
            | item :: l' =>
                item' ← match item with
                         | CStr s =>
                             if Py.contains "{{" s
                             then Ok (CStr (resolve_template s state))
                             else Ok item
                         | CModel m => CModel <$> resolve_config m state
                         | _ => Ok item
                         end;
                l'' ← resolve_list l';
                Ok (item' :: l'')
            end in
          let fix resolve_fields (fs : list (string * cval F))
            : res (list (string * cval F)) :=
            match fs with
            | [] => Ok []
            | (field_name, value) :: fs' =>
                value' ← match Py.dict_get field_name h with
                          | Some target_type =>
                              resolve_value value state target_type
                          | None =>
                              match value with
                              | CDict d => Ok (CDict (resolve_dict_values d state))
                              | CList l => CList <$> resolve_list l
                              | CModel m => CModel <$> resolve_config m state
                              | _ => Ok value
                              end
                          end;
                fs'' ← resolve_fields fs';
                Ok ((field_name, value') :: fs'')
            end in
          resolved_values ← resolve_fields fields;
          model_validate (Model cls hints resolved_values)
      end
  end.

(** The references of one string: [match.group(1).strip()] for every match
    of [REF_PATTERN.finditer]. *)
Definition refs_of_string (field_name : string) (s : string)
  : list (string * string) :=
  map (fun caps => (field_name, Py.strip (Py.group caps 1)))
      (Py.finditer REF_PATTERN s).

(** [extract_refs] *)
Fixpoint extract_refs (config : model F) : list (string * string) :=
  match config with
  | Model cls hints fields =>
      match hints with
      | None => []
      | Some h =>
          let fix refs_list (field_name : string) (l : list (cval F))
            : list (string * string) :=
            match l with
            | [] => []
            | item :: l' =>
                match item with
                | CStr s => refs_of_string field_name s
                | CModel m => extract_refs m
                | _ => []
                end ++ refs_list field_name l'
            end in
          let fix refs_fields (fs : list (string * cval F))
            : list (string * string) :=
            match fs with
            | [] => []
            | (field_name, value) :: fs' =>
                match Py.dict_get field_name h with
                | Some _ =>
                    match value with
                    | CStr s => refs_of_string field_name s
                    | _ => []
                    end
                | None =>
                    match value with
                    | CDict d =>
                        concat (map (fun kv =>
                                  match kv.2 with
                                  | CStr s => refs_of_string field_name s
                                  | _ => []
                                  end) d)
                    | CList l => refs_list field_name l
                    | CModel m => extract_refs m
                    | _ => []
                    end
                end ++ refs_fields fs'
            end in
          refs_fields fields
      end
  end.

End Resolve.

End Interpolation.

(** ** [openrun/core/output.py] *)

Module Output.
Record t := mk {
  key : string;
  type : StateType;
  description : option string;
}.
End Output.

(** ** [openrun/steps/base.py] *)

Module StepError.
Section StepError.
Context {F : Type}.
Record t := mk {
  message : string;
  code : option string;
  details : option (list (string * Py.value F));
}.
End StepError.
Arguments t : clear implicits.
End StepError.

Module StepRunResult.
Section StepRunResult.
Context {F : Type}.

Record t := mk {
  step_id : UUID;
  status : StepRunStatus;
  fired_ports : list string;
  continue_without_waiting : bool;
  output_data : option (list (string * Py.value F));
  error : option (StepError.t F);
}.

(** [x or d] for an optional list: [None] and the empty list are false. *)
Definition or_else {A} (x : option (list A)) (d : list A) : list A :=
  match x with
  | Some (a :: l) => a :: l
  | Some [] | None => d
  end.

(** [StepRunResult.success] *)
Definition success (step_id : UUID) (fired_ports : option (list string))
    (output_data : option (list (string * Py.value F)))
    (continue_without_waiting : bool) : t :=
  mk step_id SUCCESS (or_else fired_ports ["default"])
     continue_without_waiting output_data None.

(** [StepRunResult.failure]; the conditional expression binds weaker than
    [or]: [(fired_ports or ["error"]) if "error" in (fired_ports or [])
    else ["default"]]. *)
Definition failure (step_id : UUID) (message : string) (code : option string)
    (details : option (list (string * Py.value F)))
    (fired_ports : option (list string)) : t :=
  mk step_id ERROR
     (if bool_decide ("error" ∈ or_else fired_ports [])
      then or_else fired_ports ["error"]
      else ["default"])
     false None
     (Some (StepError.mk message code details)).

End StepRunResult.
Arguments t : clear implicits.
End StepRunResult.

Module Step.
Section Step.
Context {F : Type}.

(** A step: its fields, the value of its [ports] property, its declared
    [outputs()] and its [run] method.  [run] may write to the state and
    then return a result or raise. *)
Record t := mk {
  id : UUID;
  type : StepType;
  join_mode : JoinMode;
  position : Z * Z;
  is_trigger : bool;
  ports : list string;
  config : Interpolation.model F;
  outputs : list Output.t;
  run : StateContainer.t F → Interpolation.model F →
        StateContainer.t F * res (StepRunResult.t F);
}.

End Step.
Arguments t : clear implicits.
End Step.

(** ** [openrun/flow/edge.py] *)

Module Edge.
Record t := mk {
  id : UUID;
  source_step_id : UUID;
  source_port : string;
  target_step_id : UUID;
  target_port : string;
}.
End Edge.

(** ** [openrun/flow/flow.py] *)

Module Flow.
Section Flow.
Context {F : Type}.

Record t := mk {
  id : UUID;
  name : option string;
  steps : list (Step.t F);
  edges : list Edge.t;
}.

(** [_rebuild_index]: [{step.id: step for step in self.steps}]; of two
    steps with one id the later one stays. *)
Definition _step_index (self : t) : gmap UUID (Step.t F) :=
  foldl (fun index step => <[Step.id step := step]> index) ∅ (steps self).

(** [add_step] *)
Definition add_step (self : t) (step : Step.t F) : t :=
  mk (id self) (name self) (steps self ++ [step]) (edges self).

(** [get_step] *)
Definition get_step (self : t) (step_id : UUID) : option (Step.t F) :=
  _step_index self !! step_id.

(** [add_edge]; the identifier of the new edge is drawn by the caller. *)
Definition add_edge (self : t) (edge_id : UUID) (source_id target_id : UUID)
    (source_port target_port : string) : res (t * Edge.t) :=
  match get_step self source_id with
  | None => Raise (mkExn "ValueError" "Source step not found in flow")
  | Some source_step =>
      if bool_decide (source_port ∉ Step.ports source_step)
      then Raise (mkExn "ValueError" "Port not found on step")
      else match get_step self target_id with
           | None => Raise (mkExn "ValueError" "Target step not found in flow")
           | Some _ =>
               let edge :=
                 Edge.mk edge_id source_id source_port target_id target_port in
               Ok (mk (id self) (name self) (steps self) (edges self ++ [edge]),
                   edge)
           end
  end.

(** [get_edges_from] *)
Definition get_edges_from (self : t) (step_id : UUID) (port : option string)
  : list Edge.t :=
  let edges := filter (fun e => Edge.source_step_id e = step_id) (edges self) in
  match port with
  | Some port => filter (fun e => Edge.source_port e = port) edges
  | None => edges
  end.

(** [get_edges_to] *)
Definition get_edges_to (self : t) (step_id : UUID) : list Edge.t :=
  filter (fun e => Edge.target_step_id e = step_id) (edges self).

(** [get_trigger_steps] *)
Definition get_trigger_steps (self : t) : list (Step.t F) :=
  filter (fun step => Step.is_trigger step = true) (steps self).

(** The [while queue] loop of [steps_before]. *)
Fixpoint steps_before_loop (fuel : nat) (self : t) (queue : list UUID)
    (visited : gset UUID) (result : list (Step.t F))
  : option (list (Step.t F)) :=
  match queue with
  | [] => Some result
  | step_id :: queue' =>
      match fuel with
      | O => None
      | S fuel' =>
          if bool_decide (step_id ∈ visited)
          then steps_before_loop fuel' self queue' visited result
          else
            let visited' := visited ∪ {[step_id]} in
            match get_step self step_id with
            | Some upstream_step =>
                steps_before_loop fuel' self
                  (queue' ++ (Edge.source_step_id <$> get_edges_to self step_id))
                  visited' (result ++ [upstream_step])
            | None => steps_before_loop fuel' self queue' visited' result
            end
      end
  end.

(** [steps_before]: the loop ends within [length queue + length edges]
    iterations (lemma [steps_before_loop_fuel]). *)
Definition steps_before (self : t) (step : Step.t F) : list (Step.t F) :=
  let queue := Edge.source_step_id <$> get_edges_to self (Step.id step) in
  default []
    (steps_before_loop (length queue + length (edges self))%nat self queue ∅ []).

End Flow.
Arguments t : clear implicits.
End Flow.

(** ** [openrun/events.py]

    The [timestamp] field of the events (wall-clock time of creation) is
    left out. *)

Module Event.
Section Event.
Context {F : Type}.

Inductive t :=
| FlowStarted (run_id : UUID) (flow_name : option string)
| StepStarted (run_id step_id : UUID) (step_type : string)
| StepCompleted (run_id step_id : UUID) (result : StepRunResult.t F)
    (duration_ms : Z) (state_snapshot : option (list (string * Py.value F)))
| FlowCompleted (run_id : UUID) (status : string).

End Event.
Arguments t : clear implicits.
End Event.

(** ** [openrun/flow/runner.py] *)

Module JoinTracker.
Section JoinTracker.
Context {F : Type}.

Record t := mk {
  arrivals : gmap UUID (StepRunResult.t F);
}.

(** [JoinTracker()] *)
Definition empty : t := mk ∅.

(** [record] *)
Definition record (self : t) (result : StepRunResult.t F) (edge : Edge.t) : t :=
  mk (<[Edge.source_step_id edge := result]> (arrivals self)).

(** The values of [arrivals]. *)
Definition arrived_results (self : t) : list (StepRunResult.t F) :=
  (map_to_list (arrivals self)).*2.

Definition succeeded (r : StepRunResult.t F) : bool :=
  bool_decide (StepRunResult.status r = SUCCESS).

(** [is_ready] *)
Definition is_ready (self : t) (join_mode : JoinMode)
    (incoming_edges : list Edge.t) : bool :=
  let expected_sources : gset UUID :=
    list_to_set (Edge.source_step_id <$> incoming_edges) in
  let arrived_sources : gset UUID := dom (arrivals self) in
  match join_mode with
  | NO_WAIT => bool_decide (0 < size (arrivals self))%nat
  | ALL_SUCCESS =>
      if bool_decide (arrived_sources ≠ expected_sources) then false
      else forallb succeeded (arrived_results self)
  | ALL_DONE => bool_decide (arrived_sources = expected_sources)
  | FIRST_SUCCESS => existsb succeeded (arrived_results self)
  end.

End JoinTracker.
Arguments t : clear implicits.
End JoinTracker.

Module Runner.

(** What a run takes from its surroundings: the identifier drawn for the
    run, the successive readings of [time.perf_counter] (taken as exact
    numbers), for every iteration of the loop the order in which
    [list(pending)] lists the set and, for every await of [asyncio.wait],
    the tasks reported done (in the order in which the driver goes through
    them).  Iterations and awaits are numbered by the awaits before
    them. *)
Record Env := mkEnv {
  run_id : UUID;
  perf_counter : nat → Z;
  pending_order : nat → gset UUID → list UUID;
  done_tasks : nat → gset UUID → list UUID;
}.

Section Runner.
Context {F : Type} `{!Py.Builtins F} `{!Interpolation.Pydantic F}.

(** [execute_step]: the state after the body, and its result. *)
Definition execute_step (step : Step.t F) (state : StateContainer.t F)
    (resolved_config : Interpolation.model F)
  : StateContainer.t F * StepRunResult.t F :=
  match Step.run step state resolved_config with
  | (state', Ok result) => (state', result)
  | (state', Raise e) =>
      (state',
       StepRunResult.failure (Step.id step)
         ("Step execution failed: " +:+ exn_msg e)
         (Some "EXECUTION_ERROR")
         (Some [("exception_type", Py.VStr (exn_type e))])
         None)
  end.

(** A task created for [execute_step(step, state, resolved_config)].  Its
    body is a total function: it returns or raises.  It takes effect, as
    one step, in the await of the driver that reports the task done (the
    consumer of the events does not suspend, so that tasks run only while
    the driver awaits).  A task that is replaced in [running] by a second
    launch of its step before it is done is lost to the driver; its body
    is then left out. *)
Record Task := mkTask {
  task_step : Step.t F;
  task_config : Interpolation.model F;
}.

(** The variables of [run_flow], the events yielded so far and the number
    of clock readings and of awaits so far. *)
Record Driver := mkDriver {
  state : StateContainer.t F;
  pending : gset UUID;
  running : gmap UUID Task;
  join_trackers : gmap UUID (JoinTracker.t F);
  results : list (StepRunResult.t F);
  step_start_times : gmap UUID Z;
  emitted : list (Event.t F);
  clock_reads : nat;
  awaits : nat;
}.

Definition with_state (x : StateContainer.t F) (d : Driver) : Driver :=
  mkDriver x (pending d) (running d) (join_trackers d) (results d)
    (step_start_times d) (emitted d) (clock_reads d) (awaits d).
Definition with_pending (x : gset UUID) (d : Driver) : Driver :=
  mkDriver (state d) x (running d) (join_trackers d) (results d)
    (step_start_times d) (emitted d) (clock_reads d) (awaits d).
Definition with_running (x : gmap UUID Task) (d : Driver) : Driver :=
  mkDriver (state d) (pending d) x (join_trackers d) (results d)
    (step_start_times d) (emitted d) (clock_reads d) (awaits d).
Definition with_join_trackers (x : gmap UUID (JoinTracker.t F)) (d : Driver)
  : Driver :=
  mkDriver (state d) (pending d) (running d) x (results d)
    (step_start_times d) (emitted d) (clock_reads d) (awaits d).
Definition with_results (x : list (StepRunResult.t F)) (d : Driver) : Driver :=
  mkDriver (state d) (pending d) (running d) (join_trackers d) x
    (step_start_times d) (emitted d) (clock_reads d) (awaits d).
Definition with_step_start_times (x : gmap UUID Z) (d : Driver) : Driver :=
  mkDriver (state d) (pending d) (running d) (join_trackers d) (results d)
    x (emitted d) (clock_reads d) (awaits d).
Definition with_awaits (x : nat) (d : Driver) : Driver :=
  mkDriver (state d) (pending d) (running d) (join_trackers d) (results d)
    (step_start_times d) (emitted d) (clock_reads d) x.

(** [yield event] *)
Definition yield (event : Event.t F) (d : Driver) : Driver :=
  mkDriver (state d) (pending d) (running d) (join_trackers d) (results d)
    (step_start_times d) (emitted d ++ [event]) (clock_reads d) (awaits d).

(** [time.perf_counter()]: the reading, and the driver after it. *)
Definition read_clock (env : Env) (d : Driver) : Z * Driver :=
  (perf_counter env (clock_reads d),
   mkDriver (state d) (pending d) (running d) (join_trackers d) (results d)
     (step_start_times d) (emitted d) (S (clock_reads d)) (awaits d)).

(** [join_trackers[step_id]] on the [defaultdict]: a missing tracker is
    created and stored. *)
Definition tracker_of (d : Driver) (step_id : UUID) : JoinTracker.t F * Driver :=
  match join_trackers d !! step_id with
  | Some tracker => (tracker, d)
  | None =>
      (JoinTracker.empty,
       with_join_trackers (<[step_id := JoinTracker.empty]> (join_trackers d)) d)
  end.

(** The body of the loop [for step_id in list(pending)]. *)
Definition select_one (flow : Flow.t F) (acc : Driver * list UUID)
    (step_id : UUID) : Driver * list UUID :=
  let '(d, steps_to_launch) := acc in
  match Flow.get_step flow step_id with
  | None => (with_pending (pending d ∖ {[step_id]}) d, steps_to_launch)
  | Some step =>
      let incoming_edges := Flow.get_edges_to flow step_id in
      if bool_decide (incoming_edges ≠ [])
         && bool_decide (Step.join_mode step ≠ NO_WAIT)
      then
        let '(tracker, d) := tracker_of d step_id in
        if negb (JoinTracker.is_ready tracker (Step.join_mode step) incoming_edges)
        then (d, steps_to_launch)
        else (d, steps_to_launch ++ [step_id])
      else (d, steps_to_launch ++ [step_id])
  end.

(** "Launch ready steps": the driver and [steps_to_launch] after the
    first loop. *)
Definition select (env : Env) (flow : Flow.t F) (d : Driver)
  : Driver * list UUID :=
  foldl (select_one flow) (d, []) (pending_order env (awaits d) (pending d)).

(** The body of the loop [for step_id in steps_to_launch]. *)
Definition launch_one (env : Env) (flow : Flow.t F) (d : Driver)
    (step_id : UUID) : Driver :=
  let d := with_pending (pending d ∖ {[step_id]}) d in
  match Flow.get_step flow step_id with
  | None => d
  | Some step =>
      let d :=
        yield (Event.StepStarted (run_id env) step_id
                 (StepType_value (Step.type step))) d in
      match Interpolation.resolve_config (Step.config step) (state d) with
      | Raise e =>
          let result :=
            StepRunResult.failure step_id
              ("Config resolution failed: " +:+ exn_msg e)
              (Some "CONFIG_RESOLUTION_ERROR") None None in
          let d := with_results (results d ++ [result]) d in
          yield (Event.StepCompleted (run_id env) step_id result 0 None) d
      | Ok resolved_config =>
          let '(now, d) := read_clock env d in
          let d :=
            with_step_start_times (<[step_id := now]> (step_start_times d)) d in
          with_running (<[step_id := mkTask step resolved_config]> (running d)) d
      end
  end.

Definition launch (env : Env) (flow : Flow.t F) (d : Driver)
    (steps_to_launch : list UUID) : Driver :=
  foldl (launch_one env flow) d steps_to_launch.

(** [asyncio.wait(running.values(), return_when=FIRST_COMPLETED)]: the
    tasks reported done are distinct tasks among those passed. *)
Definition wait (env : Env) (d : Driver) : list UUID :=
  filter (fun step_id => step_id ∈ dom (running d))
    (remove_dups (done_tasks env (awaits d) (dom (running d)))).

(** The bodies of the tasks reported done take effect; [task.result()] is
    kept for each of them. *)
Definition complete_one (running : gmap UUID Task)
    (acc : StateContainer.t F * list (UUID * StepRunResult.t F))
    (step_id : UUID) : StateContainer.t F * list (UUID * StepRunResult.t F) :=
  match running !! step_id with
  | Some task =>
      let '(state', result) :=
        execute_step (task_step task) acc.1 (task_config task) in
      (state', acc.2 ++ [(step_id, result)])
  | None => acc
  end.

Definition complete (d : Driver) (done : list UUID)
  : Driver * list (UUID * StepRunResult.t F) :=
  let '(state', finished) := foldl (complete_one (running d)) (state d, []) done in
  (with_awaits (S (awaits d)) (with_state state' d), finished).

(** [del running[step_id]] *)
Definition del_running (d : Driver) (step_id : UUID) : res Driver :=
  match running d !! step_id with
  | Some _ => Ok (with_running (delete step_id (running d)) d)
  | None => Raise (mkExn "KeyError" "running")
  end.

(** "Route via fired ports to successor steps". *)
Definition route_edge (result : StepRunResult.t F) (d : Driver) (edge : Edge.t)
  : Driver :=
  let target := Edge.target_step_id edge in
  let '(tracker, d) := tracker_of d target in
  let d :=
    with_join_trackers
      (<[target := JoinTracker.record tracker result edge]> (join_trackers d)) d in
  with_pending (pending d ∪ {[target]}) d.

Definition route (flow : Flow.t F) (step_id : UUID)
    (result : StepRunResult.t F) (d : Driver) : Driver :=
  foldl (fun d port =>
           foldl (route_edge result) d (Flow.get_edges_from flow step_id (Some port)))
        d (StepRunResult.fired_ports result).

(** The body of the loop [for task in done]. *)
Definition process_one (env : Env) (flow : Flow.t F) (d : Driver)
    (finished : UUID * StepRunResult.t F) : res Driver :=
  let '(step_id, result) := finished in
  let d := with_results (results d ++ [result]) d in
  d ← del_running d step_id;
  let '(now, d) := read_clock env d in
  let start_time := default now (step_start_times d !! step_id) in
  let d := with_step_start_times (delete step_id (step_start_times d)) d in
  let '(now', d) := read_clock env d in
  let duration_ms := (now' - start_time) * 1000 in
  let d :=
    yield (Event.StepCompleted (run_id env) step_id result duration_ms
             (Some (StateContainer.values (state d)))) d in
  if StepRunResult.continue_without_waiting result then Ok d
  else Ok (route flow step_id result d).

Fixpoint process (env : Env) (flow : Flow.t F) (d : Driver)
    (finished : list (UUID * StepRunResult.t F)) : res Driver :=
  match finished with
  | [] => Ok d
  | task :: finished' =>
      d' ← process_one env flow d task;
      process env flow d' finished'
  end.

(** One await of the driver and the processing of the tasks it reports. *)
Definition wait_and_process (env : Env) (flow : Flow.t F) (d : Driver)
  : res Driver :=
  let '(d, finished) := complete d (wait env d) in
  process env flow d finished.

(** The loop [while pending or running]; [fuel] bounds the number of
    awaits, [None] says that it did not suffice. *)
Fixpoint run_loop (fuel : nat) (env : Env) (flow : Flow.t F) (d : Driver)
  : res (option Driver) :=
  if bool_decide (pending d = ∅) && bool_decide (running d = ∅) then Ok (Some d)
  else
    let '(d1, steps_to_launch) := select env flow d in
    let d2 := launch env flow d1 steps_to_launch in
    if bool_decide (running d2 = ∅) then Ok (Some d2)
    else
      match fuel with
      | O => Ok None
      | S fuel' =>
          d3 ← wait_and_process env flow d2;
          run_loop fuel' env flow d3
      end.

(** "Determine final status". *)
Definition final_status (results : list (StepRunResult.t F)) : string :=
  if forallb JoinTracker.succeeded results then "succeeded" else "failed".

Definition initial (env : Env) (flow : Flow.t F) (trigger_step_id : UUID)
    (initial_state : option (StateContainer.t F)) : Driver :=
  mkDriver (default StateContainer.empty initial_state)
    {[trigger_step_id]} ∅ ∅ [] ∅
    [Event.FlowStarted (run_id env) (Flow.name flow)] 0 0.

(** [run_flow]: the driver when the generator is exhausted; its field
    [emitted] holds the events of the run. *)
Definition run_flow (fuel : nat) (env : Env) (flow : Flow.t F)
    (trigger_step_id : UUID) (initial_state : option (StateContainer.t F))
  : res (option Driver) :=
  match run_loop fuel env flow (initial env flow trigger_step_id initial_state) with
  | Ok (Some d) =>
      Ok (Some (yield (Event.FlowCompleted (run_id env)
                         (final_status (results d))) d))
  | Ok None => Ok None
  | Raise e => Raise e
  end.

End Runner.
Arguments Task F : clear implicits.
Arguments Driver F : clear implicits.
End Runner.

(** ** [openrun/validation/validator.py] *)

Module Validator.
Section Validator.
Context {F : Type} `{!Py.Builtins F}.

Record ValidationError := mkValidationError {
  step_id : UUID;
  field : string;
  reference : string;
  message : string;
  level : string;
}.

Definition add_outputs (keys : gset string) (outputs : list Output.t)
  : gset string :=
  foldl (fun keys output => keys ∪ {[Output.key output]}) keys outputs.

(** [hasattr(config, "key") and config.key], then [keys.add(config.key)].
    A key that is not a string is left out of the set: it is equal to no
    root key. *)
Definition add_config_key (keys : gset string) (config : Interpolation.model F)
  : gset string :=
  match Py.dict_get "key" (Interpolation.model_fields config) with
  | Some (Interpolation.CStr key) =>
      if negb (Py.is_empty key) then keys ∪ {[key]} else keys
  | _ => keys
  end.

(** [get_available_keys_before] *)
Definition get_available_keys_before (flow : Flow.t F) (step : Step.t F)
  : gset string :=
  foldl (fun keys upstream =>
           add_config_key (add_outputs keys (Step.outputs upstream))
             (Step.config upstream))
        ∅ (Flow.steps_before flow step).

(** [sorted(available_keys)] as the message shows it. *)
Definition show_keys (keys : gset string) : string :=
  Py.container_str (Py.VList (Py.VStr <$> merge_sort String.le (elements keys))).

(** The keys against which the references of [step] are checked. *)
Definition available_keys (flow : Flow.t F) (step : Step.t F) : gset string :=
  let available_keys := get_available_keys_before flow step in
  if Step.is_trigger step then add_outputs available_keys (Step.outputs step)
  else available_keys.

(** The body of the loop [for field_name, ref in refs]. *)
Definition check_ref (step : Step.t F) (available_keys : gset string)
    (errors : list ValidationError) (r : string * string)
  : list ValidationError :=
  let '(field_name, ref) := r in
  let root_key := hd "" (Py.split "." ref) in
  if bool_decide (root_key ∉ available_keys)
  then errors ++
       [mkValidationError (Step.id step) field_name ref
          ("'" +:+ ref +:+ "' not found. Available: " +:+ show_keys available_keys)
          "error"]
  else errors.

(** [validate_flow] *)
Definition validate_flow (flow : Flow.t F) : list ValidationError :=
  foldl (fun errors step =>
           foldl (check_ref step (available_keys flow step)) errors
             (Interpolation.extract_refs (Step.config step)))
        [] (Flow.steps flow).

(** [str(step.ports)] as the message shows it. *)
Definition show_ports (ports : list string) : string :=
  Py.container_str (Py.VList (Py.VStr <$> ports)).

(** The body of the loop [for edge in flow.edges] of [validate_edges]. *)
Definition check_edge (flow : Flow.t F) (errors : list ValidationError)
    (edge : Edge.t) : list ValidationError :=
  let source_step := Flow.get_step flow (Edge.source_step_id edge) in
  let target_step := Flow.get_step flow (Edge.target_step_id edge) in
  match source_step with
  | None =>
      errors ++
      [mkValidationError (Edge.source_step_id edge) "edge"
         (Py.str_of_uuid (Edge.id edge))
         ("Source step " +:+ Py.str_of_uuid (Edge.source_step_id edge)
          +:+ " not found")
         "error"]
  | Some source_step =>
      match target_step with
      | None =>
          errors ++
          [mkValidationError (Edge.target_step_id edge) "edge"
             (Py.str_of_uuid (Edge.id edge))
             ("Target step " +:+ Py.str_of_uuid (Edge.target_step_id edge)
              +:+ " not found")
             "error"]
      | Some _ =>
          if bool_decide (Edge.source_port edge ∉ Step.ports source_step)
          then errors ++
               [mkValidationError (Edge.source_step_id edge) "source_port"
                  (Edge.source_port edge)
                  ("Port '" +:+ Edge.source_port edge +:+ "' not found. "
                   +:+ "Available: " +:+ show_ports (Step.ports source_step))
                  "error"]
          else errors
      end
  end.

(** [validate_edges] *)
Definition validate_edges (flow : Flow.t F) : list ValidationError :=
  foldl (check_edge flow) [] (Flow.edges flow).

(** [validate_triggers]; [UUID(int=0)] is the number 0. *)
Definition validate_triggers (flow : Flow.t F) : list ValidationError :=
  match Flow.get_trigger_steps flow with
  | [] =>
      let step_id :=
        match Flow.steps flow with
        | step :: _ => Step.id step
        | [] => 0%N
        end in
      [mkValidationError step_id "flow" "triggers" "Flow has no trigger steps"
         "warning"]
  | _ :: _ => []
  end.

(** [validate_all] *)
Definition validate_all (flow : Flow.t F) : list ValidationError :=
  validate_flow flow ++ validate_edges flow ++ validate_triggers flow.

End Validator.
Arguments ValidationError : clear implicits.
End Validator.

(** ** [openrun/steps/execution/set_state.py] *)

Module SetState.
Section SetState.
Context {F : Type} `{!Py.Builtins F}.

(** [StepSetStateConfig] *)
Record Config := mkConfig {
  key : string;
  value : string;
}.

(** The configuration as the resolver and the validator see it: [value]
    is annotated [Interpolated[str]]. *)
Definition to_model (config : Config) : Interpolation.model F :=
  Interpolation.Model "StepSetStateConfig"
    (Some [("value", Interpolation.TStr)])
    [("key", Interpolation.CStr (key config));
     ("value", Interpolation.CStr (value config))].

(** The attributes of a configuration object that [run] reads. *)
Definition of_model (m : Interpolation.model F) : option Config :=
  match Py.dict_get "key" (Interpolation.model_fields m),
        Py.dict_get "value" (Interpolation.model_fields m) with
  | Some (Interpolation.CStr key), Some (Interpolation.CStr value) =>
      Some (mkConfig key value)
  | _, _ => None
  end.

(** [StepSetState.run] *)
Definition run (self_id : UUID) (state : StateContainer.t F) (config : Config)
  : StateContainer.t F * res (StepRunResult.t F) :=
  match StateContainer.set state (key config) (Py.VStr (value config)) with
  | Raise e => (state, Raise e)
  | Ok state' =>
      (state',
       Ok (StepRunResult.mk self_id SUCCESS ["default"] false
             (Some [(key config, Py.VStr (value config))]) None))
  end.

(** A [StepSetState] object. *)
Definition step (id : UUID) (join_mode : JoinMode) (position : Z * Z)
    (is_trigger : bool) (config : Config) : Step.t F :=
  Step.mk id SET_STATE join_mode position is_trigger ["default"]
    (to_model config) []
    (fun state resolved_config =>
       match of_model resolved_config with
       | Some config => run id state config
       | None => (state, Raise (mkExn "AttributeError" "config"))
       end).

End SetState.
End SetState.

(** ** [openrun/steps/execution/conditional.py] *)

Module Conditional.
Section Conditional.
Context {F : Type} `{!Py.Builtins F} `{!Py.FloatOrder F}.

(** [StepConditionalConfig] *)
Record Config := mkConfig {
  left : string;
  operator : string;
  right : string;
}.

Definition to_model (config : Config) : Interpolation.model F :=
  Interpolation.Model "StepConditionalConfig"
    (Some [("left", Interpolation.TStr); ("right", Interpolation.TStr)])
    [("left", Interpolation.CStr (left config));
     ("operator", Interpolation.CStr (operator config));
     ("right", Interpolation.CStr (right config))].

Definition of_model (m : Interpolation.model F) : option Config :=
  match Py.dict_get "left" (Interpolation.model_fields m),
        Py.dict_get "operator" (Interpolation.model_fields m),
        Py.dict_get "right" (Interpolation.model_fields m) with
  | Some (Interpolation.CStr left), Some (Interpolation.CStr operator),
    Some (Interpolation.CStr right) => Some (mkConfig left operator right)
  | _, _, _ => None
  end.

(** [evaluate_condition]; [float] of a [str] raises [ValueError] only. *)
Definition evaluate_condition (left operator right : string) : bool :=
  if decide (operator = "equals") then bool_decide (left = right)
  else if decide (operator = "not_equals") then bool_decide (left ≠ right)
  else if decide (operator = "contains") then Py.contains right left
  else if decide (operator = "not_contains") then negb (Py.contains right left)
  else if decide (operator = "greater_than") then
    match Py.float_of_str left with
    | Ok x =>
        match Py.float_of_str right with
        | Ok y => Py.float_lt y x
        | Raise _ => Py.str_lt right left
        end
    | Raise _ => Py.str_lt right left
    end
  else if decide (operator = "less_than") then
    match Py.float_of_str left with
    | Ok x =>
        match Py.float_of_str right with
        | Ok y => Py.float_lt x y
        | Raise _ => Py.str_lt left right
        end
    | Raise _ => Py.str_lt left right
    end
  else false.

(** The class attribute [_ports]. *)
Definition ports : list string := ["true"; "false"].

(** [StepConditional.run] *)
Definition run (self_id : UUID) (state : StateContainer.t F) (config : Config)
  : StateContainer.t F * res (StepRunResult.t F) :=
  let result :=
    evaluate_condition (left config) (operator config) (right config) in
  (state,
   Ok (StepRunResult.mk self_id SUCCESS [if result then "true" else "false"]
         false (Some [("condition_result", Py.VBool result)]) None)).

(** A [StepConditional] object. *)
Definition step (id : UUID) (join_mode : JoinMode) (position : Z * Z)
    (is_trigger : bool) (config : Config) : Step.t F :=
  Step.mk id CONDITIONAL join_mode position is_trigger ports
    (to_model config) []
    (fun state resolved_config =>
       match of_model resolved_config with
       | Some config => run id state config
       | None => (state, Raise (mkExn "AttributeError" "config"))
       end).

End Conditional.
End Conditional.

(** ** [openrun/steps/execution/switch.py] *)

Module Switch.

(** [Case] *)
Module Case.
Record t := mk {
  name : string;
  value : string;
}.
End Case.

Section Switch.
Context {F : Type} `{!Py.Builtins F}.

(** [StepSwitchConfig] *)
Record Config := mkConfig {
  value : string;
  cases : list Case.t;
}.

Definition case_to_model (case : Case.t) : Interpolation.model F :=
  Interpolation.Model "Case" (Some [("value", Interpolation.TStr)])
    [("name", Interpolation.CStr (Case.name case));
     ("value", Interpolation.CStr (Case.value case))].

Definition to_model (config : Config) : Interpolation.model F :=
  Interpolation.Model "StepSwitchConfig"
    (Some [("value", Interpolation.TStr)])
    [("value", Interpolation.CStr (value config));
     ("cases",
      Interpolation.CList
        ((fun case => Interpolation.CModel (case_to_model case)) <$> cases config))].

Definition case_of_cval (item : Interpolation.cval F) : option Case.t :=
  match item with
  | Interpolation.CModel m =>
      match Py.dict_get "name" (Interpolation.model_fields m),
            Py.dict_get "value" (Interpolation.model_fields m) with
      | Some (Interpolation.CStr name), Some (Interpolation.CStr value) =>
          Some (Case.mk name value)
      | _, _ => None
      end
  | _ => None
  end.

Definition of_model (m : Interpolation.model F) : option Config :=
  match Py.dict_get "value" (Interpolation.model_fields m),
        Py.dict_get "cases" (Interpolation.model_fields m) with
  | Some (Interpolation.CStr value), Some (Interpolation.CList items) =>
      mkConfig value <$> mapM case_of_cval items
  | _, _ => None
  end.

(** The property [ports]: the names of the configured cases, then
    [else]. *)
Definition ports (config : Config) : list string :=
  (Case.name <$> cases config) ++ ["else"].

(** The loop [for case in config.cases] of [run]: the first case whose
    value is the value switched on. *)
Fixpoint matching_case (value : string) (cases : list Case.t) : option Case.t :=
  match cases with
  | [] => None
  | case :: cases' =>
      if decide (value = Case.value case) then Some case
      else matching_case value cases'
  end.

(** [StepSwitch.run] *)
Definition run (self_id : UUID) (state : StateContainer.t F) (config : Config)
  : StateContainer.t F * res (StepRunResult.t F) :=
  match matching_case (value config) (cases config) with
  | Some case =>
      (state,
       Ok (StepRunResult.mk self_id SUCCESS [Case.name case] false
             (Some [("matched_case", Py.VStr (Case.name case))]) None))
  | None =>
      (state,
       Ok (StepRunResult.mk self_id SUCCESS ["else"] false
             (Some [("matched_case", Py.VNone)]) None))
  end.

(** A [StepSwitch] object. *)
Definition step (id : UUID) (join_mode : JoinMode) (position : Z * Z)
    (is_trigger : bool) (config : Config) : Step.t F :=
  Step.mk id SWITCH join_mode position is_trigger (ports config)
    (to_model config) []
    (fun state resolved_config =>
       match of_model resolved_config with
       | Some config => run id state config
       | None => (state, Raise (mkExn "AttributeError" "config"))
       end).

End Switch.
End Switch.

(** ** [openrun/validation/security.py] *)

Module Security.

(** What [validate_safe_url] reads of the object that
    [ipaddress.ip_address] returns. *)
Record ip := mkIp {
  is_private : bool;
  is_loopback : bool;
  is_link_local : bool;
  is_multicast : bool;
  is_reserved : bool;
}.

(** The library functions taken as given: [urlparse], with the [scheme]
    and the [hostname] of its result, and [ipaddress.ip_address], which
    raises [ValueError] for a string that is no address. *)
Class Net := {
  urlparse : string → res (string * option string);
  ip_address : string → res ip;
}.

Section Security.
Context `{!Net}.

Definition localhost_names : list string :=
  ["localhost"; "127.0.0.1"; "::1"; "0.0.0.0"].

Definition internal_tlds : list string :=
  [".local"; ".internal"; ".corp"; ".lan"; ".home"].

Definition not_allowed (what : string) : Exn :=
  mkExn "ValueError" ("URLs pointing to " +:+ what +:+ " are not allowed").

(** The body of the [try] around [ipaddress.ip_address]. *)
Definition check_ip (hostname : string) : res unit :=
  ip ← ip_address hostname;
  if is_private ip then Raise (not_allowed "private IP addresses")
  else if is_loopback ip then Raise (not_allowed "loopback addresses")
  else if is_link_local ip then Raise (not_allowed "link-local addresses")
  else if is_multicast ip then Raise (not_allowed "multicast addresses")
  else if is_reserved ip then Raise (not_allowed "reserved addresses")
  else Ok ().

(** The loop [for tld in internal_tlds]; of the listed suffixes one at
    most ends a given name, so that the order in which the set is gone
    through does not matter (lemma [check_tlds_order]). *)
Fixpoint check_tlds (hostname_lower : string) (tlds : list string) : res unit :=
  match tlds with
  | [] => Ok ()
  | tld :: tlds' =>
      if Py.endswith hostname_lower tld
      then Raise (mkExn "ValueError"
                    ("URLs with internal TLD '" +:+ tld +:+ "' are not allowed"))
      else check_tlds hostname_lower tlds'
  end.

(** [validate_safe_url] *)
Definition validate_safe_url (url : string) : res unit :=
  match urlparse url with
  | Raise e => Raise (mkExn "ValueError" ("Invalid URL: " +:+ exn_msg e))
  | Ok (scheme, hostname) =>
      if bool_decide (scheme ∉ ["http"; "https"])
      then Raise (mkExn "ValueError"
                    ("Invalid URL scheme: " +:+ scheme
                     +:+ ". Must be http or https."))
      else
        match hostname with
        | None | Some EmptyString =>
            Raise (mkExn "ValueError" "URL must have a hostname")
        | Some hostname =>
            if bool_decide (Py.lower hostname ∈ localhost_names)
            then Raise (mkExn "ValueError"
                          "URLs pointing to localhost are not allowed")
            else
              match check_ip hostname with
              | Raise e =>
                  if Py.contains "not allowed" (exn_msg e) then Raise e
                  else check_tlds (Py.lower hostname) internal_tlds
              | Ok _ => check_tlds (Py.lower hostname) internal_tlds
              end
        end
  end.

End Security.
End Security.

(** ** Specification-level definitions

    Definitions that follow the words of the specification, to be compared
    with the ones above. *)

Module Spec.
Section Spec.
Context {F : Type} `{!Py.Builtins F}.

(** Reading one dotted segment from a value; [None] stands for "yields
    the default".  A dict is read by key (a missing or [None] value yields
    the default), a list is indexed by the integer parse of the segment (no
    parse or an index out of range yields the default), any other value
    yields the default. *)
Definition read_segment (current : Py.value F) (segment : string)
  : option (Py.value F) :=
  match current with
  | Py.VDict d =>
      match Py.dict_get segment d with
      | Some Py.VNone | None => None
      | Some v => Some v
      end
  | Py.VList l =>
      match Py.int segment with
      | Some index =>
          if bool_decide (0 ≤ index < Z.of_nat (length l))
          then l !! Z.to_nat index
          else None
      | None => None
      end
  | _ => None
  end.

(** Reading the segments of a path one after the other. *)
Definition read_path (root : Py.value F) (segments : list string)
  : option (Py.value F) :=
  foldl (fun current segment => current ≫= fun v => read_segment v segment)
        (Some root) segments.

(** The replacement of a reference, by cases on the value read. *)
Definition replacement (state : StateContainer.t F) (path : string) : string :=
  match StateContainer.get_nested state path Py.VNone with
  | Py.VNone => ""
  | Py.VList l => Py.json_dumps (Py.VList l)
  | Py.VDict d => Py.json_dumps (Py.VDict d)
  | v => Py.str v
  end.

(** A string starts with a reference [{{g}}]: two opening braces, a
    non-empty [g] without closing brace, two closing braces. *)
Definition starts_with_ref (s g rest : string) : Prop :=
  g ≠ "" ∧ Py.contains "}" g = false ∧ s = "{{" +:+ g +:+ "}}" +:+ rest.

(** The readiness of a step joined with [ALL_SUCCESS], as the
    specification states it: every distinct source of the incoming edges
    has delivered and every recorded result is a success. *)
Definition all_success_ready (tracker : JoinTracker.t F)
    (incoming_edges : list Edge.t) : Prop :=
  (∀ e, e ∈ incoming_edges →
        is_Some (JoinTracker.arrivals tracker !! Edge.source_step_id e))
  ∧ (∀ source r, JoinTracker.arrivals tracker !! source = Some r →
                 StepRunResult.status r = SUCCESS).

(** The key a step contributes to the steps after it, as the
    specification states it: the configured key of a set-state step. *)
Definition set_state_key (step : Step.t F) : gset string :=
  if bool_decide (Step.type step = SET_STATE) then
    match Py.dict_get "key" (Interpolation.model_fields (Step.config step)) with
    | Some (Interpolation.CStr key) => {[key]}
    | _ => ∅
    end
  else ∅.

(** The longest prefix of a string without closing brace, and the rest. *)
Fixpoint span_body (s : string) : string * string :=
  match s with
  | EmptyString => (EmptyString, EmptyString)
  | String c s' =>
      if bool_decide (c = "}"%char) then (EmptyString, s)
      else let '(g, rest) := span_body s' in (String c g, rest)
  end.

(** A reference at the start of a string, read from left to right: its
    body and the rest of the string. *)
Definition scan_ref (s : string) : option (string * string) :=
  match s with
  | String "{" (String "{" s1) =>
      let '(g, s2) := span_body s1 in
      if Py.is_empty g then None
      else match s2 with
           | String "}" (String "}" rest) => Some (g, rest)
           | _ => None
           end
  | _ => None
  end.

(** The result carried by a [StepCompleted] event. *)
Definition completed_result (event : Event.t F) : option (StepRunResult.t F) :=
  match event with
  | Event.StepCompleted _ _ result _ _ => Some result
  | _ => None
  end.

Definition is_step_event (event : Event.t F) : Prop :=
  match event with
  | Event.StepStarted _ _ _ | Event.StepCompleted _ _ _ _ _ => True
  | _ => False
  end.

(** The graph is acyclic: the steps can be ranked so that every edge leads
    to a step of lower rank. *)
Definition acyclic (flow : Flow.t F) : Prop :=
  ∃ rank : UUID → nat, ∀ e, e ∈ Flow.edges flow →
    (rank (Edge.target_step_id e) < rank (Edge.source_step_id e))%nat.

(** [list(pending)] lists the elements of the set, each once. *)
Definition ordered (env : Runner.Env) : Prop :=
  ∀ n (X : gset UUID), Runner.pending_order env n X ≡ₚ elements X.

(** Every await of [asyncio.wait] returns: among the tasks passed, one at
    least is reported done. *)
Definition live (env : Runner.Env) : Prop :=
  ∀ n (tasks : gset UUID), tasks ≠ ∅ →
    ∃ i, i ∈ Runner.done_tasks env n tasks ∧ i ∈ tasks.

(** A step lies upstream of [target]: an edge leads from it to [target] or
    to a step of the flow that lies upstream. *)
Inductive upstream (flow : Flow.t F) (target : UUID) : UUID → Prop :=
| upstream_edge e :
    e ∈ Flow.edges flow → Edge.target_step_id e = target →
    upstream flow target (Edge.source_step_id e)
| upstream_step s step e :
    upstream flow target s → Flow.get_step flow s = Some step →
    e ∈ Flow.edges flow → Edge.target_step_id e = s →
    upstream flow target (Edge.source_step_id e).

(** The finding for one reference of a step: an error when the root
    segment of the reference is not among the available keys. *)
Definition finding (step : Step.t F) (available_keys : gset string)
    (r : string * string) : list Validator.ValidationError :=
  if bool_decide (hd "" (Py.split "." r.2) ∉ available_keys)
  then [Validator.mkValidationError (Step.id step) r.1 r.2
          ("'" +:+ r.2 +:+ "' not found. Available: "
           +:+ Validator.show_keys available_keys)
          "error"]
  else [].

(** The key that the configuration of a step adds to the keys available
    after it: a field [key] that holds a non-empty string. *)
Definition config_key (config : Interpolation.model F) (k : string) : Prop :=
  Py.dict_get "key" (Interpolation.model_fields config)
  = Some (Interpolation.CStr k)
  ∧ k ≠ "".

(** A step can be reached from the trigger along the edges of the flow. *)
Inductive reachable (flow : Flow.t F) (trigger : UUID) : UUID → Prop :=
| reachable_trigger : reachable flow trigger trigger
| reachable_edge e :
    reachable flow trigger (Edge.source_step_id e) → e ∈ Flow.edges flow →
    reachable flow trigger (Edge.target_step_id e).

(** The readings of [time.perf_counter] do not decrease. *)
Definition monotone (env : Runner.Env) : Prop :=
  ∀ n m, (n ≤ m)%nat → Runner.perf_counter env n ≤ Runner.perf_counter env m.

(** A [StepStarted] event of the step is among the events. *)
Definition started (events : list (Event.t F)) (step_id : UUID) : Prop :=
  ∃ run_id step_type, Event.StepStarted run_id step_id step_type ∈ events.

(** Every [StepCompleted] event comes after a [StepStarted] event of its
    step. *)
Definition completions_started (events : list (Event.t F)) : Prop :=
  ∀ before run_id step_id result duration_ms state_snapshot after,
    events
    = before
      ++ Event.StepCompleted run_id step_id result duration_ms state_snapshot
         :: after →
    started before step_id.

(** The duration that a [StepCompleted] event reports is not negative. *)
Definition duration_ok (event : Event.t F) : Prop :=
  match event with
  | Event.StepCompleted _ _ _ duration_ms _ => 0 ≤ duration_ms
  | _ => True
  end.

End Spec.
End Spec.

(** ** Notions used in the proofs *)

Module Aux.
Section Aux.
Context {F : Type} `{!Py.Builtins F} `{!Interpolation.Pydantic F}.

(** The tracker that [join_trackers[step_id]] gives. *)
Definition tracker_view (d : Runner.Driver F) (step_id : UUID)
  : JoinTracker.t F :=
  default JoinTracker.empty (Runner.join_trackers d !! step_id).

(** What [select_one] requires of a step to put it on [steps_to_launch]. *)
Definition launchable (flow : Flow.t F) (d : Runner.Driver F) (step_id : UUID)
  : Prop :=
  ∃ step, Flow.get_step flow step_id = Some step
    ∧ (Flow.get_edges_to flow step_id = [] ∨ Step.join_mode step = NO_WAIT
       ∨ JoinTracker.is_ready (tracker_view d step_id) (Step.join_mode step)
           (Flow.get_edges_to flow step_id) = true).

(** [d'] continues [d]: more events, all of them of steps, and the results
    they carry. *)
Definition extends (d d' : Runner.Driver F) : Prop :=
  ∃ events, Runner.emitted d' = Runner.emitted d ++ events
    ∧ Runner.results d' = Runner.results d ++ omap Spec.completed_result events
    ∧ Forall Spec.is_step_event events.

(** The targets of the edges that leave a step. *)
Definition successors (flow : Flow.t F) (step_id : UUID) : list UUID :=
  Edge.target_step_id <$> Flow.get_edges_from flow step_id None.

(** The number of paths that leave a step, of length [n] at most. *)
Fixpoint weight (flow : Flow.t F) (n : nat) (step_id : UUID) : nat :=
  match n with
  | O => 1
  | S n' => S (sum_list_with (weight flow n') (successors flow step_id))
  end.

(** The number of paths that leave a step of an acyclic flow. *)
Definition W (flow : Flow.t F) (rank : UUID → nat) (step_id : UUID) : nat :=
  weight flow (rank step_id) step_id.

Definition wsum (w : UUID → nat) (X : gset UUID) : nat :=
  sum_list_with w (elements X).

(** The measure that every await of the driver decreases. *)
Definition potential (w : UUID → nat) (d : Runner.Driver F) : nat :=
  (wsum w (Runner.pending d) + wsum w (dom (Runner.running d)))%nat.

(** The invariant of the loop of [steps_before], started at [target]. *)
Definition bfs_inv (flow : Flow.t F) (target : UUID) (queue : list UUID)
    (visited : gset UUID) (result : list (Step.t F)) : Prop :=
  (∀ s, s ∈ queue ∨ s ∈ visited → Spec.upstream flow target s)
  ∧ (∀ u, u ∈ result ↔ ∃ s, s ∈ visited ∧ Flow.get_step flow s = Some u)
  ∧ (∀ e, e ∈ Flow.edges flow → Edge.target_step_id e = target →
          Edge.source_step_id e ∈ queue ∨ Edge.source_step_id e ∈ visited)
  ∧ (∀ s step e, s ∈ visited → Flow.get_step flow s = Some step →
          e ∈ Flow.edges flow → Edge.target_step_id e = s →
          Edge.source_step_id e ∈ queue ∨ Edge.source_step_id e ∈ visited).

(** The arrivals recorded in the trackers of the driver come from sources
    of the incoming edges of the step they are kept for. *)
Definition trackers_ok (flow : Flow.t F) (d : Runner.Driver F) : Prop :=
  ∀ step_id tracker source,
    Runner.join_trackers d !! step_id = Some tracker →
    is_Some (JoinTracker.arrivals tracker !! source) →
    ∃ e, e ∈ Flow.get_edges_to flow step_id ∧ Edge.source_step_id e = source.

(** The value that [cast_to_type] gives for the empty string. *)
Definition zero_of (target_type : Interpolation.target) : Interpolation.cval F :=
  match target_type with
  | Interpolation.TStr | Interpolation.TOther => Interpolation.CStr ""
  | Interpolation.TInt => Interpolation.CInt 0
  | Interpolation.TFloat => Interpolation.CFloat Interpolation.float_zero
  | Interpolation.TBool => Interpolation.CBool false
  | Interpolation.TDict => Interpolation.CDict []
  | Interpolation.TList => Interpolation.CList []
  end.

(** An edge passes [validate_edges]: both ends are steps of the flow and
    the port is one of the source. *)
Definition edge_ok (flow : Flow.t F) (edge : Edge.t) : Prop :=
  ∃ source_step,
    Flow.get_step flow (Edge.source_step_id edge) = Some source_step
    ∧ is_Some (Flow.get_step flow (Edge.target_step_id edge))
    ∧ Edge.source_port edge ∈ Step.ports source_step.

(** The exception of [validate_safe_url] for a listed suffix. *)
Definition tld_error (tld : string) : Exn :=
  mkExn "ValueError" ("URLs with internal TLD '" +:+ tld +:+ "' are not allowed").

(** The invariant of the driver on its events: a completion follows the
    start of its step, a running step has been started, and the steps
    started or pending are steps that can be reached from the trigger. *)
Definition events_ok (env : Runner.Env) (flow : Flow.t F) (trigger : UUID)
    (d : Runner.Driver F) : Prop :=
  Spec.completions_started (Runner.emitted d)
  ∧ (∀ step_id, step_id ∈ dom (Runner.running d) →
                Spec.started (Runner.emitted d) step_id)
  ∧ (∀ run_id step_id step_type,
       Event.StepStarted run_id step_id step_type ∈ Runner.emitted d →
       run_id = Runner.run_id env
       ∧ Spec.reachable flow trigger step_id
       ∧ ∃ step, Flow.get_step flow step_id = Some step
                 ∧ step_type = StepType_value (Step.type step))
  ∧ (∀ step_id, step_id ∈ Runner.pending d → Spec.reachable flow trigger step_id).

(** The invariant of the driver on its clock: the start times kept are
    readings already taken. *)
Definition times_ok (env : Runner.Env) (d : Runner.Driver F) : Prop :=
  (∀ step_id t, Runner.step_start_times d !! step_id = Some t →
                t ≤ Runner.perf_counter env (Runner.clock_reads d))
  ∧ Forall Spec.duration_ok (Runner.emitted d).

(** A pending step is held back: it is a step of the flow with incoming
    edges and a join mode other than [NO_WAIT] whose tracker is not
    ready. *)
Definition held_back (flow : Flow.t F) (d : Runner.Driver F) (step_id : UUID)
  : Prop :=
  ∃ step, Flow.get_step flow step_id = Some step
    ∧ Flow.get_edges_to flow step_id ≠ []
    ∧ Step.join_mode step ≠ NO_WAIT
    ∧ JoinTracker.is_ready (tracker_view d step_id) (Step.join_mode step)
        (Flow.get_edges_to flow step_id) = false.

(** No string of a value, or of the fields of a configuration, holds
    "{{". *)
Fixpoint plain (v : Interpolation.cval F) : bool :=
  match v with
  | Interpolation.CStr s => negb (Py.contains "{{" s)
  | Interpolation.CList l => forallb plain l
  | Interpolation.CDict d => forallb (fun kv => plain kv.2) d
  | Interpolation.CModel m => plain_model m
  | _ => true
  end
with plain_model (m : Interpolation.model F) : bool :=
  match m with
  | Interpolation.Model _ _ fields => forallb (fun kv => plain kv.2) fields
  end.

End Aux.
End Aux.

(** ** Example data

    A stand-in for the floats and the libraries of the interpreter, to run
    the definitions on examples: the integral floats, a JSON parser that
    rejects its input, containers printed by their JSON encoding, and a
    pydantic that accepts every model as it is. *)

Module Fixture.

Definition float_of_str (s : string) : res Z :=
  match Py.int s with
  | Some n => Ok n
  | None => Raise (mkExn "ValueError" "could not convert string to float")
  end.

Definition show_float (x : Z) : string := Py.str_of_int x +:+ ".0".

#[global] Instance plain : Py.Builtins Z := {|
  Py.float_bool x := negb (x =? 0);
  Py.float_repr := show_float;
  Py.float_json := show_float;
  Py.float_of_int n := Ok n;
  Py.float_of_str := float_of_str;
  Py.container_str v := "[...]";
  Py.json_loads s := Raise (mkExn "JSONDecodeError" "Expecting value");
|}.

#[global] Instance pydantic : Interpolation.Pydantic Z := {|
  Interpolation.model_validate m := Ok m;
  Interpolation.float_zero := 0;
|}.

Definition no_config : Interpolation.model Z :=
  Interpolation.Model "StepConfig" (Some []) [].

(** The state of the test suite's [state_with_data], in part. *)
Definition state_with_data : StateContainer.t Z :=
  StateContainer.mk ∅
    [("user", Py.VDict [("name", Py.VStr "Alice");
                        ("profile", Py.VDict [("email", Py.VStr "a@x")])]);
     ("items", Py.VList [Py.VDict [("name", Py.VStr "I1")]]);
     ("x", Py.VStr "{{y}}");
     ("y", Py.VStr "z")].

(** A request step whose body raises an exception that it does not
    handle itself. *)
Definition failing_request : Step.t Z :=
  Step.mk 7%N REQUEST NO_WAIT (0, 0) false ["success"; "error"]
    (Interpolation.Model "StepRequestConfig" (Some [("url", Interpolation.TStr)])
       [("url", Interpolation.CStr "https://example.com")])
    [Output.mk "response" ANY None]
    (fun state _ => (state, Raise (mkExn "RuntimeError" "boom"))).

(** A webhook trigger: its body fires [default]. *)
Definition webhook_trigger (id : UUID) : Step.t Z :=
  Step.mk id TRIGGER_WEBHOOK NO_WAIT (0, 0) true ["default"]
    (Interpolation.Model "TriggerWebhookConfig" (Some [])
       [("method", Interpolation.CStr "POST"); ("path", Interpolation.CStr "/t")])
    [Output.mk "body" ANY None; Output.mk "headers" OBJECT None;
     Output.mk "method" TEXT None; Output.mk "query" OBJECT None]
    (fun state _ =>
       (state, Ok (StepRunResult.mk id SUCCESS ["default"] false None None))).

Definition set_state_config (key value : string) : Interpolation.model Z :=
  Interpolation.Model "StepSetStateConfig"
    (Some [("value", Interpolation.TStr)])
    [("key", Interpolation.CStr key); ("value", Interpolation.CStr value)].

(** A set-state step: its body stores the resolved value under the key. *)
Definition set_state_run (id : UUID) (state : StateContainer.t Z)
    (config : Interpolation.model Z)
  : StateContainer.t Z * res (StepRunResult.t Z) :=
  match Py.dict_get "key" (Interpolation.model_fields config),
        Py.dict_get "value" (Interpolation.model_fields config) with
  | Some (Interpolation.CStr key), Some (Interpolation.CStr value) =>
      match StateContainer.set state key (Py.VStr value) with
      | Ok state' =>
          (state',
           Ok (StepRunResult.mk id SUCCESS ["default"] false
                 (Some [(key, Py.VStr value)]) None))
      | Raise e => (state, Raise e)
      end
  | _, _ => (state, Raise (mkExn "AttributeError" "config"))
  end.

Definition set_state (id : UUID) (join_mode : JoinMode) (key value : string)
  : Step.t Z :=
  Step.mk id SET_STATE join_mode (0, 0) false ["default"]
    (set_state_config key value) [] (set_state_run id).

(** A step whose body raises. *)
Definition failing (id : UUID) : Step.t Z :=
  Step.mk id DELAY NO_WAIT (0, 0) false ["default"] no_config
    [Output.mk "delayed_seconds" NUMBER None]
    (fun state _ => (state, Raise (mkExn "RuntimeError" "boom"))).

(** A step with a field annotated [Interpolated[int]]. *)
Definition counting (id : UUID) (n : string) : Step.t Z :=
  Step.mk id TRANSFORM NO_WAIT (0, 0) false ["default"]
    (Interpolation.Model "CountConfig" (Some [("n", Interpolation.TInt)])
       [("n", Interpolation.CStr n)])
    []
    (fun state _ =>
       (state, Ok (StepRunResult.mk id SUCCESS ["default"] false None None))).

Definition edge (id source target : UUID) : Edge.t :=
  Edge.mk id source "default" target "default".

(** Scenario S1: trigger, then [x = "a"], then [y = "{{x}}!"]. *)
Definition linear_flow : Flow.t Z :=
  Flow.mk 100%N (Some "linear")
    [webhook_trigger 1%N; set_state 2%N NO_WAIT "x" "a";
     set_state 3%N NO_WAIT "y" "{{x}}!"]
    [edge 11%N 1%N 2%N; edge 12%N 2%N 3%N].

(** Scenario S5: the trigger fans out to a step that succeeds and a step
    that fails; both feed a step joined with [ALL_SUCCESS]. *)
Definition join_flow : Flow.t Z :=
  Flow.mk 101%N (Some "join")
    [webhook_trigger 1%N; set_state 2%N NO_WAIT "a" "1"; failing 3%N;
     set_state 4%N ALL_SUCCESS "c" "never"]
    [edge 11%N 1%N 2%N; edge 12%N 1%N 3%N; edge 13%N 2%N 4%N; edge 14%N 3%N 4%N].

(** A set-state step with an empty key before a step that refers to the
    empty root. *)
Definition empty_key_flow : Flow.t Z :=
  Flow.mk 102%N None
    [set_state 1%N NO_WAIT "" "v"; set_state 2%N NO_WAIT "y" "{{ }}"]
    [edge 11%N 1%N 2%N].

(** A flow whose only step cannot resolve its configuration in
    [state_with_data]: [{{x}}] is no integer there. *)
Definition count_flow : Flow.t Z :=
  Flow.mk 103%N None [counting 1%N "{{x}}"] [].

(** The surroundings in which every running task is done at the next
    await, and the clock advances by one at every reading. *)
Definition eager : Runner.Env :=
  Runner.mkEnv 99%N Z.of_nat (fun _ X => elements X)
    (fun _ tasks => elements tasks).

Definition success_of (id : UUID) : StepRunResult.t Z :=
  StepRunResult.mk id SUCCESS ["default"] false None None.

(** A tracker that holds an arrival from a step that is no source of the
    incoming edges. *)
Definition crowded_tracker : JoinTracker.t Z :=
  JoinTracker.mk (<[1%N := success_of 1%N]> (<[2%N := success_of 2%N]> ∅)).

Definition single_tracker : JoinTracker.t Z :=
  JoinTracker.mk (<[1%N := success_of 1%N]> ∅).

#[global] Instance order : Py.FloatOrder Z := {|
  Py.float_lt := Z.ltb;
|}.

(** A flow whose first step is joined and has an incoming edge. *)
Definition joined_trigger_flow : Flow.t Z :=
  Flow.mk 104%N None
    [set_state 1%N ALL_SUCCESS "a" "1"; set_state 2%N NO_WAIT "b" "2"]
    [edge 11%N 1%N 2%N; edge 12%N 2%N 1%N].

(** The driver of a run of [linear_flow] whose trigger is running. *)
Definition trigger_running : Runner.Driver Z :=
  Runner.with_running {[1%N := Runner.mkTask (webhook_trigger 1%N) no_config]}
    (Runner.initial eager linear_flow 1%N None).

End Fixture.

(** * Theorems *)

Set Warnings "-clear-no-such-hyp".

(** ** Strings and the reference pattern *)

Module StringFacts.
Import Spec.

Lemma app_cons c s t : String c s +:+ t = String c (s +:+ t).
Proof. reflexivity. Qed.

Lemma app_nil_l t : "" +:+ t = t.
Proof. reflexivity. Qed.

Lemma app_nil_r s : s +:+ "" = s.
Proof. induction s as [|c s IH]; [done|]. by rewrite app_cons, IH. Qed.

Lemma app_assoc s t u : (s +:+ t) +:+ u = s +:+ t +:+ u.
Proof. induction s as [|c s IH]; [done|]. by rewrite !app_cons, IH. Qed.

Lemma length_app s t :
  String.length (s +:+ t) = (String.length s + String.length t)%nat.
Proof. induction s as [|c s IH]; [done|]. rewrite app_cons. simpl. by rewrite IH. Qed.

Lemma substring_app s t :
  String.substring 0 (String.length s) (s +:+ t) = s.
Proof. induction s as [|c s IH]; [by destruct t|]. rewrite app_cons. simpl. by rewrite IH. Qed.

Lemma contains_brace_cons c g :
  Py.contains "}" (String c g) = bool_decide (c = "}"%char) || Py.contains "}" g.
Proof.
  cbn [Py.contains String.prefix].
  destruct (ascii_dec "}" c) as [<-|Hne].
  - rewrite bool_decide_true by done. by destruct g.
  - rewrite bool_decide_false by congruence. done.
Qed.

Lemma span_body_app s g rest :
  span_body s = (g, rest) →
  s = g +:+ rest ∧ Py.contains "}" g = false
  ∧ match rest with String c _ => c = "}"%char | EmptyString => True end.
Proof.
  revert g rest. induction s as [|c s IH]; intros g rest; simpl.
  - intros [= <- <-]. split_and!; reflexivity.
  - case_bool_decide as Hc.
    + subst c. intros [= <- <-]. split_and!; reflexivity.
    + destruct (span_body s) as [g' rest'] eqn:Hs. intros [= <- <-].
      destruct (IH _ _ eq_refl) as (-> & Hg & Hrest).
      split_and!; [done| |done].
      rewrite contains_brace_cons, Hg. by rewrite bool_decide_false.
Qed.

Lemma span_body_unique g rest :
  Py.contains "}" g = false →
  match rest with String c _ => c = "}"%char | EmptyString => True end →
  span_body (g +:+ rest) = (g, rest).
Proof.
  intros Hg Hrest. induction g as [|c g IH].
  - rewrite app_nil_l. destruct rest as [|c rest]; [done|]. subst c. done.
  - rewrite app_cons. simpl.
    rewrite contains_brace_cons in Hg. apply orb_false_elim in Hg as [Hc Hg].
    rewrite Hc. by rewrite IH.
Qed.

Lemma scan_ref_spec s g rest :
  scan_ref s = Some (g, rest) ↔ Spec.starts_with_ref s g rest.
Proof.
  unfold Spec.starts_with_ref. split.
  - unfold scan_ref. intros H.
    destruct s as [|c1 [|c2 s1]]; try done.
    { by destruct c1 as [[][][][][][][][]]. }
    assert (c1 = "{"%char ∧ c2 = "{"%char) as [-> ->].
    { destruct c1 as [[][][][][][][][]]; try done;
      destruct c2 as [[][][][][][][][]]; try done. }
    destruct (span_body s1) as [g' s2] eqn:Hs.
    destruct (span_body_app _ _ _ Hs) as (-> & Hg & _).
    destruct g' as [|c g']; [done|]. simpl in H.
    destruct s2 as [|d1 [|d2 s2]]; try done.
    { by destruct d1 as [[][][][][][][][]]. }
    assert (d1 = "}"%char ∧ d2 = "}"%char) as [-> ->].
    { destruct d1 as [[][][][][][][][]]; try done;
      destruct d2 as [[][][][][][][][]]; try done. }
    simplify_eq. done.
  - intros (Hne & Hg & ->). rewrite !app_cons, app_nil_l. unfold scan_ref.
    rewrite span_body_unique by done.
    destruct g; done.
Qed.

Lemma match_plus_span {R} (cont : string → option R) s1 :
  (∀ c s', c ≠ "}"%char → cont (String c s') = None) →
  Py.match_plus (Py.NotLit "}") cont s1
  = let '(g, s2) := span_body s1 in if Py.is_empty g then None else cont s2.
Proof.
  intros Hcont. induction s1 as [|c s' IH]; [done|].
  cbn [Py.match_plus Py.accepts span_body].
  case_bool_decide as Hc; [done|]. cbn [negb].
  rewrite IH. destruct (span_body s') as [g' s2] eqn:Hs.
  destruct (span_body_app _ _ _ Hs) as (-> & Hg & _).
  destruct g' as [|c' g']; cbn [Py.is_empty].
  - by rewrite app_nil_l.
  - destruct (cont s2) eqn:Hk; [done|].
    rewrite app_cons. apply Hcont.
    rewrite contains_brace_cons in Hg. apply orb_false_elim in Hg as [Hc' _].
    by apply bool_decide_eq_false in Hc'.
Qed.

Lemma match_at_REF s :
  Py.match_at Interpolation.REF_PATTERN s
  = (fun '(g, rest) => (rest, [g])) <$> scan_ref s.
Proof.
  unfold Py.match_at, Interpolation.REF_PATTERN.
  cbn [Py.match_re].
  destruct s as [|c1 s]; [done|].
  cbn [Py.accepts]. case_bool_decide as H1; [subst c1|];
    [|by destruct c1 as [[][][][][][][][]]; try done].
  destruct s as [|c2 s1]; [done|].
  case_bool_decide as H2; [subst c2|];
    [|by destruct c2 as [[][][][][][][][]]; try done].
  rewrite match_plus_span.
  2:{ intros c s' Hc. by rewrite bool_decide_false. }
  cbn [scan_ref].
  destruct (span_body s1) as [g s2] eqn:Hs.
  destruct (span_body_app _ _ _ Hs) as (-> & Hg & _).
  destruct (Py.is_empty g); [done|].
  destruct s2 as [|d1 s2]; [done|].
  case_bool_decide as H3; [subst d1|];
    [|by destruct d1 as [[][][][][][][][]]; try done].
  destruct s2 as [|d2 s2]; [done|].
  case_bool_decide as H4; [subst d2|];
    [|by destruct d2 as [[][][][][][][][]]; try done].
  cbn [fmap option_fmap option_map app].
  rewrite length_app.
  replace (String.length g + String.length (String "}" (String "}" s2))
           - String.length (String "}" (String "}" s2)))%nat
    with (String.length g) by lia.
  by rewrite substring_app.
Qed.

Lemma scan_ref_shorter s g rest :
  scan_ref s = Some (g, rest) → (String.length rest < String.length s)%nat.
Proof.
  intros (_ & _ & ->)%scan_ref_spec. rewrite !length_app. simpl. lia.
Qed.

Lemma sub_go_fuel r repl fuel1 fuel2 s :
  (String.length s ≤ fuel1)%nat → (String.length s ≤ fuel2)%nat →
  Py.sub_go fuel1 r repl s = Py.sub_go fuel2 r repl s.
Proof.
  revert fuel2 s. induction fuel1 as [|fuel1 IH]; intros fuel2 s H1 H2.
  - destruct s; [by destruct fuel2|simpl in H1; lia].
  - destruct s as [|c s']; [by destruct fuel2|].
    destruct fuel2 as [|fuel2]; [simpl in H2; lia|].
    simpl in H1, H2. cbn [Py.sub_go].
    destruct (Py.match_at r (String c s')) as [[rest caps]|].
    + destruct (String.length rest <? String.length (String c s'))%nat eqn:Hlt.
      * apply Nat.ltb_lt in Hlt. simpl in Hlt.
        f_equal. apply IH; lia.
      * f_equal. apply IH; lia.
    + f_equal. apply IH; lia.
Qed.

Lemma sub_go_S n r repl c s' :
  Py.sub_go (S n) r repl (String c s')
  = match Py.match_at r (String c s') with
    | Some (rest, caps) =>
        if (String.length rest <? String.length (String c s'))%nat
        then repl caps +:+ Py.sub_go n r repl rest
        else String c (Py.sub_go n r repl s')
    | None => String c (Py.sub_go n r repl s')
    end.
Proof. reflexivity. Qed.

Lemma sub_match r repl s rest caps :
  Py.match_at r s = Some (rest, caps) →
  (String.length rest < String.length s)%nat →
  Py.sub r repl s = repl caps +:+ Py.sub r repl rest.
Proof.
  intros Hm Hlt. unfold Py.sub. destruct s as [|c s']; [simpl in Hlt; lia|].
  replace (String.length (String c s')) with (S (String.length s')) at 1
    by reflexivity.
  rewrite sub_go_S, Hm.
  apply Nat.ltb_lt in Hlt as Hlt'. rewrite Hlt'. f_equal.
  simpl in Hlt. apply sub_go_fuel; lia.
Qed.

Lemma sub_no_match r repl c s' :
  Py.match_at r (String c s') = None →
  Py.sub r repl (String c s') = String c (Py.sub r repl s').
Proof.
  intros Hm. unfold Py.sub.
  replace (String.length (String c s')) with (S (String.length s')) at 1
    by reflexivity.
  by rewrite sub_go_S, Hm.
Qed.

Lemma contains_open_cons c s :
  Py.contains "{{" (String c s) = false → Py.contains "{{" s = false.
Proof.
  cbn [Py.contains]. intros H. by apply orb_false_elim in H as [_ H].
Qed.

Lemma contains_open_scan s : Py.contains "{{" s = false → scan_ref s = None.
Proof.
  destruct s as [|c1 [|c2 s]]; try done.
  - by destruct c1 as [[][][][][][][][]].
  - intros H. cbn [Py.contains] in H. apply orb_false_elim in H as [H _].
    destruct c1 as [[][][][][][][][]]; try done.
    destruct c2 as [[][][][][][][][]]; try done.
    by destruct s.
Qed.

Lemma contains_char_cons c a s :
  Py.contains (String c "") (String a s)
  = bool_decide (a = c) || Py.contains (String c "") s.
Proof.
  cbn [Py.contains String.prefix].
  destruct (ascii_dec c a) as [->|Hne].
  - rewrite bool_decide_true by done. by destruct s.
  - rewrite bool_decide_false by congruence. done.
Qed.

(** [in] on strings: a prefix, and a part. *)
Lemma prefix_spec needle hay :
  String.prefix needle hay = true ↔ ∃ post, hay = needle +:+ post.
Proof.
  revert hay. induction needle as [|c needle IH]; intros hay.
  - split; [intros _; by exists hay|]. intros _. by destruct hay.
  - destruct hay as [|a hay]; cbn [String.prefix].
    + split; [done|]. by intros [post [=]].
    + destruct (ascii_dec c a) as [->|Hne].
      * rewrite IH. split; intros [post Hpost]; exists post.
        -- by rewrite app_cons, Hpost.
        -- rewrite app_cons in Hpost. congruence.
      * split; [done|]. intros [post Hpost]. rewrite app_cons in Hpost. congruence.
Qed.

Lemma contains_spec needle hay :
  Py.contains needle hay = true ↔ ∃ pre post, hay = pre +:+ needle +:+ post.
Proof.
  induction hay as [|a hay IH]; cbn [Py.contains].
  - rewrite orb_false_r, prefix_spec. split.
    + intros [post Hpost]. by exists "", post.
    + intros (pre & post & Heq). destruct pre as [|c pre]; [by exists post|].
      rewrite app_cons in Heq. done.
  - rewrite orb_true_iff, prefix_spec, IH. split.
    + intros [[post Hpost]|(pre & post & Hpost)].
      * by exists "", post.
      * exists (String a pre), post. by rewrite app_cons, Hpost.
    + intros (pre & post & Heq). destruct pre as [|c pre].
      * left. by exists post.
      * right. rewrite app_cons in Heq. injection Heq as -> ->. by exists pre, post.
Qed.

Lemma endswith_spec s suffix :
  Py.endswith s suffix = true ↔ ∃ pre, s = pre +:+ suffix.
Proof.
  induction s as [|c s IH]; cbn [Py.endswith].
  - rewrite orb_false_r, bool_decide_eq_true. split.
    + intros <-. by exists "".
    + intros [pre Hpre]. destruct pre; [done|]. by rewrite app_cons in Hpre.
  - rewrite orb_true_iff, bool_decide_eq_true, IH. split.
    + intros [<-|[pre ->]]; [by exists ""|]. by exists (String c pre).
    + intros [pre Hpre]. destruct pre as [|a pre]; [by left|].
      right. rewrite app_cons in Hpre. injection Hpre as -> ->. by exists pre.
Qed.

End StringFacts.


(** ** The state container *)

Module StateFacts.
Section StateFacts.
Context {F : Type} `{!Py.Builtins F}.

Lemma dict_get_set {V} (k : string) (v : V) (d : list (string * V)) :
  Py.dict_get k (Py.dict_set k v d) = Some v.
Proof.
  induction d as [|[k' v'] d IH]; simpl.
  - by rewrite decide_True.
  - destruct (decide (k' = k)) as [->|Hne]; simpl.
    + by rewrite decide_True.
    + by rewrite decide_False.
Qed.

Lemma dict_get_set_ne {V} (k k0 : string) (v : V) (d : list (string * V)) :
  k0 ≠ k → Py.dict_get k0 (Py.dict_set k v d) = Py.dict_get k0 d.
Proof.
  intros Hne. induction d as [|[k' v'] d IH]; simpl.
  - by rewrite decide_False.
  - destruct (decide (k' = k)) as [->|Hne']; simpl.
    + rewrite !decide_False; auto.
    + destruct (decide (k' = k0)); auto.
Qed.

(** C10: a slot of any declared type casts [None] to [None] (no coercion
    to [False], no exception), and [StateContainer.set] of [None] succeeds
    and stores [None] under the name, whether a slot is declared for it or
    not; the slots are left as they were. *)
Theorem cast_None (slot : StateSlot.t) :
  StateSlot.cast slot (Py.VNone (F:=F)) = Ok Py.VNone
  ∧ ∀ (st : StateContainer.t F) (name : string),
      ∃ st', StateContainer.set st name Py.VNone = Ok st'
             ∧ Py.dict_get name (StateContainer.values st') = Some Py.VNone
             ∧ StateContainer.get st' name (Py.VBool false) = Py.VNone
             ∧ StateContainer.slots st' = StateContainer.slots st.
Proof.
  split; [done|].
  intros st name. unfold StateContainer.set, StateContainer.get.
  destruct (StateContainer.slots st !! name) as [slot'|]; simpl;
    eexists; (split; [reflexivity|]); simpl; rewrite dict_get_set; done.
Qed.

(** C7, as amended: through a slot of type [BOOLEAN], [None] stays [None];
    a string is cast to the boolean that tells whether its lowercase form
    is one of "true", "1", "yes" (so every other string is cast to
    [False], whatever its truthiness); any other value is cast to its
    truthiness. *)
Theorem cast_boolean (name : string) (description : option string)
    (v : Py.value F) :
  let slot := StateSlot.mk name BOOLEAN description in
  match v with
  | Py.VNone => StateSlot.cast slot v = Ok Py.VNone
  | Py.VStr s =>
      StateSlot.cast slot v
      = Ok (Py.VBool (bool_decide (Py.lower s ∈ ["true"; "1"; "yes"])))
  | _ => StateSlot.cast slot v = Ok (Py.VBool (Py.bool v))
  end.
Proof. by destruct v. Qed.

Lemma read_path_None (segments : list string) :
  foldl (fun current segment => current ≫= fun v : Py.value F => Spec.read_segment v segment)
        None segments = None.
Proof. by induction segments. Qed.

Lemma get_nested_loop_read_path (parts : list string) (current default : Py.value F) :
  StateContainer.get_nested_loop parts current default
  = from_option id default (Spec.read_path current parts).
Proof.
  unfold Spec.read_path.
  revert current. induction parts as [|part parts IH]; intros current; [done|].
  simpl. destruct current as [| | | | |l|d]; simpl;
    try (by rewrite read_path_None).
  - destruct (Py.int part) as [index|]; simpl; [|by rewrite read_path_None].
    destruct (0 <=? index) eqn:H0; destruct (index <? Z.of_nat (length l)) eqn:H1; simpl.
    + rewrite bool_decide_true by lia.
      destruct (l !! Z.to_nat index) as [item|]; simpl; [apply IH|by rewrite read_path_None].
    + rewrite bool_decide_false by lia. by rewrite read_path_None.
    + rewrite bool_decide_false by lia. by rewrite read_path_None.
    + rewrite bool_decide_false by lia. by rewrite read_path_None.
  - unfold Py.get_or_none. destruct (Py.dict_get part d) as [v|]; simpl;
      [|by rewrite read_path_None].
    destruct v; simpl; try apply IH. by rewrite read_path_None.
Qed.

Lemma split_nonempty sep s : Py.split sep s ≠ [].
Proof.
  destruct s as [|c s]; [done|]. cbn [Py.split].
  destruct (decide (c = sep)); [done|]. by destruct (Py.split sep s).
Qed.

Lemma split_app sep p q :
  Py.split sep (p +:+ String sep q) = Py.split sep p ++ Py.split sep q.
Proof.
  induction p as [|c p IH].
  - change ("" +:+ String sep q) with (String sep q). cbn [Py.split].
    by rewrite decide_True.
  - change (String c p +:+ String sep q) with (String c (p +:+ String sep q)).
    cbn [Py.split]. rewrite IH. destruct (decide (c = sep)); [done|].
    pose proof (split_nonempty sep p). by destruct (Py.split sep p).
Qed.

Lemma read_path_app (root : Py.value F) l1 l2 :
  Spec.read_path root (l1 ++ l2)
  = Spec.read_path root l1 ≫= fun v => Spec.read_path v l2.
Proof.
  unfold Spec.read_path. rewrite foldl_app.
  destruct (foldl _ (Some root) l1); [done|]. apply read_path_None.
Qed.


Lemma dict_set_keys {V} (k : string) (v : V) (d : list (string * V)) :
  (Py.dict_set k v d).*1
  = if bool_decide (k ∈ d.*1) then d.*1 else d.*1 ++ [k].
Proof.
  induction d as [|[k' v'] d IH]; [done|].
  cbn [Py.dict_set]. destruct (decide (k' = k)) as [->|Hne]; cbn [fmap list_fmap fst].
  - rewrite bool_decide_true; [done|]. cbn. left.
  - cbn in IH. rewrite IH. cbn.
    destruct (bool_decide (k ∈ d.*1)) eqn:Hk.
    + apply bool_decide_eq_true in Hk. rewrite bool_decide_true; [done|]. by right.
    + apply bool_decide_eq_false in Hk. rewrite bool_decide_false; [done|].
      rewrite elem_of_cons. naive_solver.
Qed.

(** X3: when [set] returns, [get] of the name gives what was stored, the value
    itself or, when a slot is declared for the name, its cast; the other
    names read as before, the slots are unchanged, and the name keeps its
    place among the keys or is added last. *)
Theorem set_then_get (st st' : StateContainer.t F) (name : string)
    (value : Py.value F) :
  StateContainer.set st name value = Ok st' →
  (∃ stored,
      match StateContainer.slots st !! name with
      | Some slot => StateSlot.cast slot value = Ok stored
      | None => stored = value
      end
      ∧ ∀ default, StateContainer.get st' name default = stored)
  ∧ (∀ other default, other ≠ name →
       StateContainer.get st' other default = StateContainer.get st other default)
  ∧ StateContainer.slots st' = StateContainer.slots st
  ∧ (StateContainer.values st').*1
    = if bool_decide (name ∈ (StateContainer.values st).*1)
      then (StateContainer.values st).*1
      else (StateContainer.values st).*1 ++ [name].
Proof.
  unfold StateContainer.set. intros Hset.
  assert (∃ stored,
    match StateContainer.slots st !! name with
    | Some slot => StateSlot.cast slot value = Ok stored
    | None => stored = value
    end
    ∧ st' = StateContainer.mk (StateContainer.slots st)
              (Py.dict_set name stored (StateContainer.values st)))
    as (stored & Hstored & ->).
  { destruct (StateContainer.slots st !! name) as [slot|]; cbn in Hset.
    - destruct (StateSlot.cast slot value) as [v|e]; cbn in Hset; [|done].
      exists v. split; [done|]. congruence.
    - exists value. split; [done|]. congruence. }
  split_and!.
  - exists stored. split; [done|]. intros default.
    unfold StateContainer.get; cbn. by rewrite dict_get_set.
  - intros other default Hne. unfold StateContainer.get; cbn.
    by rewrite dict_get_set_ne.
  - done.
  - cbn. apply dict_set_keys.
Qed.


(** X5: what [cast] returns for a value other than [None]: for [TEXT] the
    string form of the value, for [NUMBER] an int or a float, for [BOOLEAN]
    a bool, for [ANY] the value; for [OBJECT] and [ARRAY] the value itself
    unless it is a string (which is parsed as JSON). *)
Theorem cast_result_kind (slot : StateSlot.t) (value v : Py.value F) :
  StateSlot.cast slot value = Ok v →
  value ≠ Py.VNone →
  match StateSlot.type slot with
  | TEXT => v = Py.VStr (Py.str value)
  | NUMBER => (∃ n, v = Py.VInt n) ∨ (∃ x, v = Py.VFloat x)
  | BOOLEAN => ∃ b, v = Py.VBool b
  | ANY => v = value
  | OBJECT | ARRAY => (∃ s, value = Py.VStr s) ∨ v = value
  end.
Proof.
  unfold StateSlot.cast. intros Hcast Hvalue.
  destruct (StateSlot.type slot).
  - destruct value; congruence.
  - destruct value; congruence.
  - assert (∀ r : res F, Py.VFloat <$> r = Ok v → ∃ x, v = Py.VFloat x) as Hfloat.
    { intros [x|e] Hr; cbn in Hr; [|done]. exists x. congruence. }
    destruct value as [|b|n|x|s|l|d]; try done; try (right; by eapply Hfloat).
    destruct (Py.int s) as [n|]; [left; exists n; congruence|].
    right. by eapply Hfloat.
  - destruct value; try done; injection Hcast as <-; by eexists.
  - destruct value; try done; try (right; congruence). left. by eexists.
  - destruct value; try done; try (right; congruence). left. by eexists.
Qed.

Lemma split_no_sep sep s :
  Py.contains (String sep "") s = false → Py.split sep s = [s].
Proof.
  induction s as [|c s IH]; [done|].
  rewrite StringFacts.contains_char_cons. intros [Hc Hs]%orb_false_elim.
  apply bool_decide_eq_false in Hc.
  cbn [Py.split]. rewrite decide_False by done. by rewrite IH.
Qed.

Lemma get_nested_dotless (st : StateContainer.t F) (key : string)
    (default : Py.value F) :
  Py.contains "." key = false →
  StateContainer.get_nested st key default
  = match StateContainer.get st key Py.VNone with
    | Py.VNone => default
    | value => value
    end.
Proof.
  intros Hkey. unfold StateContainer.get_nested, StateContainer.get.
  rewrite split_no_sep by done. cbn [StateContainer.get_nested_loop].
  unfold Py.get_or_none.
  destruct (Py.dict_get key (StateContainer.values st)) as [v|]; [|done].
  by destruct v.
Qed.

(** X6: for a path without ".", [get_nested] is [get], except that a
    missing key and a stored [None] both give the default. *)
Theorem get_nested_single_key (st : StateContainer.t F) (key : string)
    (default : Py.value F) :
  Py.contains "." key = false →
  StateContainer.get_nested st key default
  = match StateContainer.get st key Py.VNone with
    | Py.VNone => default
    | value => value
    end.
Proof. apply get_nested_dotless. Qed.

(** X7: after [define], the values are as before and the slot of the name
    is the new one; [set] of the name then raises exactly when the cast of
    the new slot raises, and otherwise [get] gives the cast value. *)
Theorem define_then_set (st : StateContainer.t F) (name : string)
    (type : StateType) (description : option string) (value : Py.value F) :
  let st1 := (StateContainer.define st name type description).1 in
  StateContainer.values st1 = StateContainer.values st
  ∧ StateContainer.slots st1 !! name = Some (StateSlot.mk name type description)
  ∧ match StateSlot.cast (StateSlot.mk name type description) value with
    | Ok v =>
        ∃ st2, StateContainer.set st1 name value = Ok st2
               ∧ ∀ default, StateContainer.get st2 name default = v
    | Raise e => StateContainer.set st1 name value = Raise e
    end.
Proof.
  cbv zeta. unfold StateContainer.define, StateContainer.set. cbn.
  rewrite lookup_insert_eq. split; [done|]. split; [done|].
  destruct (StateSlot.cast _ value) as [v|e]; cbn; [|done].
  eexists. split; [done|]. intros default. unfold StateContainer.get. cbn.
  by rewrite dict_get_set.
Qed.

End StateFacts.
End StateFacts.

(** ** The template resolver *)

Module InterpolationFacts.
Import Spec StringFacts.
Section InterpolationFacts.
Context {F : Type} `{!Py.Builtins F}.

Lemma replace_ref_replacement (st : StateContainer.t F) g :
  Interpolation.replace_ref st g = Spec.replacement st (Py.strip g).
Proof.
  unfold Interpolation.replace_ref, Spec.replacement.
  by destruct (StateContainer.get_nested st (Py.strip g) Py.VNone).
Qed.

(** C5: [resolve_template] scans the template once from the left.  Where
    a reference [{{g}}] starts ([g] non-empty, without closing brace), it
    puts the replacement of the trimmed [g] (the empty string for a
    missing or [None] value, the JSON encoding of a mapping or list, the
    string form otherwise) and resumes after the reference, so the
    replacement is not scanned again; a character at which no reference
    starts is copied; a template without "{{" is returned unchanged. *)
Theorem resolve_template_single_pass (st : StateContainer.t F) :
  (∀ s g rest, Spec.starts_with_ref s g rest →
     Interpolation.resolve_template s st
     = Spec.replacement st (Py.strip g) +:+ Interpolation.resolve_template rest st)
  ∧ (∀ c s', (∀ g rest, ¬ Spec.starts_with_ref (String c s') g rest) →
     Interpolation.resolve_template (String c s') st
     = String c (Interpolation.resolve_template s' st))
  ∧ Interpolation.resolve_template "" st = ""
  ∧ (∀ s, Py.contains "{{" s = false → Interpolation.resolve_template s st = s).
Proof.
  unfold Interpolation.resolve_template. split_and!.
  - intros s g rest Href. apply scan_ref_spec in Href as Hscan.
    rewrite (sub_match _ _ s rest [g]).
    + by rewrite replace_ref_replacement.
    + by rewrite match_at_REF, Hscan.
    + by eapply scan_ref_shorter.
  - intros c s' Hno. apply sub_no_match. rewrite match_at_REF.
    destruct (scan_ref (String c s')) as [[g rest]|] eqn:Hscan; [|done].
    apply scan_ref_spec in Hscan. by destruct (Hno g rest).
  - done.
  - intros s. induction s as [|c s' IH]; [done|]. intros Hs.
    rewrite sub_no_match.
    + f_equal. apply IH. by eapply contains_open_cons.
    + rewrite match_at_REF. by rewrite contains_open_scan.
Qed.

Context {pydantic : Interpolation.Pydantic F}.

Lemma resolve_template_ref (st : StateContainer.t F) s g rest :
  Spec.starts_with_ref s g rest →
  Interpolation.resolve_template s st
  = Interpolation.replace_ref st g +:+ Interpolation.resolve_template rest st.
Proof.
  intros Href. apply scan_ref_spec in Href as Hscan.
  unfold Interpolation.resolve_template.
  rewrite (sub_match _ _ s rest [g]); [done| |].
  - by rewrite match_at_REF, Hscan.
  - by eapply scan_ref_shorter.
Qed.

Lemma contains_open_ref g rest : Py.contains "{{" ("{{" +:+ g +:+ rest) = true.
Proof.
  rewrite !app_cons. cbn [Py.contains String.prefix].
  destruct (ascii_dec "{" "{") as [_|Hne]; [|done].
  by destruct ("" +:+ g +:+ rest).
Qed.

(** X8: a template that is one reference to a key without "." resolves to
    [get_as_string] of the trimmed key. *)
Theorem single_reference_template (st : StateContainer.t F) (g : string) :
  g ≠ "" → Py.contains "}" g = false → Py.contains "." (Py.strip g) = false →
  Interpolation.resolve_template ("{{" +:+ g +:+ "}}") st
  = StateContainer.get_as_string st (Py.strip g).
Proof.
  intros Hg Hbrace Hdot.
  rewrite (resolve_template_ref st _ g "").
  2:{ split_and!; [done..|]. by rewrite app_nil_r. }
  change (Interpolation.resolve_template "" st) with "". rewrite app_nil_r.
  unfold Interpolation.replace_ref, StateContainer.get_as_string.
  rewrite StateFacts.get_nested_dotless by done.
  unfold StateContainer.get, Py.get_or_none.
  destruct (Py.dict_get (Py.strip g) (StateContainer.values st)) as [v|]; [|done].
  by destruct v.
Qed.

(** X9: a field whose value is one reference to a path that is missing or
    holds [None] resolves to the zero of its target type (the empty string,
    0, 0.0, [False], an empty dict or list); nothing is raised. *)
Theorem missing_reference_zero (st : StateContainer.t F) (g : string)
    (target_type : Interpolation.target) :
  g ≠ "" → Py.contains "}" g = false →
  StateContainer.get_nested st (Py.strip g) Py.VNone = Py.VNone →
  Interpolation.resolve_value (Interpolation.CStr ("{{" +:+ g +:+ "}}")) st target_type
  = Ok (Aux.zero_of target_type).
Proof.
  intros Hg Hbrace Hmissing. unfold Interpolation.resolve_value.
  rewrite contains_open_ref.
  rewrite (resolve_template_ref st _ g "").
  2:{ split_and!; [done..|]. by rewrite app_nil_r. }
  unfold Interpolation.replace_ref. rewrite Hmissing.
  change (Interpolation.resolve_template "" st) with "".
  by destruct target_type.
Qed.

Lemma finditer_go_none_sub_go r repl fuel s :
  Py.finditer_go fuel r s = [] → Py.sub_go fuel r repl s = s.
Proof.
  revert s. induction fuel as [|fuel IH]; intros s; [done|].
  cbn [Py.finditer_go Py.sub_go]. destruct s as [|c s']; [done|].
  destruct (Py.match_at r (String c s')) as [[rest caps]|].
  - destruct (String.length rest <? String.length (String c s'))%nat; [done|].
    intros Hnone. by rewrite IH.
  - intros Hnone. by rewrite IH.
Qed.

(** X10: a string in which [extract_refs] finds no reference is returned
    unchanged by [resolve_template]. *)
Theorem unreferenced_unchanged (st : StateContainer.t F) (field_name s : string) :
  Interpolation.refs_of_string field_name s = [] →
  Interpolation.resolve_template s st = s.
Proof.
  unfold Interpolation.refs_of_string, Interpolation.resolve_template.
  intros Hrefs%fmap_nil_inv. by apply finditer_go_none_sub_go.
Qed.

End InterpolationFacts.
End InterpolationFacts.

(** ** Join trackers *)

Module JoinFacts.
Import Aux.
Section JoinFacts.
Context {F : Type} {builtins : Py.Builtins F} {pydantic : Interpolation.Pydantic F}.

Lemma forallb_succeeded (tracker : JoinTracker.t F) :
  forallb JoinTracker.succeeded (JoinTracker.arrived_results tracker) = true
  ↔ ∀ source r, JoinTracker.arrivals tracker !! source = Some r →
                StepRunResult.status r = SUCCESS.
Proof.
  unfold JoinTracker.arrived_results. rewrite forallb_forall. split.
  - intros Hall source r Hr.
    assert (In r (map_to_list (JoinTracker.arrivals tracker)).*2) as Hin.
    { apply list_elem_of_In, list_elem_of_fmap. exists (source, r).
      split; [done|]. by apply elem_of_map_to_list. }
    apply Hall in Hin. unfold JoinTracker.succeeded in Hin.
    by apply bool_decide_eq_true in Hin.
  - intros Hall r Hin. apply list_elem_of_In, list_elem_of_fmap in Hin
      as ([source r'] & -> & Hin). apply elem_of_map_to_list in Hin.
    unfold JoinTracker.succeeded. apply bool_decide_eq_true. by eapply Hall.
Qed.

Lemma is_ready_all_success_eq (tracker : JoinTracker.t F) (incoming_edges : list Edge.t) :
  JoinTracker.is_ready tracker ALL_SUCCESS incoming_edges = true
  ↔ dom (JoinTracker.arrivals tracker)
      = (list_to_set (Edge.source_step_id <$> incoming_edges) : gset N)
    ∧ ∀ source r, JoinTracker.arrivals tracker !! source = Some r →
                  StepRunResult.status r = SUCCESS.
Proof.
  unfold JoinTracker.is_ready. case_bool_decide as Hne.
  - split; [done|]. intros [Heq _]. done.
  - rewrite forallb_succeeded. naive_solver.
Qed.

Lemma all_delivered (tracker : JoinTracker.t F) (incoming_edges : list Edge.t) :
  (∀ e, e ∈ incoming_edges →
        is_Some (JoinTracker.arrivals tracker !! Edge.source_step_id e))
  ↔ (list_to_set (Edge.source_step_id <$> incoming_edges) : gset N)
      ⊆ dom (JoinTracker.arrivals tracker).
Proof.
  split.
  - intros Hall source. rewrite elem_of_list_to_set, list_elem_of_fmap.
    intros (e & -> & He). apply elem_of_dom. by apply Hall.
  - intros Hall e He. apply elem_of_dom, Hall.
    rewrite elem_of_list_to_set, list_elem_of_fmap. by exists e.
Qed.

Lemma tracker_of_view (d : Runner.Driver F) step_id :
  (Runner.tracker_of d step_id).1 = tracker_view d step_id
  ∧ (∀ i, tracker_view (Runner.tracker_of d step_id).2 i = tracker_view d i)
  ∧ Runner.pending (Runner.tracker_of d step_id).2 = Runner.pending d.
Proof.
  unfold Runner.tracker_of, tracker_view.
  destruct (Runner.join_trackers d !! step_id) as [t|] eqn:Ht; simpl.
  - done.
  - split_and!; [done| |done]. intros i.
    destruct (decide (i = step_id)) as [->|Hne].
    + by rewrite lookup_insert_eq, Ht.
    + by rewrite lookup_insert_ne.
Qed.

Lemma select_one_spec flow (d : Runner.Driver F) acc step_id d' acc' :
  Runner.select_one flow (d, acc) step_id = (d', acc') →
  (∀ i, tracker_view d' i = tracker_view d i)
  ∧ Runner.pending d' ⊆ Runner.pending d
  ∧ (∀ i, i ∈ acc' → i ∈ acc ∨ (i = step_id ∧ launchable flow d step_id))
  ∧ (∀ i, i ∈ acc → i ∈ acc').
Proof.
  intros Hsel. replace d' with (Runner.select_one flow (d, acc) step_id).1
    by by rewrite Hsel.
  replace acc' with (Runner.select_one flow (d, acc) step_id).2
    by by rewrite Hsel.
  clear Hsel.
  unfold Runner.select_one, launchable.
  destruct (Flow.get_step flow step_id) as [step|] eqn:Hstep; simpl.
  2:{ split_and!; [done|set_solver|auto|auto]. }
  case_bool_decide as Hin; simpl.
  2:{ split_and!; [done|done| |set_solver].
      intros i [?|Hi%list_elem_of_singleton]%elem_of_app; [by left|subst i; right; split; [done|]; exists step; auto]. }
  case_bool_decide as Hmode; simpl.
  2:{ split_and!; [done|done| |set_solver].
      intros i [?|Hi%list_elem_of_singleton]%elem_of_app; [by left|subst i; right; split; [done|]; exists step; auto]. }
  destruct (tracker_of_view d step_id) as (Ht & Hview & Hp).
  destruct (Runner.tracker_of d step_id) as [tracker d2] eqn:Htr. simpl in *. subst tracker.
  destruct (JoinTracker.is_ready _ _ _) eqn:Hready; simpl.
  - split_and!; [done|by rewrite Hp| |set_solver].
    intros i [?|Hi%list_elem_of_singleton]%elem_of_app; [by left|subst i; right; split; [done|]; exists step; auto].
  - split_and!; [done|by rewrite Hp|auto|auto].
Qed.

Lemma select_fold_spec flow l (d : Runner.Driver F) acc d' acc' :
  foldl (Runner.select_one flow) (d, acc) l = (d', acc') →
  (∀ i, tracker_view d' i = tracker_view d i)
  ∧ Runner.pending d' ⊆ Runner.pending d
  ∧ (∀ i, i ∈ acc' → i ∈ acc ∨ (i ∈ l ∧ launchable flow d i)).
Proof.
  revert d acc. induction l as [|step_id l IH]; intros d acc; cbn [foldl].
  { intros [= <- <-]. split_and!; auto. }
  destruct (Runner.select_one flow (d, acc) step_id) as [d1 acc1] eqn:H1.
  destruct (select_one_spec _ _ _ _ _ _ H1) as (Hv & Hp & Hl & _).
  intros Hfold. destruct (IH _ _ Hfold) as (Hv' & Hp' & Hl').
  split_and!.
  - intros i. by rewrite Hv', Hv.
  - set_solver.
  - intros i Hi. destruct (Hl' i Hi) as [Hacc|[Hil Hlaunch]].
    + destruct (Hl i Hacc) as [?|[-> ?]]; [by left|]. right. split; [set_solver|done].
    + right. split; [set_solver|].
      destruct Hlaunch as (step & Hs & Hcase). exists step. split; [done|].
      by rewrite <-Hv.
Qed.

(** C2, as amended: [is_ready] with [ALL_SUCCESS] holds iff the sources
    with a recorded arrival are exactly the distinct sources of the
    incoming edges and every recorded result is a success.  For a tracker
    whose arrivals all come from sources of the incoming edges this is the
    condition of the specification: every distinct source has delivered
    and every recorded result is a success.  A step with incoming edges
    and join mode [ALL_SUCCESS] is put on [steps_to_launch] only when
    [is_ready] holds of its tracker, hence only when that condition
    holds; and for the trackers of a driver that satisfies [trackers_ok]
    (an invariant of the loop, see [TrackerFacts]) [is_ready] and that
    condition agree. *)
Theorem all_success_join (tracker : JoinTracker.t F) (incoming_edges : list Edge.t) :
  (JoinTracker.is_ready tracker ALL_SUCCESS incoming_edges = true
   ↔ dom (JoinTracker.arrivals tracker)
       = (list_to_set (Edge.source_step_id <$> incoming_edges) : gset N)
     ∧ ∀ source r, JoinTracker.arrivals tracker !! source = Some r →
                   StepRunResult.status r = SUCCESS)
  ∧ ((∀ source, is_Some (JoinTracker.arrivals tracker !! source) →
        ∃ e, e ∈ incoming_edges ∧ Edge.source_step_id e = source) →
     (JoinTracker.is_ready tracker ALL_SUCCESS incoming_edges = true
      ↔ Spec.all_success_ready tracker incoming_edges))
  ∧ (∀ env (flow : Flow.t F) (d : Runner.Driver F) step_id step,
       Flow.get_step flow step_id = Some step →
       Step.join_mode step = ALL_SUCCESS →
       Flow.get_edges_to flow step_id ≠ [] →
       step_id ∈ (Runner.select env flow d).2 →
       JoinTracker.is_ready (tracker_view d step_id) ALL_SUCCESS
         (Flow.get_edges_to flow step_id) = true
       ∧ Spec.all_success_ready (tracker_view d step_id)
           (Flow.get_edges_to flow step_id))
  ∧ (∀ (flow : Flow.t F) (d : Runner.Driver F) step_id,
       trackers_ok flow d →
       (JoinTracker.is_ready (tracker_view d step_id) ALL_SUCCESS
          (Flow.get_edges_to flow step_id) = true
        ↔ Spec.all_success_ready (tracker_view d step_id)
            (Flow.get_edges_to flow step_id))).
Proof.
  assert (∀ (tracker : JoinTracker.t F) (incoming_edges : list Edge.t),
    (∀ source, is_Some (JoinTracker.arrivals tracker !! source) →
       ∃ e, e ∈ incoming_edges ∧ Edge.source_step_id e = source) →
    (JoinTracker.is_ready tracker ALL_SUCCESS incoming_edges = true
     ↔ Spec.all_success_ready tracker incoming_edges)) as Hsame.
  { clear tracker incoming_edges. intros tracker incoming_edges Hsub.
    rewrite is_ready_all_success_eq. unfold Spec.all_success_ready.
    rewrite all_delivered. split.
    + intros [-> ?]. done.
    + intros [Hsup ?]. split; [|done]. apply set_eq. intros source. split.
      * intros (e & He & <-)%elem_of_dom%Hsub.
        rewrite elem_of_list_to_set, list_elem_of_fmap. by exists e.
      * apply Hsup. }
  split_and!; [| | |intros flow d step_id Hok; apply Hsame;
    intros source; unfold tracker_view;
    destruct (Runner.join_trackers d !! step_id) as [t|] eqn:Ht; cbn;
    [by apply Hok|rewrite lookup_empty; by intros [? ?]]].
  - apply is_ready_all_success_eq.
  - apply Hsame.
  - intros env flow d step_id step Hstep Hmode Hedges Hin.
    unfold Runner.select in Hin.
    destruct (foldl _ _ _) as [d' acc'] eqn:Hfold.
    destruct (select_fold_spec _ _ _ _ _ _ Hfold) as (_ & _ & Hl).
    destruct (Hl step_id Hin) as [Hnil|[_ (step' & Hstep' & Hcase)]].
    { by apply elem_of_nil in Hnil. }
    assert (step' = step) as -> by congruence.
    rewrite Hmode in Hcase. destruct Hcase as [?|[?|Hready]]; [done|done|].
    split; [done|].
    apply is_ready_all_success_eq in Hready as [Hdom Hall].
    split; [|done]. apply all_delivered. by rewrite Hdom.
Qed.

End JoinFacts.
End JoinFacts.

(** ** The driver *)

Module RunnerFacts.
Import Spec Aux.
Section RunnerFacts.
Context {F : Type} {builtins : Py.Builtins F} {pydantic : Interpolation.Pydantic F}.
Implicit Types (d : Runner.Driver F) (env : Runner.Env) (flow : Flow.t F).

Lemma extends_refl d : extends d d.
Proof. exists []. by rewrite !app_nil_r. Qed.

Lemma extends_trans d1 d2 d3 : extends d1 d2 → extends d2 d3 → extends d1 d3.
Proof.
  intros (ev1 & He1 & Hr1 & Hs1) (ev2 & He2 & Hr2 & Hs2). exists (ev1 ++ ev2).
  rewrite He2, He1, Hr2, Hr1, omap_app, !app_assoc. split_and!; try done.
  by apply Forall_app.
Qed.

Lemma extends_same d d' :
  Runner.emitted d' = Runner.emitted d → Runner.results d' = Runner.results d →
  extends d d'.
Proof. intros He Hr. exists []. by rewrite He, Hr, !app_nil_r. Qed.

Lemma tracker_of_fields d step_id :
  let d' := (Runner.tracker_of d step_id).2 in
  Runner.emitted d' = Runner.emitted d ∧ Runner.results d' = Runner.results d
  ∧ Runner.pending d' = Runner.pending d ∧ Runner.running d' = Runner.running d
  ∧ Runner.state d' = Runner.state d.
Proof.
  unfold Runner.tracker_of. by destruct (Runner.join_trackers d !! step_id).
Qed.

Lemma select_one_fields flow d acc step_id d' acc' :
  Runner.select_one flow (d, acc) step_id = (d', acc') →
  Runner.emitted d' = Runner.emitted d ∧ Runner.results d' = Runner.results d
  ∧ Runner.running d' = Runner.running d ∧ Runner.state d' = Runner.state d
  ∧ ((Runner.pending d' = Runner.pending d
      ∧ (acc' = acc ∨ acc' = acc ++ [step_id]))
     ∨ (Runner.pending d' = Runner.pending d ∖ {[step_id]} ∧ acc' = acc)).
Proof.
  unfold Runner.select_one.
  destruct (Flow.get_step flow step_id) as [step|].
  2:{ intros [= <- <-]. simpl. split_and!; try done. by right. }
  destruct (_ && _).
  2:{ intros [= <- <-]. split_and!; try done. left. auto. }
  pose proof (tracker_of_fields d step_id) as (?&?&Hp&?&?).
  destruct (Runner.tracker_of d step_id) as [tracker d1]. simpl in *.
  destruct (negb _); intros [= <- <-]; split_and!; try done; left; auto.
Qed.

Lemma select_fold_fields flow l d acc d' acc' :
  foldl (Runner.select_one flow) (d, acc) l = (d', acc') →
  NoDup (acc ++ l) → (∀ i, i ∈ acc ++ l → i ∈ Runner.pending d) →
  Runner.emitted d' = Runner.emitted d ∧ Runner.results d' = Runner.results d
  ∧ Runner.running d' = Runner.running d ∧ Runner.state d' = Runner.state d
  ∧ Runner.pending d' ⊆ Runner.pending d
  ∧ NoDup acc'
  ∧ (∀ i, i ∈ acc' → i ∈ Runner.pending d').
Proof.
  revert d acc. induction l as [|step_id l IH]; intros d acc; cbn [foldl].
  { intros [= <- <-]. rewrite app_nil_r. auto 10. }
  destruct (Runner.select_one flow (d, acc) step_id) as [d1 acc1] eqn:H1.
  destruct (select_one_fields _ _ _ _ _ _ H1) as (He & Hr & Hru & Hs & Hcase).
  intros Hfold Hnd Hin.
  assert (NoDup (acc1 ++ l) ∧ (∀ i, i ∈ acc1 ++ l → i ∈ Runner.pending d1)
          ∧ Runner.pending d1 ⊆ Runner.pending d) as (Hnd1 & Hin1 & Hsub).
  { destruct Hcase as [[Hp [->| ->]]|[Hp ->]].
    - split_and!; [|set_solver|set_solver].
      apply NoDup_app in Hnd as (? & Hdisj & [? ?]%NoDup_cons).
      apply NoDup_app. split_and!; [done| |done]. set_solver.
    - rewrite <-app_assoc. split_and!; [done|set_solver|set_solver].
    - apply NoDup_app in Hnd as (? & Hdisj & [? ?]%NoDup_cons).
      split_and!; [| |set_solver].
      + apply NoDup_app. split_and!; [done| |done]. set_solver.
      + intros i Hi. rewrite Hp. apply elem_of_difference. split; [set_solver|].
        apply elem_of_app in Hi as [Hi|Hi]; set_solver. }
  destruct (IH _ _ Hfold Hnd1 Hin1) as (He' & Hr' & Hru' & Hs' & Hp' & ? & ?).
  split_and!; try congruence; try done. set_solver.
Qed.

Lemma select_fold_same flow l d acc d' acc' :
  foldl (Runner.select_one flow) (d, acc) l = (d', acc') →
  Runner.emitted d' = Runner.emitted d ∧ Runner.results d' = Runner.results d
  ∧ Runner.running d' = Runner.running d ∧ Runner.state d' = Runner.state d
  ∧ Runner.awaits d' = Runner.awaits d
  ∧ Runner.pending d' ⊆ Runner.pending d.
Proof.
  revert d acc. induction l as [|step_id l IH]; intros d acc; cbn [foldl].
  { intros [= <- <-]. auto 10. }
  destruct (Runner.select_one flow (d, acc) step_id) as [d1 acc1] eqn:H1.
  intros Hfold. destruct (IH _ _ Hfold) as (He' & Hr' & Hru' & Hs' & Ha' & Hp').
  destruct (select_one_fields _ _ _ _ _ _ H1) as (He & Hr & Hru & Hs & Hcase).
  assert (Runner.awaits d1 = Runner.awaits d) as Ha.
  { clear -H1. unfold Runner.select_one in H1.
    destruct (Flow.get_step flow step_id) as [step|]; [|by injection H1 as <- <-].
    destruct (_ && _); [|by injection H1 as <- <-].
    unfold Runner.tracker_of in H1.
    destruct (Runner.join_trackers d !! step_id); destruct (negb _);
      by injection H1 as <- <-. }
  split_and!; try congruence.
  destruct Hcase as [[Hp _]|[Hp _]]; rewrite Hp in Hp'; clear -Hp'; set_solver.
Qed.

(** The selection touches neither the events nor the results, the tasks
    or the state, and adds nothing to [pending]. *)
Lemma select_same env flow d d' steps_to_launch :
  Runner.select env flow d = (d', steps_to_launch) →
  Runner.emitted d' = Runner.emitted d ∧ Runner.results d' = Runner.results d
  ∧ Runner.running d' = Runner.running d ∧ Runner.state d' = Runner.state d
  ∧ Runner.awaits d' = Runner.awaits d
  ∧ Runner.pending d' ⊆ Runner.pending d.
Proof. unfold Runner.select. apply select_fold_same. Qed.

(** When [list(pending)] lists the set, the steps selected are distinct
    and still pending. *)
Lemma select_fields env flow d d' steps_to_launch :
  ordered env →
  Runner.select env flow d = (d', steps_to_launch) →
  NoDup steps_to_launch
  ∧ (∀ i, i ∈ steps_to_launch → i ∈ Runner.pending d').
Proof.
  unfold Runner.select. intros Hord Hfold.
  specialize (Hord (Runner.awaits d) (Runner.pending d)).
  destruct (select_fold_fields _ _ _ _ _ _ Hfold) as (_ & _ & _ & _ & _ & ? & ?);
    [| |done].
  - cbn [app]. rewrite Hord. apply NoDup_elements.
  - intros i. cbn [app]. rewrite Hord. apply elem_of_elements.
Qed.

Lemma launch_one_fields env flow d step_id :
  let d' := Runner.launch_one env flow d step_id in
  Runner.pending d' = Runner.pending d ∖ {[step_id]}
  ∧ Runner.join_trackers d' = Runner.join_trackers d
  ∧ Runner.state d' = Runner.state d
  ∧ Runner.awaits d' = Runner.awaits d
  ∧ dom (Runner.running d') ⊆ dom (Runner.running d) ∪ {[step_id]}
  ∧ extends d d'.
Proof.
  unfold Runner.launch_one.
  destruct (Flow.get_step flow step_id) as [step|]; cbn.
  2:{ split_and!; try done; [set_solver|]. by apply extends_same. }
  destruct (Interpolation.resolve_config _ _) as [resolved_config|e]; cbn.
  - split_and!; try done.
    + rewrite dom_insert_L. set_solver.
    + eexists [_]. cbn. split_and!; [done|by rewrite app_nil_r|].
      by repeat constructor.
  - split_and!; try done; [set_solver|].
    eexists [_; _]. cbn. rewrite <-app_assoc. split_and!; [done|done|].
    by repeat constructor.
Qed.

Lemma launch_fields env flow steps_to_launch d :
  let d' := Runner.launch env flow d steps_to_launch in
  Runner.pending d' = Runner.pending d ∖ list_to_set steps_to_launch
  ∧ Runner.join_trackers d' = Runner.join_trackers d
  ∧ Runner.state d' = Runner.state d
  ∧ Runner.awaits d' = Runner.awaits d
  ∧ dom (Runner.running d') ⊆ dom (Runner.running d) ∪ list_to_set steps_to_launch
  ∧ extends d d'.
Proof.
  unfold Runner.launch. revert d.
  induction steps_to_launch as [|step_id l IH]; intros d; cbn [foldl].
  { split_and!; try done; [set_solver|set_solver|apply extends_refl]. }
  destruct (launch_one_fields env flow d step_id) as (Hp & Hj & Hs & Ha & Hr & He).
  destruct (IH (Runner.launch_one env flow d step_id))
    as (Hp' & Hj' & Hs' & Ha' & Hr' & He').
  cbv zeta in *. split_and!; try congruence.
  - rewrite Hp', Hp. clear. set_solver.
  - clear -Hr Hr'. cbn [list_to_set]. set_solver.
  - by eapply extends_trans.
Qed.

(** The identifiers reported by [wait] are distinct keys of [running]. *)
Lemma wait_spec env d :
  NoDup (Runner.wait env d)
  ∧ ∀ i, i ∈ Runner.wait env d → i ∈ dom (Runner.running d).
Proof.
  unfold Runner.wait. split.
  - apply NoDup_filter, NoDup_remove_dups.
  - intros i. rewrite list_elem_of_filter. tauto.
Qed.

Lemma complete_fold_spec (running : gmap N (Runner.Task F)) done st acc :
  (∀ i, i ∈ done → i ∈ dom running) →
  (foldl (Runner.complete_one running) (st, acc) done).2.*1 = acc.*1 ++ done.
Proof.
  revert st acc. induction done as [|i done IH]; intros st acc Hin; cbn [foldl].
  { by rewrite app_nil_r. }
  unfold Runner.complete_one at 2.
  assert (i ∈ dom running) as [task Htask]%elem_of_dom by (apply Hin; left).
  rewrite Htask. cbn.
  destruct (Runner.execute_step _ _ _) as [st' result].
  rewrite IH by (intros; apply Hin; by right).
  rewrite fmap_app. cbn. by rewrite <-app_assoc.
Qed.

Lemma complete_spec d done d' finished :
  Runner.complete d done = (d', finished) →
  (∀ i, i ∈ done → i ∈ dom (Runner.running d)) →
  finished.*1 = done
  ∧ Runner.pending d' = Runner.pending d
  ∧ Runner.running d' = Runner.running d
  ∧ Runner.join_trackers d' = Runner.join_trackers d
  ∧ Runner.emitted d' = Runner.emitted d
  ∧ Runner.results d' = Runner.results d.
Proof.
  unfold Runner.complete. intros Hc Hin.
  pose proof (complete_fold_spec (Runner.running d) done (Runner.state d) [] Hin) as Hids.
  destruct (foldl _ _ _) as [st' fin]. injection Hc as <- <-. done.
Qed.

Lemma read_clock_fields env d :
  let d' := (Runner.read_clock env d).2 in
  Runner.pending d' = Runner.pending d ∧ Runner.running d' = Runner.running d
  ∧ Runner.join_trackers d' = Runner.join_trackers d
  ∧ Runner.emitted d' = Runner.emitted d ∧ Runner.results d' = Runner.results d
  ∧ Runner.state d' = Runner.state d.
Proof. done. Qed.

Lemma route_edge_fields (result : StepRunResult.t F) d edge :
  let d' := Runner.route_edge result d edge in
  Runner.pending d' = Runner.pending d ∪ {[Edge.target_step_id edge]}
  ∧ Runner.running d' = Runner.running d
  ∧ Runner.emitted d' = Runner.emitted d ∧ Runner.results d' = Runner.results d
  ∧ Runner.state d' = Runner.state d.
Proof.
  unfold Runner.route_edge.
  pose proof (tracker_of_fields d (Edge.target_step_id edge)) as (?&?&?&?&?).
  destruct (Runner.tracker_of d _) as [tracker d1]. cbn in *.
  split_and!; congruence.
Qed.

Lemma route_edges_fields (result : StepRunResult.t F) edges d :
  let d' := foldl (Runner.route_edge result) d edges in
  Runner.pending d' = Runner.pending d ∪ list_to_set (Edge.target_step_id <$> edges)
  ∧ Runner.running d' = Runner.running d
  ∧ Runner.emitted d' = Runner.emitted d ∧ Runner.results d' = Runner.results d
  ∧ Runner.state d' = Runner.state d.
Proof.
  revert d. induction edges as [|edge edges IH]; intros d; cbn [foldl].
  { split_and!; try done. set_solver. }
  destruct (route_edge_fields result d edge) as (Hp & Hr & He & Hre & Hs).
  destruct (IH (Runner.route_edge result d edge)) as (Hp' & Hr' & He' & Hre' & Hs').
  cbv zeta in *. split_and!; try congruence.
  rewrite Hp', Hp. set_solver.
Qed.

Lemma get_edges_from_port flow step_id port e :
  e ∈ Flow.get_edges_from flow step_id (Some port) →
  e ∈ Flow.get_edges_from flow step_id None.
Proof. unfold Flow.get_edges_from. rewrite list_elem_of_filter. tauto. Qed.

Lemma route_fields flow step_id (result : StepRunResult.t F) d :
  let d' := Runner.route flow step_id result d in
  Runner.pending d ⊆ Runner.pending d'
  ∧ Runner.pending d' ⊆ Runner.pending d ∪ list_to_set (successors flow step_id)
  ∧ Runner.running d' = Runner.running d
  ∧ Runner.emitted d' = Runner.emitted d ∧ Runner.results d' = Runner.results d
  ∧ Runner.state d' = Runner.state d.
Proof.
  unfold Runner.route. generalize (StepRunResult.fired_ports result). intros ports.
  revert d. induction ports as [|port ports IH]; intros d; cbn [foldl].
  { split_and!; try done. set_solver. }
  destruct (route_edges_fields result (Flow.get_edges_from flow step_id (Some port)) d)
    as (Hp & Hr & He & Hre & Hs).
  destruct (IH (foldl (Runner.route_edge result) d
                 (Flow.get_edges_from flow step_id (Some port))))
    as (Hp1 & Hp2 & Hr' & He' & Hre' & Hs').
  cbv zeta in *. split_and!; try congruence.
  - rewrite Hp in Hp1. set_solver.
  - rewrite Hp in Hp2. intros i Hi. apply Hp2 in Hi.
    apply elem_of_union in Hi as [Hi|Hi]; [|set_solver].
    apply elem_of_union in Hi as [Hi|Hi]; [set_solver|].
    apply elem_of_union_r. unfold successors.
    apply elem_of_list_to_set, list_elem_of_fmap in Hi as (e & -> & He0).
    apply elem_of_list_to_set, list_elem_of_fmap. exists e. split; [done|].
    by eapply get_edges_from_port.
Qed.

Lemma process_one_spec env flow d step_id (result : StepRunResult.t F) :
  step_id ∈ dom (Runner.running d) →
  ∃ d', Runner.process_one env flow d (step_id, result) = Ok d'
    ∧ Runner.running d' = delete step_id (Runner.running d)
    ∧ Runner.pending d ⊆ Runner.pending d'
    ∧ Runner.pending d' ⊆ Runner.pending d ∪ list_to_set (successors flow step_id)
    ∧ Runner.state d' = Runner.state d
    ∧ Runner.results d' = Runner.results d ++ [result]
    ∧ extends d d'.
Proof.
  intros [task Htask]%elem_of_dom. unfold Runner.process_one, Runner.del_running.
  cbn. rewrite Htask. cbn.
  destruct (StepRunResult.continue_without_waiting result).
  - eexists. split; [done|]. cbn. split_and!; try done; [set_solver|].
    eexists [_]. cbn. split_and!; [done|done|]. by repeat constructor.
  - eexists. split; [done|].
    match goal with |- context [Runner.route flow step_id result ?d0] =>
      destruct (route_fields flow step_id result d0) as (Hp1 & Hp2 & Hr & He & Hre & Hs)
    end.
    cbv zeta in *. cbn in *. split_and!; try done.
    exists [Event.StepCompleted (Runner.run_id env) step_id result
              ((Runner.perf_counter env (S (Runner.clock_reads d))
                - default (Runner.perf_counter env (Runner.clock_reads d))
                    (Runner.step_start_times d !! step_id)) * 1000)
              (Some (StateContainer.values (Runner.state d)))].
    cbn. split_and!; [done|done|]. by repeat constructor.
Qed.

Lemma process_spec env flow finished d :
  NoDup finished.*1 →
  (∀ i, i ∈ finished.*1 → i ∈ dom (Runner.running d)) →
  ∃ d', Runner.process env flow d finished = Ok d'
    ∧ dom (Runner.running d') = dom (Runner.running d) ∖ list_to_set finished.*1
    ∧ Runner.state d' = Runner.state d
    ∧ extends d d'.
Proof.
  revert d. induction finished as [|[step_id result] finished IH]; intros d Hnd Hin.
  { eexists. split; [done|]. split_and!; [set_solver|done|apply extends_refl]. }
  cbn in Hnd. apply NoDup_cons in Hnd as [Hnotin Hnd].
  destruct (process_one_spec env flow d step_id result) as (d1 & H1 & Hr & _ & _ & Hs & _ & He).
  { apply Hin. left. }
  destruct (IH d1 Hnd) as (d' & H' & Hr' & Hs' & He').
  { intros i Hi. rewrite Hr, dom_delete_L. apply elem_of_difference. split.
    - apply Hin. by right.
    - intros ->%elem_of_singleton. done. }
  exists d'. cbn [Runner.process]. rewrite H1. cbn. split; [done|]. split_and!.
  - rewrite Hr', Hr, dom_delete_L. cbn. set_solver.
  - congruence.
  - by eapply extends_trans.
Qed.

Lemma wait_and_process_spec env flow d :
  ∃ d', Runner.wait_and_process env flow d = Ok d' ∧ extends d d'.
Proof.
  unfold Runner.wait_and_process.
  destruct (wait_spec env d) as [Hnd Hin].
  destruct (Runner.complete d (Runner.wait env d)) as [d1 finished] eqn:Hc.
  destruct (complete_spec _ _ _ _ Hc Hin) as (Hids & Hp & Hr & Hj & He & Hre).
  destruct (process_spec env flow finished d1) as (d' & H' & _ & _ & Hext).
  { by rewrite Hids. }
  { rewrite Hids, Hr. done. }
  exists d'. split; [done|].
  eapply extends_trans; [|done]. by apply extends_same.
Qed.

Lemma run_loop_spec fuel env flow d :
  ∃ r, Runner.run_loop fuel env flow d = Ok r
       ∧ ∀ d', r = Some d' → extends d d'.
Proof.
  revert d. induction fuel as [|fuel IH]; intros d; cbn [Runner.run_loop].
  - destruct (_ && _).
    { eexists. split; [done|]. intros ? [= <-]. apply extends_refl. }
    destruct (Runner.select env flow d) as [d1 steps_to_launch] eqn:Hsel.
    destruct (select_same _ _ _ _ _ Hsel) as (He & Hr & _).
    destruct (launch_fields env flow steps_to_launch d1) as (_ & _ & _ & _ & _ & Hext).
    case_bool_decide.
    + eexists. split; [done|]. intros ? [= <-].
      eapply extends_trans; [|done]. by apply extends_same.
    + eexists. split; [done|]. done.
  - destruct (_ && _).
    { eexists. split; [done|]. intros ? [= <-]. apply extends_refl. }
    destruct (Runner.select env flow d) as [d1 steps_to_launch] eqn:Hsel.
    destruct (select_same _ _ _ _ _ Hsel) as (He & Hr & _).
    destruct (launch_fields env flow steps_to_launch d1) as (_ & _ & _ & _ & _ & Hext).
    case_bool_decide.
    + eexists. split; [done|]. intros ? [= <-].
      eapply extends_trans; [|done]. by apply extends_same.
    + destruct (wait_and_process_spec env flow (Runner.launch env flow d1 steps_to_launch))
        as (d3 & H3 & Hext3).
      rewrite H3. cbn. destruct (IH d3) as (r & Hr' & Hext').
      exists r. split; [done|]. intros d' ->.
      eapply extends_trans; [by apply extends_same|].
      eapply extends_trans; [done|]. eapply extends_trans; [done|]. by apply Hext'.
Qed.

End RunnerFacts.
End RunnerFacts.

(** ** The trackers of the driver *)

Module TrackerFacts.
Import Spec Aux RunnerFacts.
Section TrackerFacts.
Context {F : Type} {builtins : Py.Builtins F} {pydantic : Interpolation.Pydantic F}.
Implicit Types (d : Runner.Driver F) (env : Runner.Env) (flow : Flow.t F).

Lemma trackers_ok_same flow d d' :
  Runner.join_trackers d' = Runner.join_trackers d →
  trackers_ok flow d → trackers_ok flow d'.
Proof. unfold trackers_ok. intros ->. done. Qed.

Lemma trackers_ok_tracker_of flow d step_id :
  trackers_ok flow d → trackers_ok flow (Runner.tracker_of d step_id).2.
Proof.
  unfold Runner.tracker_of.
  destruct (Runner.join_trackers d !! step_id) eqn:Ht; [done|].
  intros Hok i tracker source. cbn.
  intros [[<- <-]|[_ Hi]]%lookup_insert_Some.
  - cbn. rewrite lookup_empty. by intros [? ?].
  - by apply Hok.
Qed.

Lemma trackers_ok_select env flow d d' steps_to_launch :
  Runner.select env flow d = (d', steps_to_launch) →
  trackers_ok flow d → trackers_ok flow d'.
Proof.
  unfold Runner.select.
  generalize (Runner.pending_order env (Runner.awaits d) (Runner.pending d)) (@nil N).
  intros l. revert d. induction l as [|step_id l IH]; intros d acc; cbn [foldl].
  { by intros [= <- <-]. }
  destruct (Runner.select_one flow (d, acc) step_id) as [d1 acc1] eqn:H1.
  intros Hfold Hok. apply (IH _ _ Hfold). clear Hfold IH.
  unfold Runner.select_one in H1.
  destruct (Flow.get_step flow step_id) as [step|].
  2:{ injection H1 as <- <-. by eapply trackers_ok_same. }
  destruct (_ && _).
  2:{ by injection H1 as <- <-. }
  pose proof (trackers_ok_tracker_of flow d step_id Hok) as Hok'.
  destruct (Runner.tracker_of d step_id) as [tracker d2].
  destruct (negb _); by injection H1 as <- <-.
Qed.

Lemma trackers_ok_route_edge flow (result : StepRunResult.t F) d edge :
  edge ∈ Flow.edges flow →
  trackers_ok flow d → trackers_ok flow (Runner.route_edge result d edge).
Proof.
  intros Hedge Hok. unfold Runner.route_edge.
  pose proof (trackers_ok_tracker_of flow d (Edge.target_step_id edge) Hok) as Hok'.
  assert (∀ source,
    is_Some (JoinTracker.arrivals (Runner.tracker_of d (Edge.target_step_id edge)).1
               !! source) →
    ∃ e, e ∈ Flow.get_edges_to flow (Edge.target_step_id edge)
         ∧ Edge.source_step_id e = source) as Hview.
  { intros source. unfold Runner.tracker_of.
    destruct (Runner.join_trackers d !! Edge.target_step_id edge) as [t|] eqn:Ht; cbn.
    - by apply Hok.
    - rewrite lookup_empty. by intros [? ?]. }
  destruct (Runner.tracker_of d (Edge.target_step_id edge)) as [tracker d1].
  cbn in *. intros i t source. cbn.
  intros [[<- <-]|[_ Hi]]%lookup_insert_Some; [|by apply Hok'].
  cbn. intros [<-|[_ Hs]]%lookup_insert_is_Some.
  - exists edge. split; [|done]. unfold Flow.get_edges_to.
    by apply list_elem_of_filter.
  - by apply Hview.
Qed.

Lemma trackers_ok_route flow step_id (result : StepRunResult.t F) d :
  trackers_ok flow d → trackers_ok flow (Runner.route flow step_id result d).
Proof.
  unfold Runner.route. generalize (StepRunResult.fired_ports result).
  intros ports. revert d. induction ports as [|port ports IH]; intros d Hok;
    cbn [foldl]; [done|].
  apply IH.
  assert (∀ edges, (∀ e, e ∈ edges → e ∈ Flow.edges flow) →
            ∀ d, trackers_ok flow d →
                 trackers_ok flow (foldl (Runner.route_edge result) d edges)) as Hedges.
  { clear. intros edges. induction edges as [|e edges IH]; intros Hin d Hok;
      cbn [foldl]; [done|].
    apply IH; [intros; apply Hin; by right|].
    apply trackers_ok_route_edge; [apply Hin; left|done]. }
  apply Hedges; [|done].
  intros e He. unfold Flow.get_edges_from in He.
  apply list_elem_of_filter in He as [_ He].
  by apply list_elem_of_filter in He as [_ He].
Qed.

Lemma trackers_ok_process_one env flow d finished d' :
  Runner.process_one env flow d finished = Ok d' →
  trackers_ok flow d → trackers_ok flow d'.
Proof.
  destruct finished as [step_id result].
  unfold Runner.process_one, Runner.del_running. cbn.
  destruct (Runner.running d !! step_id); [|done]. cbn.
  destruct (StepRunResult.continue_without_waiting result); intros [= <-] Hok.
  - done.
  - by apply trackers_ok_route.
Qed.

Lemma trackers_ok_process env flow finished d d' :
  Runner.process env flow d finished = Ok d' →
  trackers_ok flow d → trackers_ok flow d'.
Proof.
  revert d. induction finished as [|task finished IH]; intros d; cbn [Runner.process].
  { by intros [= <-]. }
  destruct (Runner.process_one env flow d task) as [d1|] eqn:H1; [|done]. cbn.
  intros Hp Hok. apply (IH _ Hp). by eapply trackers_ok_process_one.
Qed.

Lemma trackers_ok_wait_and_process env flow d d' :
  Runner.wait_and_process env flow d = Ok d' →
  trackers_ok flow d → trackers_ok flow d'.
Proof.
  unfold Runner.wait_and_process, Runner.complete.
  destruct (foldl _ _ _) as [state' finished]. intros Hp Hok.
  by apply (trackers_ok_process _ _ _ _ _ Hp).
Qed.

Lemma trackers_ok_launch env flow steps_to_launch d :
  trackers_ok flow d → trackers_ok flow (Runner.launch env flow d steps_to_launch).
Proof.
  destruct (launch_fields env flow steps_to_launch d) as (_ & Hj & _).
  by apply trackers_ok_same.
Qed.

(** The arrivals recorded in the trackers of a run come from sources of the
    incoming edges: at the start, after every phase of an iteration, and at
    the end. *)
Lemma trackers_ok_run_loop fuel env flow d d' :
  Runner.run_loop fuel env flow d = Ok (Some d') →
  trackers_ok flow d → trackers_ok flow d'.
Proof.
  revert d. induction fuel as [|fuel IH]; intros d; cbn [Runner.run_loop].
  - destruct (_ && _); [by intros [= <-]|].
    destruct (Runner.select env flow d) as [d1 steps_to_launch] eqn:Hsel.
    case_bool_decide; [|done]. intros [= <-] Hok.
    apply trackers_ok_launch. by eapply trackers_ok_select.
  - destruct (_ && _); [by intros [= <-]|].
    destruct (Runner.select env flow d) as [d1 steps_to_launch] eqn:Hsel.
    case_bool_decide.
    + intros [= <-] Hok. apply trackers_ok_launch. by eapply trackers_ok_select.
    + destruct (Runner.wait_and_process _ _ _) as [d3|] eqn:H3; [|done]. cbn.
      intros Hloop Hok. apply (IH _ Hloop).
      apply (trackers_ok_wait_and_process _ _ _ _ H3).
      apply trackers_ok_launch. by eapply trackers_ok_select.
Qed.

Lemma trackers_ok_initial env flow trigger_step_id initial_state :
  trackers_ok flow (Runner.initial env flow trigger_step_id initial_state).
Proof. intros step_id tracker source. cbn. by rewrite lookup_empty. Qed.

End TrackerFacts.
End TrackerFacts.

Local Close Scope Z_scope.

(** ** Termination on acyclic flows *)

Module Termination.
Import Spec Aux RunnerFacts.
Section Termination.
Context {F : Type} {builtins : Py.Builtins F} {pydantic : Interpolation.Pydantic F}.
Implicit Types (d : Runner.Driver F) (env : Runner.Env) (flow : Flow.t F).

Section Weights.
Variable w : N → nat.

Lemma wsum_empty : wsum w ∅ = 0.
Proof. unfold wsum. by rewrite elements_empty. Qed.

Lemma wsum_singleton i : wsum w {[i]} = w i.
Proof. unfold wsum. rewrite elements_singleton. cbn. lia. Qed.

Lemma wsum_disj_union (X Y : gset N) :
  X ## Y → wsum w (X ∪ Y) = wsum w X + wsum w Y.
Proof.
  intros Hdisj. unfold wsum. rewrite elements_disj_union by done.
  apply sum_list_with_app.
Qed.

Lemma wsum_difference (X Y : gset N) :
  Y ⊆ X → wsum w (X ∖ Y) + wsum w Y = wsum w X.
Proof.
  intros Hsub.
  assert (wsum w X = wsum w (Y ∪ X ∖ Y)) as ->
    by (f_equal; by apply union_difference_L).
  rewrite wsum_disj_union by set_solver. lia.
Qed.

Lemma wsum_subseteq (X Y : gset N) : X ⊆ Y → wsum w X ≤ wsum w Y.
Proof. intros Hsub. rewrite <-(wsum_difference Y X) by done. lia. Qed.

Lemma wsum_union_le (X Y : gset N) : wsum w (X ∪ Y) ≤ wsum w X + wsum w Y.
Proof.
  replace (X ∪ Y) with (X ∪ Y ∖ X).
  - rewrite wsum_disj_union by set_solver.
    assert (Y ∖ X ⊆ Y) as Hs by set_solver. apply wsum_subseteq in Hs. lia.
  - apply set_eq. intros i. destruct (decide (i ∈ X)); set_solver.
Qed.

Lemma wsum_list_to_set (l : list N) :
  wsum w (list_to_set l) ≤ sum_list_with w l.
Proof.
  induction l as [|i l IH]; cbn.
  - by rewrite wsum_empty.
  - pose proof (wsum_union_le {[i]} (list_to_set l)) as Hle.
    rewrite wsum_singleton in Hle. lia.
Qed.

Lemma wsum_pos (X : gset N) : (∀ i, 1 ≤ w i) → X ≠ ∅ → 1 ≤ wsum w X.
Proof.
  intros Hpos [i Hi]%set_choose_L.
  assert ({[i]} ⊆ X) as Hle by set_solver. apply wsum_subseteq in Hle.
  rewrite wsum_singleton in Hle. specialize (Hpos i). lia.
Qed.

End Weights.

Section Acyclic.
Variables (flow : Flow.t F) (rank : N → nat).
Hypothesis rank_decreases : ∀ e, e ∈ Flow.edges flow →
  rank (Edge.target_step_id e) < rank (Edge.source_step_id e).

Lemma successors_rank step_id t :
  t ∈ successors flow step_id → rank t < rank step_id.
Proof.
  unfold successors, Flow.get_edges_from.
  intros (e & -> & [Hsrc He]%list_elem_of_filter)%list_elem_of_fmap.
  rewrite <-Hsrc. by apply rank_decreases.
Qed.

Lemma sum_list_with_ext (f g : N → nat) l :
  (∀ i, i ∈ l → f i = g i) → sum_list_with f l = sum_list_with g l.
Proof.
  induction l as [|i l IH]; intros Hfg; cbn; [done|].
  rewrite Hfg by left. rewrite IH; [done|]. intros; apply Hfg. by right.
Qed.

Lemma weight_stable n m step_id :
  rank step_id ≤ n → rank step_id ≤ m →
  weight flow n step_id = weight flow m step_id.
Proof.
  revert m step_id. induction n as [|n IH]; intros m step_id Hn Hm.
  - destruct m as [|m]; [done|]. cbn [weight].
    destruct (successors flow step_id) as [|t l] eqn:Hs; [done|].
    assert (rank t < rank step_id) by (apply successors_rank; rewrite Hs; left). lia.
  - destruct m as [|m]; cbn [weight].
    + destruct (successors flow step_id) as [|t l] eqn:Hs; [done|].
      assert (rank t < rank step_id) by (apply successors_rank; rewrite Hs; left). lia.
    + f_equal. apply sum_list_with_ext. intros t Ht.
      apply successors_rank in Ht. apply IH; lia.
Qed.

Local Abbreviation W := (Aux.W flow rank).

Lemma W_unfold step_id :
  W step_id = S (sum_list_with W (successors flow step_id)).
Proof.
  unfold Aux.W. rewrite (weight_stable (rank step_id) (S (rank step_id))) by lia.
  cbn. f_equal. apply sum_list_with_ext. intros t Ht.
  apply successors_rank in Ht. apply weight_stable; lia.
Qed.

Lemma W_pos step_id : 1 ≤ W step_id.
Proof. rewrite W_unfold. lia. Qed.

Lemma process_potential env finished d d' :
  NoDup finished.*1 →
  (∀ i, i ∈ finished.*1 → i ∈ dom (Runner.running d)) →
  Runner.process env flow d finished = Ok d' →
  potential W d' + length finished ≤ potential W d.
Proof.
  revert d. induction finished as [|[step_id result] finished IH]; intros d Hnd Hin.
  { intros [= <-]. cbn. lia. }
  cbn in Hnd. apply NoDup_cons in Hnd as [Hnotin Hnd].
  assert (step_id ∈ dom (Runner.running d)) as Hrun by (apply Hin; left).
  destruct (process_one_spec env flow d step_id result Hrun)
    as (d1 & H1 & Hr & _ & Hp & _ & _ & _).
  cbn [Runner.process]. rewrite H1. cbn. intros H'.
  assert (∀ i, i ∈ finished.*1 → i ∈ dom (Runner.running d1)) as Hin1.
  { intros i Hi. rewrite Hr, dom_delete_L. apply elem_of_difference. split.
    - apply Hin. by right.
    - intros ->%elem_of_singleton. done. }
  specialize (IH d1 Hnd Hin1 H').
  assert (potential W d1 + 1 ≤ potential W d); [|cbn; lia].
  unfold potential. rewrite Hr, dom_delete_L.
  pose proof (wsum_difference W (dom (Runner.running d)) {[step_id]}) as Hdiff.
  rewrite wsum_singleton in Hdiff.
  pose proof (wsum_subseteq W _ _ Hp) as Hle.
  pose proof (wsum_union_le W (Runner.pending d) (list_to_set (successors flow step_id))).
  pose proof (wsum_list_to_set W (successors flow step_id)).
  pose proof (W_unfold step_id).
  assert ({[step_id]} ⊆ dom (Runner.running d)) by set_solver.
  specialize (Hdiff ltac:(done)). lia.
Qed.

Lemma iteration_potential env d d1 steps_to_launch :
  ordered env →
  Runner.select env flow d = (d1, steps_to_launch) →
  potential W (Runner.launch env flow d1 steps_to_launch) ≤ potential W d.
Proof.
  intros Hord Hsel.
  destruct (select_same _ _ _ _ _ Hsel) as (_ & _ & Hr & _ & _ & Hp).
  destruct (select_fields _ _ _ _ _ Hord Hsel) as (Hnd & Hin).
  destruct (launch_fields env flow steps_to_launch d1) as (Hp' & _ & _ & _ & Hr' & _).
  cbv zeta in *. unfold potential. rewrite Hp'.
  assert (list_to_set steps_to_launch ⊆ Runner.pending d1) as Hsub.
  { intros i Hi. apply Hin. by apply elem_of_list_to_set in Hi. }
  pose proof (wsum_difference W _ _ Hsub).
  pose proof (wsum_subseteq W _ _ Hp).
  pose proof (wsum_subseteq W _ _ Hr').
  pose proof (wsum_union_le W (dom (Runner.running d1)) (list_to_set steps_to_launch)).
  rewrite Hr in *. lia.
Qed.

Lemma wait_nonempty env d :
  live env → Runner.running d ≠ ∅ → 1 ≤ length (Runner.wait env d).
Proof.
  intros Hlive Hrun.
  destruct (Hlive (Runner.awaits d) (dom (Runner.running d))) as (i & Hi & Hdom).
  { intros Hdom. apply Hrun. by apply dom_empty_iff_L. }
  assert (i ∈ Runner.wait env d) as Hw.
  { unfold Runner.wait. apply list_elem_of_filter. split; [done|].
    by apply elem_of_remove_dups. }
  destruct (Runner.wait env d); [by apply elem_of_nil in Hw|cbn; lia].
Qed.

Lemma wait_and_process_potential env d d' :
  live env → Runner.running d ≠ ∅ →
  Runner.wait_and_process env flow d = Ok d' →
  potential W d' + 1 ≤ potential W d.
Proof.
  intros Hlive Hrun. unfold Runner.wait_and_process.
  destruct (wait_spec env d) as [Hnd Hin].
  pose proof (wait_nonempty env d Hlive Hrun) as Hlen.
  destruct (Runner.complete d (Runner.wait env d)) as [d1 finished] eqn:Hc.
  destruct (complete_spec _ _ _ _ Hc Hin) as (Hids & Hp & Hr & _).
  intros H'. apply process_potential in H'.
  - assert (potential W d1 = potential W d) as <-.
    { unfold potential. by rewrite Hp, Hr. }
    assert (length finished = length (Runner.wait env d)) as Hl.
    { by rewrite <-Hids, length_fmap. }
    lia.
  - by rewrite Hids.
  - by rewrite Hids, Hr.
Qed.

Lemma run_loop_terminates env fuel d :
  ordered env → live env → potential W d ≤ fuel →
  ∃ d', Runner.run_loop fuel env flow d = Ok (Some d').
Proof.
  intros Hord Hlive. revert d. induction fuel as [|fuel IH]; intros d Hfuel;
    cbn [Runner.run_loop].
  - destruct (_ && _); [by eexists|].
    destruct (Runner.select env flow d) as [d1 steps_to_launch] eqn:Hsel.
    pose proof (iteration_potential env _ _ _ Hord Hsel) as Hle.
    case_bool_decide as Hrun; [by eexists|].
    assert (dom (Runner.running (Runner.launch env flow d1 steps_to_launch)) ≠ ∅) as Hdom.
    { intros Hdom. apply Hrun. by apply dom_empty_iff_L. }
    pose proof (wsum_pos W _ W_pos Hdom). unfold potential in *. lia.
  - destruct (_ && _); [by eexists|].
    destruct (Runner.select env flow d) as [d1 steps_to_launch] eqn:Hsel.
    pose proof (iteration_potential env _ _ _ Hord Hsel) as Hle.
    case_bool_decide as Hrun; [by eexists|].
    destruct (wait_and_process_spec env flow (Runner.launch env flow d1 steps_to_launch))
      as (d3 & H3 & _).
    rewrite H3. cbn.
    apply wait_and_process_potential in H3; [|done|done].
    apply IH. lia.
Qed.

End Acyclic.

End Termination.
End Termination.

(** ** The flow graph *)

Module FlowFacts.
Import Spec Aux.
Section FlowFacts.
Context {F : Type} {builtins : Py.Builtins F}.
Implicit Types (flow : Flow.t F).

Lemma unvisited_split flow (visited : gset N) (step_id : N) :
  step_id ∉ visited →
  length (filter (fun e => Edge.target_step_id e ∉ visited) (Flow.edges flow))
  = length (filter (fun e => Edge.target_step_id e ∉ visited ∪ {[step_id]})
              (Flow.edges flow))
    + length (Flow.get_edges_to flow step_id).
Proof.
  intros Hnew. unfold Flow.get_edges_to.
  induction (Flow.edges flow) as [|e edges IH]; [done|].
  rewrite !filter_cons.
  destruct (decide (Edge.target_step_id e = step_id)) as [Heq|Hne].
  - rewrite decide_True by (by rewrite Heq).
    rewrite decide_False by set_solver. cbn. lia.
  - destruct (decide (Edge.target_step_id e ∉ visited)).
    + rewrite decide_True by set_solver. cbn. lia.
    + rewrite decide_False by set_solver. cbn. lia.
Qed.

Lemma unvisited_mono flow (visited : gset N) (step_id : N) :
  length (filter (fun e => Edge.target_step_id e ∉ visited ∪ {[step_id]})
            (Flow.edges flow))
  ≤ length (filter (fun e => Edge.target_step_id e ∉ visited) (Flow.edges flow)).
Proof.
  induction (Flow.edges flow) as [|e edges IH]; [done|].
  rewrite !filter_cons.
  destruct (decide (Edge.target_step_id e ∉ visited ∪ {[step_id]})).
  - rewrite decide_True by set_solver. cbn. lia.
  - destruct (decide (Edge.target_step_id e ∉ visited)); cbn; lia.
Qed.

(** The loop of [steps_before] ends. *)
Lemma steps_before_loop_fuel flow fuel queue (visited : gset N) result :
  length queue
  + length (filter (fun e => Edge.target_step_id e ∉ visited) (Flow.edges flow))
  ≤ fuel →
  is_Some (Flow.steps_before_loop fuel flow queue visited result).
Proof.
  revert queue visited result.
  induction fuel as [|fuel IH]; intros queue visited result Hfuel.
  { destruct queue; [done|cbn in Hfuel; lia]. }
  destruct queue as [|step_id queue]; [done|]. cbn [Flow.steps_before_loop].
  cbn in Hfuel. case_bool_decide as Hvis.
  - apply IH. lia.
  - pose proof (unvisited_split flow visited step_id Hvis).
    pose proof (unvisited_mono flow visited step_id).
    destruct (Flow.get_step flow step_id).
    + apply IH. rewrite length_app, length_fmap. lia.
    + apply IH. lia.
Qed.

Lemma steps_before_Some flow step :
  Flow.steps_before_loop
    (length (Edge.source_step_id <$> Flow.get_edges_to flow (Step.id step))
     + length (Flow.edges flow)) flow
    (Edge.source_step_id <$> Flow.get_edges_to flow (Step.id step)) ∅ []
  = Some (Flow.steps_before flow step).
Proof.
  unfold Flow.steps_before.
  destruct (steps_before_loop_fuel flow
    (length (Edge.source_step_id <$> Flow.get_edges_to flow (Step.id step))
     + length (Flow.edges flow))
    (Edge.source_step_id <$> Flow.get_edges_to flow (Step.id step)) ∅ []) as [r ->];
    [|done].
  apply Nat.add_le_mono_l, length_filter.
Qed.

Lemma steps_before_loop_upstream flow target fuel queue visited result r :
  Flow.steps_before_loop fuel flow queue visited result = Some r →
  bfs_inv flow target queue visited result →
  ∀ u, u ∈ r ↔ ∃ s, upstream flow target s ∧ Flow.get_step flow s = Some u.
Proof.
  revert queue visited result.
  induction fuel as [|fuel IH]; intros queue visited result.
  - destruct queue as [|step_id queue]; [|done]. intros [= <-] (Ha & Hb & Hc & Hd) u.
    rewrite Hb. split.
    + intros (s & Hs & Hu). exists s. split; [apply Ha; by right|done].
    + intros (s & Hs & Hu). exists s. split; [|done].
      clear Hu. induction Hs as [e He Ht|s step e Hs IHs Hstep He Ht].
      * destruct (Hc e He Ht) as [Hq|Hv]; [by apply elem_of_nil in Hq|done].
      * destruct (Hd s step e IHs Hstep He Ht) as [Hq|Hv];
          [by apply elem_of_nil in Hq|done].
  - destruct queue as [|step_id queue].
    { intros [= <-] (Ha & Hb & Hc & Hd) u.
      rewrite Hb. split.
      + intros (s & Hs & Hu). exists s. split; [apply Ha; by right|done].
      + intros (s & Hs & Hu). exists s. split; [|done].
        clear Hu. induction Hs as [e He Ht|s step e Hs IHs Hstep He Ht].
        * destruct (Hc e He Ht) as [Hq|Hv]; [by apply elem_of_nil in Hq|done].
        * destruct (Hd s step e IHs Hstep He Ht) as [Hq|Hv];
            [by apply elem_of_nil in Hq|done]. }
    cbn [Flow.steps_before_loop]. case_bool_decide as Hvis.
    + intros Hloop (Ha & Hb & Hc & Hd). apply (IH _ _ _ Hloop).
      split_and!.
      * intros s [Hs|Hs]; apply Ha; [left; by right|by right].
      * done.
      * intros e He Ht. destruct (Hc e He Ht) as [Hq|Hv]; [|by right].
        apply elem_of_cons in Hq as [->|Hq]; [by right|by left].
      * intros s step e Hs Hstep He Ht.
        destruct (Hd s step e Hs Hstep He Ht) as [Hq|Hv]; [|by right].
        apply elem_of_cons in Hq as [->|Hq]; [by right|by left].
    + destruct (Flow.get_step flow step_id) as [ustep|] eqn:Hstep.
      * intros Hloop (Ha & Hb & Hc & Hd). apply (IH _ _ _ Hloop).
        assert (upstream flow target step_id) as Hup by (apply Ha; left; left).
        split_and!.
        -- intros s [Hs|Hs].
           ++ apply elem_of_app in Hs as [Hs|Hs]; [apply Ha; left; by right|].
              apply list_elem_of_fmap in Hs as (e & -> & He).
              unfold Flow.get_edges_to in He.
              apply list_elem_of_filter in He as [Ht He].
              by eapply upstream_step.
           ++ apply elem_of_union in Hs as [Hs|Hs%elem_of_singleton];
                [apply Ha; by right|by subst].
        -- intros u. rewrite elem_of_app, Hb, list_elem_of_singleton. split.
           ++ intros [(s & Hs & Hu)| ->].
              ** exists s. split; [set_solver|done].
              ** exists step_id. split; [set_solver|done].
           ++ intros (s & Hs & Hu).
              apply elem_of_union in Hs as [Hs|Hs%elem_of_singleton].
              ** left. by exists s.
              ** right. subst s. congruence.
        -- intros e He Ht. destruct (Hc e He Ht) as [Hq|Hv]; [|right; set_solver].
           apply elem_of_cons in Hq as [->|Hq]; [right; set_solver|].
           left. apply elem_of_app. by left.
        -- intros s step e Hs Hstep' He Ht.
           apply elem_of_union in Hs as [Hs|Hs%elem_of_singleton].
           ++ destruct (Hd s step e Hs Hstep' He Ht) as [Hq|Hv]; [|right; set_solver].
              apply elem_of_cons in Hq as [->|Hq]; [right; set_solver|].
              left. apply elem_of_app. by left.
           ++ subst s. left. apply elem_of_app. right.
              apply list_elem_of_fmap. exists e. split; [done|].
              unfold Flow.get_edges_to. by apply list_elem_of_filter.
      * intros Hloop (Ha & Hb & Hc & Hd). apply (IH _ _ _ Hloop).
        split_and!.
        -- intros s [Hs|Hs]; [apply Ha; left; by right|].
           apply elem_of_union in Hs as [Hs|Hs%elem_of_singleton];
             [apply Ha; by right|subst; apply Ha; left; left].
        -- intros u. rewrite Hb. split.
           ++ intros (s & Hs & Hu). exists s. split; [set_solver|done].
           ++ intros (s & Hs & Hu).
              apply elem_of_union in Hs as [Hs|Hs%elem_of_singleton];
                [by exists s|]. subst s. congruence.
        -- intros e He Ht. destruct (Hc e He Ht) as [Hq|Hv]; [|right; set_solver].
           apply elem_of_cons in Hq as [->|Hq]; [right; set_solver|by left].
        -- intros s step e Hs Hstep' He Ht.
           apply elem_of_union in Hs as [Hs|Hs%elem_of_singleton];
             [|subst s; congruence].
           destruct (Hd s step e Hs Hstep' He Ht) as [Hq|Hv]; [|right; set_solver].
           apply elem_of_cons in Hq as [->|Hq]; [right; set_solver|by left].
Qed.

(** [steps_before] lists the steps that lie upstream. *)
Lemma steps_before_upstream flow step u :
  u ∈ Flow.steps_before flow step
  ↔ ∃ s, upstream flow (Step.id step) s ∧ Flow.get_step flow s = Some u.
Proof.
  apply (steps_before_loop_upstream flow (Step.id step) _ _ _ _ _
           (steps_before_Some flow step)).
  split_and!.
  - intros s [Hs|Hs]; [|set_solver].
    apply list_elem_of_fmap in Hs as (e & -> & He).
    unfold Flow.get_edges_to in He. apply list_elem_of_filter in He as [Ht He].
    by apply upstream_edge.
  - intros u'. split; [by intros ?%elem_of_nil|]. intros (s & Hs & _). set_solver.
  - intros e He Ht. left. apply list_elem_of_fmap. exists e. split; [done|].
    unfold Flow.get_edges_to. by apply list_elem_of_filter.
  - intros s ? ? Hs. set_solver.
Qed.

Lemma step_index_fold (steps : list (Step.t F)) (index : gmap N (Step.t F)) i :
  foldl (fun index step => <[Step.id step := step]> index) index steps !! i
  = match last (filter (fun step => Step.id step = i) steps) with
    | Some step => Some step
    | None => index !! i
    end.
Proof.
  revert index. induction steps as [|step steps IH]; intros index; [done|].
  cbn [foldl]. rewrite IH, filter_cons.
  destruct (decide (Step.id step = i)) as [Heq|Hne].
  - destruct (filter _ steps) as [|step' l] eqn:Hl.
    + cbn. subst i. apply lookup_insert_eq.
    + rewrite last_cons_cons.
      destruct (last (step' :: l)) eqn:Hlast; [done|]. by apply last_None in Hlast.
  - destruct (last (filter _ steps)); [done|]. by rewrite lookup_insert_ne.
Qed.

(** [get_step] gives the last step of the list that carries the identifier. *)
Lemma get_step_last flow i :
  Flow.get_step flow i = last (filter (fun step => Step.id step = i) (Flow.steps flow)).
Proof.
  unfold Flow.get_step, Flow._step_index. rewrite step_index_fold.
  by destruct (last _).
Qed.

Lemma get_step_id flow i step :
  Flow.get_step flow i = Some step → Step.id step = i ∧ step ∈ Flow.steps flow.
Proof.
  rewrite get_step_last. intros Hlast%last_Some_elem_of.
  by apply list_elem_of_filter in Hlast.
Qed.

(** X11: after [add_step], [get_step] of the identifier of the new step
    gives the new step (also when an earlier step carries the same
    identifier) and every other identifier gives what it gave before; the
    step is added last and the edges are unchanged. *)
Theorem add_step_get_step flow (step : Step.t F) (i : N) :
  Flow.get_step (Flow.add_step flow step) i
  = (if decide (i = Step.id step) then Some step else Flow.get_step flow i)
  ∧ Flow.steps (Flow.add_step flow step) = Flow.steps flow ++ [step]
  ∧ Flow.edges (Flow.add_step flow step) = Flow.edges flow.
Proof.
  split_and!; [|done..].
  rewrite !get_step_last. cbn. rewrite filter_app, filter_cons, filter_nil.
  destruct (decide (Step.id step = i)) as [Heq|Hne].
  - rewrite decide_True by done. by rewrite last_snoc.
  - rewrite decide_False by done. by rewrite app_nil_r.
Qed.

(** X12: [add_edge] raises [ValueError] exactly when the source is no step
    of the flow, the port is none of the source, or the target is no step
    of the flow; otherwise it adds the edge last, leaves the steps
    unchanged, and the edge is among the edges from its source through its
    port and among the edges to its target. *)
Theorem add_edge_spec flow (edge_id source_id target_id : N)
    (source_port target_port : string) :
  match Flow.add_edge flow edge_id source_id target_id source_port target_port with
  | Ok (flow', edge) =>
      (∃ source_step, Flow.get_step flow source_id = Some source_step
                      ∧ source_port ∈ Step.ports source_step)
      ∧ is_Some (Flow.get_step flow target_id)
      ∧ edge = Edge.mk edge_id source_id source_port target_id target_port
      ∧ Flow.edges flow' = Flow.edges flow ++ [edge]
      ∧ Flow.steps flow' = Flow.steps flow
      ∧ (edge ∈ Flow.get_edges_from flow' source_id (Some source_port))
      ∧ (edge ∈ Flow.get_edges_to flow' target_id)
  | Raise e =>
      exn_type e = "ValueError"
      ∧ (Flow.get_step flow source_id = None
         ∨ (∃ source_step, Flow.get_step flow source_id = Some source_step
                           ∧ source_port ∉ Step.ports source_step)
         ∨ Flow.get_step flow target_id = None)
  end.
Proof.
  unfold Flow.add_edge.
  destruct (Flow.get_step flow source_id) as [source_step|] eqn:Hsource;
    [|split; [done|by left]].
  case_bool_decide as Hport; [split; [done|right; left; by eexists]|].
  destruct (Flow.get_step flow target_id) as [target_step|] eqn:Htarget;
    [|split; [done|by right; right]].
  split_and!; try done.
  - by eexists.
  - unfold Flow.get_edges_from. cbn.
    apply list_elem_of_filter. split; [done|].
    apply list_elem_of_filter. split; [done|].
    apply elem_of_app. right. apply list_elem_of_singleton. done.
  - unfold Flow.get_edges_to. cbn.
    apply list_elem_of_filter. split; [done|].
    apply elem_of_app. right. by apply list_elem_of_singleton.
Qed.

(** The loop of [steps_before] keeps the identifiers of its result distinct. *)
Lemma steps_before_loop_distinct flow fuel queue (visited : gset N) result r :
  Flow.steps_before_loop fuel flow queue visited result = Some r →
  NoDup (Step.id <$> result) →
  (∀ u, u ∈ result → Step.id u ∈ visited) →
  NoDup (Step.id <$> r).
Proof.
  revert queue visited result.
  induction fuel as [|fuel IH]; intros queue visited result Hloop Hnodup Hvis.
  { destruct queue; cbn in Hloop; congruence. }
  destruct queue as [|step_id queue]; cbn [Flow.steps_before_loop] in Hloop;
    [congruence|].
  case_bool_decide as Hin; [by eapply IH|].
  destruct (Flow.get_step flow step_id) as [ustep|] eqn:Hstep.
  - eapply IH; [done| |].
    + rewrite fmap_app. apply NoDup_app. split_and!; [done| |apply NoDup_singleton].
      intros i Hi Hi'. apply list_elem_of_singleton in Hi'. subst i.
      apply list_elem_of_fmap in Hi as (u & Hu & Hin').
      apply get_step_id in Hstep as [Hid _].
      apply Hvis in Hin'. congruence.
    + intros u [Hu|Hu%list_elem_of_singleton]%elem_of_app.
      * apply Hvis in Hu. set_solver.
      * subst u. apply get_step_id in Hstep as [-> _]. set_solver.
  - eapply IH; [done..|]. intros u Hu. apply Hvis in Hu. set_solver.
Qed.

(** X13: the steps that [steps_before] returns carry distinct identifiers,
    and each of them is the step of the flow that [get_step] gives for its
    identifier. *)
Theorem steps_before_distinct flow (step : Step.t F) :
  NoDup (Step.id <$> Flow.steps_before flow step)
  ∧ ∀ u, u ∈ Flow.steps_before flow step →
         Flow.get_step flow (Step.id u) = Some u ∧ u ∈ Flow.steps flow.
Proof.
  split.
  - eapply steps_before_loop_distinct.
    + apply steps_before_Some.
    + constructor.
    + by intros u Hu%elem_of_nil.
  - intros u (s & _ & Hs)%steps_before_upstream.
    apply get_step_id in Hs as Hid. destruct Hid as [<- Hin]. done.
Qed.

End FlowFacts.
End FlowFacts.

(** ** The validator *)

Module ValidatorFacts.
Import Spec Aux FlowFacts.
Section ValidatorFacts.
Context {F : Type} {builtins : Py.Builtins F} {pydantic : Interpolation.Pydantic F}.
Implicit Types (flow : Flow.t F) (step : Step.t F).

Lemma add_outputs_spec (keys : gset string) outputs k :
  k ∈ Validator.add_outputs keys outputs
  ↔ k ∈ keys ∨ ∃ o, o ∈ outputs ∧ Output.key o = k.
Proof.
  unfold Validator.add_outputs. revert keys.
  induction outputs as [|o outputs IH]; intros keys; cbn [foldl].
  - split; [by left|]. intros [?|(o & ?%elem_of_nil & _)]; done.
  - rewrite IH, elem_of_union, elem_of_singleton. split.
    + intros [[?| ->]|(o' & ? & ?)]; [by left| |].
      * right. exists o. split; [left|done].
      * right. exists o'. split; [by right|done].
    + intros [?|(o' & [->|?]%elem_of_cons & ?)]; [by left; left| |].
      * left. by right.
      * right. by exists o'.
Qed.

Lemma add_config_key_spec (keys : gset string) (config : Interpolation.model F) k :
  k ∈ Validator.add_config_key keys config ↔ k ∈ keys ∨ config_key config k.
Proof.
  unfold Validator.add_config_key, config_key.
  destruct (Py.dict_get "key" _) as [v|]; [|naive_solver].
  destruct v; try naive_solver.
  destruct s as [|c s]; cbn; [naive_solver|].
  rewrite elem_of_union, elem_of_singleton. naive_solver.
Qed.

Lemma available_fold (steps : list (Step.t F)) (keys : gset string) k :
  k ∈ foldl (fun keys upstream =>
               Validator.add_config_key
                 (Validator.add_outputs keys (Step.outputs upstream))
                 (Step.config upstream)) keys steps
  ↔ k ∈ keys
    ∨ ∃ upstream, upstream ∈ steps
        ∧ ((∃ o, o ∈ Step.outputs upstream ∧ Output.key o = k)
           ∨ config_key (Step.config upstream) k).
Proof.
  revert keys. induction steps as [|u steps IH]; intros keys; cbn [foldl].
  - split; [by left|]. intros [?|(u & ?%elem_of_nil & _)]; done.
  - rewrite IH, add_config_key_spec, add_outputs_spec. split.
    + intros [[[?|?]|?]|(u' & ? & ?)]; [by left| | |].
      * right. exists u. split; [left|by left].
      * right. exists u. split; [left|by right].
      * right. exists u'. split; [by right|done].
    + intros [?|(u' & [->|?]%elem_of_cons & [?|?])]; [by left; left; left| | | |].
      * left. left. by right.
      * left. by right.
      * right. exists u'. split; [done|by left].
      * right. exists u'. split; [done|by right].
Qed.

Lemma check_refs_fold step (available_keys : gset string) refs errors :
  foldl (Validator.check_ref step available_keys) errors refs
  = errors ++ (refs ≫= finding step available_keys).
Proof.
  revert errors. induction refs as [|[field_name ref] refs IH]; intros errors;
    cbn [foldl mbind list_bind].
  - by rewrite app_nil_r.
  - rewrite IH. unfold Validator.check_ref, finding. cbn.
    case_bool_decide; cbn; [by rewrite <-app_assoc|done].
Qed.

Lemma validate_flow_bind flow :
  Validator.validate_flow flow
  = Flow.steps flow ≫= fun step =>
      Interpolation.extract_refs (Step.config step)
        ≫= finding step (Validator.available_keys flow step).
Proof.
  unfold Validator.validate_flow.
  assert (∀ steps errors,
    foldl (fun errors step =>
             foldl (Validator.check_ref step (Validator.available_keys flow step))
               errors (Interpolation.extract_refs (Step.config step)))
          errors steps
    = errors ++ (steps ≫= fun step =>
        Interpolation.extract_refs (Step.config step)
          ≫= finding step (Validator.available_keys flow step))) as Hgen.
  { intros steps. induction steps as [|step steps IH]; intros errors;
      cbn [foldl mbind list_bind].
    - by rewrite app_nil_r.
    - rewrite IH, check_refs_fold. by rewrite <-app_assoc. }
  by rewrite Hgen.
Qed.

(** C8, as amended: the keys available before a step are the declared
    output keys of the steps before it together with the [key] of their
    configuration when it is a non-empty string (only set-state steps have
    one); the steps before it are the steps of the flow reached backwards
    along edges, whatever their ports, through steps of the flow; a
    trigger adds its own declared outputs; the findings of
    [validate_flow] are exactly one error for every reference of a step
    whose root segment is not among these keys. *)
Theorem available_keys_and_findings flow :
  (∀ step k,
     k ∈ Validator.get_available_keys_before flow step
     ↔ ∃ upstream, upstream ∈ Flow.steps_before flow step
         ∧ ((∃ o, o ∈ Step.outputs upstream ∧ Output.key o = k)
            ∨ (Py.dict_get "key" (Interpolation.model_fields (Step.config upstream))
               = Some (Interpolation.CStr k) ∧ k ≠ "")))
  ∧ (∀ step u,
       u ∈ Flow.steps_before flow step
       ↔ ∃ s, upstream flow (Step.id step) s ∧ Flow.get_step flow s = Some u)
  ∧ (∀ step k,
       k ∈ Validator.available_keys flow step
       ↔ k ∈ Validator.get_available_keys_before flow step
         ∨ (Step.is_trigger step = true
            ∧ ∃ o, o ∈ Step.outputs step ∧ Output.key o = k))
  ∧ (∀ f,
       f ∈ Validator.validate_flow flow
       ↔ ∃ step field_name ref,
           step ∈ Flow.steps flow
           ∧ (field_name, ref) ∈ Interpolation.extract_refs (Step.config step)
           ∧ (hd "" (Py.split "." ref) ∉ Validator.available_keys flow step)
           ∧ f = Validator.mkValidationError (Step.id step) field_name ref
                   ("'" +:+ ref +:+ "' not found. Available: "
                    +:+ Validator.show_keys (Validator.available_keys flow step))
                   "error").
Proof.
  split_and!.
  - intros step k. unfold Validator.get_available_keys_before.
    rewrite available_fold. split; [|by right].
    intros [?%elem_of_empty|?]; done.
  - apply steps_before_upstream.
  - intros step k. unfold Validator.available_keys.
    destruct (Step.is_trigger step).
    + rewrite add_outputs_spec. naive_solver.
    + naive_solver.
  - intros f. rewrite validate_flow_bind, list_elem_of_bind. split.
    + intros (step & Hf & Hstep). apply list_elem_of_bind in Hf as ([field_name ref] & Hf & Hr).
      unfold finding in Hf. cbn in Hf. case_bool_decide as Hroot; [|by apply elem_of_nil in Hf].
      apply list_elem_of_singleton in Hf. by exists step, field_name, ref.
    + intros (step & field_name & ref & Hstep & Hr & Hroot & ->).
      exists step. split; [|done]. apply list_elem_of_bind. exists (field_name, ref).
      split; [|done]. unfold finding. cbn. rewrite bool_decide_true by done. left.
Qed.

Lemma check_edge_app flow errors edge :
  Validator.check_edge flow errors edge
  = errors ++ Validator.check_edge flow [] edge.
Proof.
  unfold Validator.check_edge.
  destruct (Flow.get_step flow (Edge.source_step_id edge)); [|done].
  destruct (Flow.get_step flow (Edge.target_step_id edge)); [|done].
  case_bool_decide; [done|]. by rewrite app_nil_r.
Qed.

Lemma check_edges_fold flow edges errors :
  foldl (Validator.check_edge flow) errors edges
  = errors ++ (edges ≫= Validator.check_edge flow []).
Proof.
  revert errors. induction edges as [|edge edges IH]; intros errors; cbn.
  - by rewrite app_nil_r.
  - rewrite IH, (check_edge_app flow errors). by rewrite <- app_assoc.
Qed.

Lemma validate_edges_bind flow :
  Validator.validate_edges flow = Flow.edges flow ≫= Validator.check_edge flow [].
Proof. unfold Validator.validate_edges. by rewrite check_edges_fold. Qed.

Lemma check_edge_nil flow edge :
  Validator.check_edge flow [] edge = [] ↔ edge_ok flow edge.
Proof.
  unfold Validator.check_edge, edge_ok.
  destruct (Flow.get_step flow (Edge.source_step_id edge)) as [source_step|].
  - destruct (Flow.get_step flow (Edge.target_step_id edge)) as [target_step|].
    + case_bool_decide as Hport; split.
      * done.
      * intros (s & [= <-] & _ & Hin). done.
      * intros _. exists source_step. split_and!; [done|by eexists|done].
      * done.
    + split; [done|]. by intros (s & _ & [? [=]] & _).
  - split; [done|]. by intros (s & [=] & _).
Qed.

Lemma check_edge_shape flow edge :
  length (Validator.check_edge flow [] edge) ≤ 1
  ∧ Forall (fun f => Validator.level f = "error") (Validator.check_edge flow [] edge).
Proof.
  unfold Validator.check_edge.
  destruct (Flow.get_step flow (Edge.source_step_id edge)) as [source_step|];
    [|split; [done|by repeat constructor]].
  destruct (Flow.get_step flow (Edge.target_step_id edge)) as [target_step|];
    [|split; [done|by repeat constructor]].
  case_bool_decide; split; cbn; try lia; by repeat constructor.
Qed.

Lemma validate_edges_level flow :
  Forall (fun f => Validator.level f = "error") (Validator.validate_edges flow).
Proof.
  rewrite validate_edges_bind.
  induction (Flow.edges flow) as [|edge edges IH]; cbn; [done|].
  apply Forall_app. split; [apply check_edge_shape|done].
Qed.

(** X14: [validate_edges] reports nothing exactly when every edge has a
    source and a target among the steps of the flow and leaves its source
    through one of its ports; it reports one finding at most for an edge,
    and all its findings are errors. *)
Theorem validate_edges_spec flow :
  (Validator.validate_edges flow = []
   ↔ ∀ edge, edge ∈ Flow.edges flow →
       ∃ source_step,
         Flow.get_step flow (Edge.source_step_id edge) = Some source_step
         ∧ is_Some (Flow.get_step flow (Edge.target_step_id edge))
         ∧ Edge.source_port edge ∈ Step.ports source_step)
  ∧ length (Validator.validate_edges flow) ≤ length (Flow.edges flow)
  ∧ Forall (fun f => Validator.level f = "error") (Validator.validate_edges flow).
Proof.
  rewrite validate_edges_bind. split_and!.
  - induction (Flow.edges flow) as [|edge edges IH]; cbn.
    + split; [|done]. by intros _ edge Hin%elem_of_nil.
    + split.
      * intros [Hedge Hrest]%app_eq_nil e [->|Hin]%elem_of_cons.
        -- by apply check_edge_nil.
        -- by apply IH.
      * intros Hall. apply app_nil. split.
        -- apply check_edge_nil, Hall. left.
        -- apply IH. intros e Hin. apply Hall. by right.
  - induction (Flow.edges flow) as [|edge edges IH]; cbn; [done|].
    rewrite length_app. pose proof (check_edge_shape flow edge) as [Hlen _]. lia.
  - induction (Flow.edges flow) as [|edge edges IH]; cbn; [done|].
    apply Forall_app. split; [apply check_edge_shape|done].
Qed.

Lemma add_edge_get_step flow edge_id source_id target_id source_port target_port
    flow' edge :
  Flow.add_edge flow edge_id source_id target_id source_port target_port
  = Ok (flow', edge) →
  (∀ i, Flow.get_step flow' i = Flow.get_step flow i)
  ∧ Flow.edges flow' = Flow.edges flow ++ [edge]
  ∧ edge_ok flow edge.
Proof.
  unfold Flow.add_edge.
  destruct (Flow.get_step flow source_id) as [source_step|] eqn:Hsource; [|done].
  case_bool_decide as Hport; [done|].
  destruct (Flow.get_step flow target_id) as [target_step|] eqn:Htarget; [|done].
  intros [= <- <-]. split_and!; [done..|].
  exists source_step. cbn. split_and!; [done|by eexists|done].
Qed.

Lemma check_edge_ext flow flow' errors edge :
  (∀ i, Flow.get_step flow' i = Flow.get_step flow i) →
  Validator.check_edge flow' errors edge = Validator.check_edge flow errors edge.
Proof. intros Hsame. unfold Validator.check_edge. by rewrite !Hsame. Qed.

(** X15: an edge added by [add_edge] adds no finding: [validate_edges]
    reports for the new flow what it reported before. *)
Theorem add_edge_keeps_valid flow (edge_id source_id target_id : N)
    (source_port target_port : string) flow' edge :
  Flow.add_edge flow edge_id source_id target_id source_port target_port
  = Ok (flow', edge) →
  Validator.validate_edges flow' = Validator.validate_edges flow.
Proof.
  intros (Hsame & Hedges & Hok)%add_edge_get_step.
  rewrite !validate_edges_bind, Hedges, bind_app.
  assert (∀ edges : list Edge.t,
            edges ≫= Validator.check_edge flow' []
            = edges ≫= Validator.check_edge flow []) as Hext.
  { intros edges. induction edges as [|e edges IH]; [done|].
    change (Validator.check_edge flow' [] e ++ edges ≫= Validator.check_edge flow' []
            = Validator.check_edge flow [] e ++ edges ≫= Validator.check_edge flow []).
    by rewrite IH, (check_edge_ext flow flow'). }
  rewrite !Hext.
  change ([edge] ≫= Validator.check_edge flow [])
    with (Validator.check_edge flow [] edge ++ []).
  apply check_edge_nil in Hok as ->. by rewrite !app_nil_r.
Qed.

Lemma validate_flow_level flow :
  Forall (fun f => Validator.level f = "error") (Validator.validate_flow flow).
Proof.
  rewrite validate_flow_bind. apply Forall_forall.
  intros f (step & Hf & _)%list_elem_of_bind.
  apply list_elem_of_bind in Hf as (r & Hf & _).
  unfold finding in Hf. case_bool_decide; [|by apply elem_of_nil in Hf].
  apply list_elem_of_singleton in Hf. by subst f.
Qed.

Lemma filter_all {A} (P : A → Prop) `{!∀ x, Decision (P x)} (l : list A) :
  Forall P l → filter P l = l.
Proof.
  induction 1 as [|x l Hx Hl IH]; [done|].
  by rewrite filter_cons, decide_True, IH.
Qed.

Lemma filter_none {A} (P : A → Prop) `{!∀ x, Decision (P x)} (l : list A) :
  Forall (fun x => ¬ P x) l → filter P l = [].
Proof.
  induction 1 as [|x l Hx Hl IH]; [done|].
  by rewrite filter_cons, decide_False, IH.
Qed.

Lemma validate_triggers_level flow :
  Forall (fun f => Validator.level f = "warning") (Validator.validate_triggers flow).
Proof.
  unfold Validator.validate_triggers.
  destruct (Flow.get_trigger_steps flow); by repeat constructor.
Qed.

(** X16: the errors of [validate_all] are the findings of [validate_flow]
    followed by those of [validate_edges], its warnings are those of
    [validate_triggers]; [validate_triggers] reports nothing exactly when
    some step is a trigger, and its finding carries the identifier of the
    first step, or 0 for a flow without steps. *)
Theorem validate_all_levels flow :
  filter (fun f => Validator.level f = "error") (Validator.validate_all flow)
  = Validator.validate_flow flow ++ Validator.validate_edges flow
  ∧ filter (fun f => Validator.level f = "warning") (Validator.validate_all flow)
    = Validator.validate_triggers flow
  ∧ (Validator.validate_triggers flow = []
     ↔ ∃ step, step ∈ Flow.steps flow ∧ Step.is_trigger step = true)
  ∧ (∀ f, f ∈ Validator.validate_triggers flow →
          Validator.step_id f = from_option Step.id 0%N (head (Flow.steps flow))).
Proof.
  pose proof (validate_flow_level flow) as Hflow.
  pose proof (validate_edges_level flow) as Hedges.
  pose proof (validate_triggers_level flow) as Htriggers.
  unfold Validator.validate_all. split_and!.
  - rewrite !filter_app, !filter_all by done.
    rewrite filter_none; [by rewrite app_nil_r|].
    eapply Forall_impl; [done|]. intros f ->. done.
  - rewrite !filter_app.
    rewrite (filter_none _ (Validator.validate_flow flow)),
            (filter_none _ (Validator.validate_edges flow)), filter_all; [done..| |].
    + eapply Forall_impl; [exact Hedges|]. intros f ->. done.
    + eapply Forall_impl; [exact Hflow|]. intros f ->. done.
  - unfold Validator.validate_triggers, Flow.get_trigger_steps.
    destruct (filter _ (Flow.steps flow)) as [|step l] eqn:Hl.
    + split; [done|]. intros (step & Hin & Htrigger).
      assert (step ∈ filter (fun step => Step.is_trigger step = true) (Flow.steps flow))
        as Hf by (by apply list_elem_of_filter).
      rewrite Hl in Hf. by apply elem_of_nil in Hf.
    + split; [|done]. intros _. exists step.
      assert (step ∈ filter (fun step => Step.is_trigger step = true) (Flow.steps flow))
        as Hf by (rewrite Hl; left).
      apply list_elem_of_filter in Hf as [Htrigger Hin]. done.
  - unfold Validator.validate_triggers. intros f.
    destruct (Flow.get_trigger_steps flow); [|by intros ?%elem_of_nil].
    intros ->%list_elem_of_singleton. cbn. by destruct (Flow.steps flow).
Qed.

End ValidatorFacts.
End ValidatorFacts.

(** ** The join modes *)

Module ModeFacts.
Import Spec Aux JoinFacts RunnerFacts.
Section ModeFacts.
Context {F : Type} {builtins : Py.Builtins F} {pydantic : Interpolation.Pydantic F}.
Implicit Types (d : Runner.Driver F) (env : Runner.Env) (flow : Flow.t F).

Lemma existsb_succeeded (tracker : JoinTracker.t F) :
  existsb JoinTracker.succeeded (JoinTracker.arrived_results tracker) = true
  ↔ ∃ source r, JoinTracker.arrivals tracker !! source = Some r
                ∧ StepRunResult.status r = SUCCESS.
Proof.
  unfold JoinTracker.arrived_results. rewrite existsb_exists. split.
  - intros (r & Hin & Hr).
    apply list_elem_of_In, list_elem_of_fmap in Hin as ([source r'] & -> & Hin).
    apply elem_of_map_to_list in Hin. exists source, r'. split; [done|].
    by apply bool_decide_eq_true in Hr.
  - intros (source & r & Hin & Hr). exists r. split.
    + apply list_elem_of_In, list_elem_of_fmap. exists (source, r).
      split; [done|]. by apply elem_of_map_to_list.
    + by apply bool_decide_eq_true.
Qed.

Lemma empty_tracker_not_ready (join_mode : JoinMode) (incoming_edges : list Edge.t) :
  incoming_edges ≠ [] →
  JoinTracker.is_ready (JoinTracker.empty (F:=F)) join_mode incoming_edges = false.
Proof.
  intros Hne.
  assert ((∅ : gset N) ≠ list_to_set (Edge.source_step_id <$> incoming_edges)) as Hsets.
  { destruct incoming_edges as [|e l]; [done|]. cbn. set_solver. }
  unfold JoinTracker.is_ready. cbn. rewrite dom_empty_L.
  destruct join_mode.
  - done.
  - by rewrite bool_decide_true.
  - by rewrite bool_decide_false.
  - done.
Qed.

(** X17: [is_ready] with [NO_WAIT] holds when some arrival is recorded, with
    [ALL_DONE] when the sources recorded are the sources of the incoming
    edges, with [FIRST_SUCCESS] when some recorded result is a success;
    readiness for [ALL_SUCCESS] gives readiness for [ALL_DONE] and, when
    there are incoming edges, for [FIRST_SUCCESS]; a tracker without
    arrivals is ready in no mode when there are incoming edges. *)
Theorem is_ready_modes (tracker : JoinTracker.t F) (incoming_edges : list Edge.t) :
  (JoinTracker.is_ready tracker NO_WAIT incoming_edges = true
   ↔ JoinTracker.arrivals tracker ≠ ∅)
  ∧ (JoinTracker.is_ready tracker ALL_DONE incoming_edges = true
     ↔ dom (JoinTracker.arrivals tracker)
       = (list_to_set (Edge.source_step_id <$> incoming_edges) : gset N))
  ∧ (JoinTracker.is_ready tracker FIRST_SUCCESS incoming_edges = true
     ↔ ∃ source r, JoinTracker.arrivals tracker !! source = Some r
                   ∧ StepRunResult.status r = SUCCESS)
  ∧ (JoinTracker.is_ready tracker ALL_SUCCESS incoming_edges = true →
     JoinTracker.is_ready tracker ALL_DONE incoming_edges = true)
  ∧ (incoming_edges ≠ [] →
     JoinTracker.is_ready tracker ALL_SUCCESS incoming_edges = true →
     JoinTracker.is_ready tracker FIRST_SUCCESS incoming_edges = true)
  ∧ (incoming_edges ≠ [] →
     ∀ join_mode,
       JoinTracker.is_ready (JoinTracker.empty (F:=F)) join_mode incoming_edges
       = false).
Proof.
  assert (JoinTracker.is_ready tracker FIRST_SUCCESS incoming_edges = true
     ↔ ∃ source r, JoinTracker.arrivals tracker !! source = Some r
                   ∧ StepRunResult.status r = SUCCESS) as Hfirst
    by apply existsb_succeeded.
  split_and!.
  - unfold JoinTracker.is_ready. rewrite bool_decide_eq_true.
    rewrite <- map_size_non_empty_iff. lia.
  - unfold JoinTracker.is_ready. by rewrite bool_decide_eq_true.
  - done.
  - intros [Hdom _]%is_ready_all_success_eq.
    unfold JoinTracker.is_ready. by rewrite bool_decide_eq_true.
  - intros Hne [Hdom Hall]%is_ready_all_success_eq. apply Hfirst.
    destruct incoming_edges as [|e l]; [done|].
    assert (Edge.source_step_id e ∈ dom (JoinTracker.arrivals tracker)) as Hin.
    { rewrite Hdom. cbn. set_solver. }
    apply elem_of_dom in Hin as [r Hr]. exists (Edge.source_step_id e), r.
    split; [done|]. by eapply Hall.
  - intros Hne join_mode. by apply empty_tracker_not_ready.
Qed.

(** X18: a run whose trigger step has an incoming edge and a join mode other
    than [NO_WAIT] starts no step: its events are [FlowStarted] and
    [FlowCompleted] with status succeeded, and the trigger stays pending. *)
Theorem joined_trigger_never_runs fuel env flow (trigger_step_id : N)
    (initial_state : option (StateContainer.t F)) step :
  ordered env →
  Flow.get_step flow trigger_step_id = Some step →
  Step.join_mode step ≠ NO_WAIT →
  Flow.get_edges_to flow trigger_step_id ≠ [] →
  ∃ d, Runner.run_flow fuel env flow trigger_step_id initial_state = Ok (Some d)
    ∧ Runner.emitted d
      = [Event.FlowStarted (Runner.run_id env) (Flow.name flow);
         Event.FlowCompleted (Runner.run_id env) "succeeded"]
    ∧ Runner.results d = []
    ∧ Runner.pending d = {[trigger_step_id]}.
Proof.
  intros Hord Hstep Hmode Hedges. unfold Runner.run_flow.
  set (d0 := Runner.initial env flow trigger_step_id initial_state).
  assert (Runner.run_loop fuel env flow d0
          = Ok (Some (Runner.with_join_trackers
                        (<[trigger_step_id := JoinTracker.empty]> ∅) d0))) as ->.
  { assert (Runner.select env flow d0
            = (Runner.with_join_trackers
                 (<[trigger_step_id := JoinTracker.empty]> ∅) d0, [])) as Hsel.
    { unfold Runner.select, d0. cbn [Runner.initial Runner.pending Runner.awaits].
      specialize (Hord 0 {[trigger_step_id]}). rewrite elements_singleton in Hord.
      apply Permutation_singleton_r in Hord as ->.
      cbn [foldl]. unfold Runner.select_one. rewrite Hstep.
      rewrite !bool_decide_true by done. cbn [andb].
      unfold Runner.tracker_of. cbn [Runner.join_trackers Runner.initial].
      rewrite lookup_empty.
      by rewrite empty_tracker_not_ready. }
    destruct fuel; cbn [Runner.run_loop]; rewrite Hsel; unfold d0;
      cbn [Runner.initial Runner.pending Runner.running];
      rewrite bool_decide_false by (apply non_empty_singleton_L); cbn;
      by rewrite bool_decide_true. }
  eexists. split; [done|]. done.
Qed.

End ModeFacts.
End ModeFacts.

(** ** Routing *)

Module RouteFacts.
Import Spec Aux JoinFacts RunnerFacts.
Section RouteFacts.
Context {F : Type} {builtins : Py.Builtins F} {pydantic : Interpolation.Pydantic F}.
Implicit Types (d : Runner.Driver F) (env : Runner.Env) (flow : Flow.t F).

(** The edges that [route] goes through, in order. *)
Lemma route_flat flow step_id (result : StepRunResult.t F) d :
  Runner.route flow step_id result d
  = foldl (Runner.route_edge result) d
      (StepRunResult.fired_ports result
         ≫= fun port => Flow.get_edges_from flow step_id (Some port)).
Proof.
  unfold Runner.route. generalize (StepRunResult.fired_ports result).
  intros ports. revert d. induction ports as [|port ports IH]; intros d; [done|].
  cbn [foldl]. rewrite IH.
  change ((port :: ports) ≫= fun port => Flow.get_edges_from flow step_id (Some port))
    with (Flow.get_edges_from flow step_id (Some port)
          ++ (ports ≫= fun port => Flow.get_edges_from flow step_id (Some port))).
  by rewrite foldl_app.
Qed.

Lemma routed_edges flow step_id (ports : list string) e :
  e ∈ ports ≫= (fun port => Flow.get_edges_from flow step_id (Some port))
  ↔ e ∈ Flow.edges flow ∧ Edge.source_step_id e = step_id
    ∧ Edge.source_port e ∈ ports.
Proof.
  rewrite list_elem_of_bind. unfold Flow.get_edges_from. split.
  - intros (port & He & Hport). apply list_elem_of_filter in He as [<- He].
    apply list_elem_of_filter in He as [<- He]. done.
  - intros (He & Hsrc & Hport). exists (Edge.source_port e). split; [|done].
    apply list_elem_of_filter. split; [done|]. by apply list_elem_of_filter.
Qed.

Lemma route_edge_trackers (result : StepRunResult.t F) d edge :
  Runner.join_trackers (Runner.route_edge result d edge)
  = <[Edge.target_step_id edge :=
        JoinTracker.record (tracker_view d (Edge.target_step_id edge)) result edge]>
      (Runner.join_trackers d).
Proof.
  unfold Runner.route_edge, Runner.tracker_of, tracker_view.
  destruct (Runner.join_trackers d !! Edge.target_step_id edge); cbn; [done|].
  by rewrite insert_insert_eq.
Qed.

Lemma route_edges_trackers (result : StepRunResult.t F) step_id edges d :
  (∀ e, e ∈ edges → Edge.source_step_id e = step_id) →
  let d' := foldl (Runner.route_edge result) d edges in
  (∀ e, e ∈ edges →
     JoinTracker.arrivals (tracker_view d' (Edge.target_step_id e)) !! step_id
     = Some result)
  ∧ (∀ t, JoinTracker.arrivals (tracker_view d t) !! step_id = Some result →
          JoinTracker.arrivals (tracker_view d' t) !! step_id = Some result)
  ∧ (∀ t, t ∉ Edge.target_step_id <$> edges →
          Runner.join_trackers d' !! t = Runner.join_trackers d !! t)
  ∧ (∀ t source, source ≠ step_id →
          JoinTracker.arrivals (tracker_view d' t) !! source
          = JoinTracker.arrivals (tracker_view d t) !! source).
Proof.
  revert d. induction edges as [|edge edges IH]; intros d Hsrc; cbn [foldl].
  { cbv zeta. split_and!; [by intros e ?%elem_of_nil|done..]. }
  destruct (IH (Runner.route_edge result d edge)) as (H1 & H2 & H3 & H4).
  { intros; apply Hsrc; by right. }
  cbv zeta in *.
  assert (∀ t, tracker_view (Runner.route_edge result d edge) t
               = if decide (t = Edge.target_step_id edge)
                 then JoinTracker.record (tracker_view d t) result edge
                 else tracker_view d t) as Hview.
  { intros t. unfold tracker_view at 1. rewrite route_edge_trackers.
    destruct (decide (t = Edge.target_step_id edge)) as [->|Hne].
    - by rewrite lookup_insert_eq.
    - by rewrite lookup_insert_ne. }
  assert (Edge.source_step_id edge = step_id) as Hedge by (apply Hsrc; left).
  split_and!.
  - intros e [->|He]%elem_of_cons; [|by apply H1].
    apply H2. rewrite Hview, decide_True by done. cbn.
    rewrite Hedge. apply lookup_insert_eq.
  - intros t Ht. apply H2. rewrite Hview. destruct (decide _); [|done].
    cbn. rewrite Hedge. apply lookup_insert_eq.
  - intros t Ht. rewrite fmap_cons, not_elem_of_cons in Ht. destruct Ht as [Hne Ht].
    rewrite H3 by done. rewrite route_edge_trackers. by rewrite lookup_insert_ne.
  - intros t source Hne. rewrite H4 by done. rewrite Hview.
    destruct (decide _); [|done]. cbn. rewrite lookup_insert_ne; [done|congruence].
Qed.

Lemma process_one_routes env flow d step_id (result : StepRunResult.t F) :
  step_id ∈ dom (Runner.running d) →
  StepRunResult.continue_without_waiting result = false →
  ∃ d', Runner.process_one env flow d (step_id, result) = Ok d'
    ∧ (∀ t, t ∈ Runner.pending d'
            ↔ t ∈ Runner.pending d
              ∨ ∃ e, e ∈ Flow.edges flow ∧ Edge.source_step_id e = step_id
                     ∧ Edge.source_port e ∈ StepRunResult.fired_ports result
                     ∧ Edge.target_step_id e = t)
    ∧ (∀ e, e ∈ Flow.edges flow → Edge.source_step_id e = step_id →
            Edge.source_port e ∈ StepRunResult.fired_ports result →
            ∃ tracker,
              Runner.join_trackers d' !! Edge.target_step_id e = Some tracker
              ∧ JoinTracker.arrivals tracker !! step_id = Some result)
    ∧ (∀ t, (∀ e, e ∈ Flow.edges flow → Edge.source_step_id e = step_id →
                  Edge.source_port e ∈ StepRunResult.fired_ports result →
                  Edge.target_step_id e ≠ t) →
            Runner.join_trackers d' !! t = Runner.join_trackers d !! t).
Proof.
  intros [task Htask]%elem_of_dom Hwait.
  unfold Runner.process_one, Runner.del_running. cbn. rewrite Htask, Hwait. cbn.
  eexists. split; [done|]. rewrite route_flat.
  match goal with |- context [foldl (Runner.route_edge result) ?d0 ?edges] =>
    destruct (route_edges_fields result edges d0) as (Hp & _);
    destruct (route_edges_trackers result step_id edges d0) as (H1 & _ & H3 & _);
      [by intros e (_ & ? & _)%routed_edges|];
    set (dr := foldl (Runner.route_edge result) d0 edges) in *
  end.
  cbv zeta in *. cbn in Hp, H3. split_and!.
  - intros t. rewrite Hp, elem_of_union, elem_of_list_to_set, list_elem_of_fmap.
    apply or_iff_compat_l. split.
    + intros (e & -> & He%routed_edges). exists e. tauto.
    + intros (e & He & Hsrc & Hport & <-). exists e. split; [done|].
      apply routed_edges. done.
  - intros e He Hsrc Hport.
    specialize (H1 e). unfold tracker_view in H1.
    destruct (Runner.join_trackers dr !! Edge.target_step_id e) as [tracker|] eqn:Ht.
    + exists tracker. split; [done|]. apply H1. by apply routed_edges.
    + cbn in H1. rewrite lookup_empty in H1. discriminate H1. by apply routed_edges.
  - intros t Ht. apply H3. intros (e & -> & He%routed_edges)%list_elem_of_fmap.
    destruct He as (He & Hsrc & Hport). by eapply Ht.
Qed.

(** X19: when the result of a finished step does not ask to continue
    without waiting, the steps added to [pending] are the targets of the
    edges that leave the step through one of the fired ports, whatever the
    status of the result; the tracker of each of them holds the result
    under the identifier of the step, and the other trackers are
    unchanged. *)
Theorem routing_follows_fired_ports env flow d step_id (result : StepRunResult.t F) :
  step_id ∈ dom (Runner.running d) →
  StepRunResult.continue_without_waiting result = false →
  ∃ d', Runner.process_one env flow d (step_id, result) = Ok d'
    ∧ (∀ t, t ∈ Runner.pending d'
            ↔ t ∈ Runner.pending d
              ∨ ∃ e, e ∈ Flow.edges flow ∧ Edge.source_step_id e = step_id
                     ∧ Edge.source_port e ∈ StepRunResult.fired_ports result
                     ∧ Edge.target_step_id e = t)
    ∧ (∀ e, e ∈ Flow.edges flow → Edge.source_step_id e = step_id →
            Edge.source_port e ∈ StepRunResult.fired_ports result →
            ∃ tracker,
              Runner.join_trackers d' !! Edge.target_step_id e = Some tracker
              ∧ JoinTracker.arrivals tracker !! step_id = Some result)
    ∧ (∀ t, (∀ e, e ∈ Flow.edges flow → Edge.source_step_id e = step_id →
                  Edge.source_port e ∈ StepRunResult.fired_ports result →
                  Edge.target_step_id e ≠ t) →
            Runner.join_trackers d' !! t = Runner.join_trackers d !! t).
Proof. apply process_one_routes. Qed.

End RouteFacts.
End RouteFacts.

(** ** Invariants of the driver

    A property of the driver that does not depend on the state, the
    results, the trackers and the number of awaits, that is kept when
    [pending] shrinks, by the launch of a step and by the processing of a
    finished task, holds throughout the loop. *)

Module InvariantFacts.
Import Spec Aux RunnerFacts.
Section InvariantFacts.
Context {F : Type} {builtins : Py.Builtins F} {pydantic : Interpolation.Pydantic F}.
Implicit Types (d : Runner.Driver F) (env : Runner.Env) (flow : Flow.t F).

Lemma select_one_clock flow d acc step_id d' acc' :
  Runner.select_one flow (d, acc) step_id = (d', acc') →
  Runner.step_start_times d' = Runner.step_start_times d
  ∧ Runner.clock_reads d' = Runner.clock_reads d.
Proof.
  unfold Runner.select_one.
  destruct (Flow.get_step flow step_id) as [step|]; [|by intros [= <- <-]].
  destruct (_ && _); [|by intros [= <- <-]].
  unfold Runner.tracker_of.
  destruct (Runner.join_trackers d !! step_id); destruct (negb _);
    by intros [= <- <-].
Qed.

Lemma select_clock env flow d d' steps_to_launch :
  Runner.select env flow d = (d', steps_to_launch) →
  Runner.step_start_times d' = Runner.step_start_times d
  ∧ Runner.clock_reads d' = Runner.clock_reads d.
Proof.
  unfold Runner.select.
  generalize (Runner.pending_order env (Runner.awaits d) (Runner.pending d)) (@nil N).
  intros l. revert d. induction l as [|step_id l IH]; intros d acc; cbn [foldl].
  { by intros [= <- <-]. }
  destruct (Runner.select_one flow (d, acc) step_id) as [d1 acc1] eqn:H1.
  intros Hfold. destruct (IH _ _ Hfold) as [Ht Hc].
  destruct (select_one_clock _ _ _ _ _ _ H1) as [Ht1 Hc1]. split; congruence.
Qed.

Lemma complete_clock d done d' finished :
  Runner.complete d done = (d', finished) →
  Runner.step_start_times d' = Runner.step_start_times d
  ∧ Runner.clock_reads d' = Runner.clock_reads d.
Proof.
  unfold Runner.complete. destruct (foldl _ _ _) as [st' fin]. by intros [= <- <-].
Qed.

Section Invariant.
Variables (env : Runner.Env) (flow : Flow.t F).
Variables (I : Runner.Driver F → Prop) (P : N → Prop).
Hypothesis I_weaken : ∀ d d',
  Runner.emitted d' = Runner.emitted d → Runner.running d' = Runner.running d →
  Runner.step_start_times d' = Runner.step_start_times d →
  Runner.clock_reads d' = Runner.clock_reads d →
  Runner.pending d' ⊆ Runner.pending d →
  I d → I d'.
Hypothesis I_select : ∀ d d1 steps_to_launch,
  I d → Runner.select env flow d = (d1, steps_to_launch) →
  ∀ step_id, step_id ∈ steps_to_launch → P step_id.
Hypothesis I_launch_one : ∀ d step_id,
  P step_id → I d → I (Runner.launch_one env flow d step_id).
Hypothesis I_process_one : ∀ d step_id result d',
  step_id ∈ dom (Runner.running d) →
  Runner.process_one env flow d (step_id, result) = Ok d' →
  I d → I d'.

Lemma invariant_select d d1 steps_to_launch :
  Runner.select env flow d = (d1, steps_to_launch) → I d → I d1.
Proof.
  intros Hsel. destruct (select_same _ _ _ _ _ Hsel) as (He & _ & Hr & _ & _ & Hp).
  destruct (select_clock _ _ _ _ _ Hsel) as [Ht Hc]. by apply I_weaken.
Qed.

Lemma invariant_launch steps_to_launch d :
  (∀ step_id, step_id ∈ steps_to_launch → P step_id) →
  I d → I (Runner.launch env flow d steps_to_launch).
Proof.
  unfold Runner.launch. revert d.
  induction steps_to_launch as [|step_id l IH]; intros d HP Hd; cbn [foldl]; [done|].
  apply IH; [intros; apply HP; by right|]. apply I_launch_one; [|done].
  apply HP. left.
Qed.

Lemma invariant_process finished d d' :
  NoDup finished.*1 →
  (∀ i, i ∈ finished.*1 → i ∈ dom (Runner.running d)) →
  Runner.process env flow d finished = Ok d' →
  I d → I d'.
Proof.
  revert d. induction finished as [|[step_id result] finished IH]; intros d Hnd Hin.
  { by intros [= <-]. }
  cbn in Hnd. apply NoDup_cons in Hnd as [Hnotin Hnd].
  destruct (process_one_spec env flow d step_id result) as (d1 & H1 & Hr & _).
  { apply Hin. left. }
  cbn [Runner.process]. rewrite H1. cbn. intros Hp Hd.
  apply (IH d1); [done| |done|].
  - intros i Hi. rewrite Hr, dom_delete_L. apply elem_of_difference. split.
    + apply Hin. by right.
    + intros ->%elem_of_singleton. done.
  - eapply I_process_one; [|done..]. apply Hin. left.
Qed.

Lemma invariant_wait_and_process d d' :
  Runner.wait_and_process env flow d = Ok d' → I d → I d'.
Proof.
  unfold Runner.wait_and_process.
  destruct (wait_spec env d) as [Hnd Hin].
  destruct (Runner.complete d (Runner.wait env d)) as [d1 finished] eqn:Hc.
  destruct (complete_spec _ _ _ _ Hc Hin) as (Hids & Hp & Hr & Hj & He & Hre).
  destruct (complete_clock _ _ _ _ Hc) as [Ht Hcl].
  intros Hproc Hd. eapply invariant_process; [| |done|].
  - by rewrite Hids.
  - rewrite Hids, Hr. done.
  - apply (I_weaken d); try done. by rewrite Hp.
Qed.

Lemma invariant_iteration d d1 steps_to_launch :
  Runner.select env flow d = (d1, steps_to_launch) →
  I d → I (Runner.launch env flow d1 steps_to_launch).
Proof.
  intros Hsel Hd. apply invariant_launch.
  - by eapply I_select.
  - by eapply invariant_select.
Qed.

Lemma invariant_run_loop fuel d d' :
  Runner.run_loop fuel env flow d = Ok (Some d') → I d → I d'.
Proof.
  revert d. induction fuel as [|fuel IH]; intros d; cbn [Runner.run_loop].
  - destruct (_ && _); [by intros [= <-]|].
    destruct (Runner.select env flow d) as [d1 steps_to_launch] eqn:Hsel.
    case_bool_decide; [|done]. intros [= <-] Hd. by eapply invariant_iteration.
  - destruct (_ && _); [by intros [= <-]|].
    destruct (Runner.select env flow d) as [d1 steps_to_launch] eqn:Hsel.
    case_bool_decide.
    + intros [= <-] Hd. by eapply invariant_iteration.
    + destruct (Runner.wait_and_process _ _ _) as [d3|] eqn:H3; [|done]. cbn.
      intros Hloop Hd. apply (IH _ Hloop).
      apply (invariant_wait_and_process _ _ H3). by eapply invariant_iteration.
Qed.

End Invariant.

End InvariantFacts.
End InvariantFacts.

(** ** The events of a run *)

Module EventFacts.
Import Spec Aux RunnerFacts InvariantFacts.
Section EventFacts.
Context {F : Type} {builtins : Py.Builtins F} {pydantic : Interpolation.Pydantic F}.
Implicit Types (d : Runner.Driver F) (env : Runner.Env) (flow : Flow.t F).

Lemma started_app (events events' : list (Event.t F)) step_id :
  started events step_id → started (events ++ events') step_id.
Proof.
  intros (run_id & step_type & Hin). exists run_id, step_type.
  apply elem_of_app. by left.
Qed.

Lemma completions_started_snoc (events : list (Event.t F)) event :
  completions_started events →
  (∀ run_id step_id result duration_ms state_snapshot,
     event = Event.StepCompleted run_id step_id result duration_ms state_snapshot →
     started events step_id) →
  completions_started (events ++ [event]).
Proof.
  intros Hok Hevent before run_id step_id result duration_ms state_snapshot after.
  destruct after as [|x after _] using rev_ind.
  - intros [-> ->]%app_inj_tail. by eapply Hevent.
  - rewrite app_comm_cons, app_assoc. intros [-> _]%app_inj_tail.
    by eapply Hok.
Qed.

Lemma route_clock flow step_id (result : StepRunResult.t F) d :
  let d' := Runner.route flow step_id result d in
  Runner.step_start_times d' = Runner.step_start_times d
  ∧ Runner.clock_reads d' = Runner.clock_reads d.
Proof.
  assert (∀ edges d,
    Runner.step_start_times (foldl (Runner.route_edge result) d edges)
    = Runner.step_start_times d
    ∧ Runner.clock_reads (foldl (Runner.route_edge result) d edges)
      = Runner.clock_reads d) as Hedges.
  { intros edges. induction edges as [|e edges IH]; intros d0; cbn [foldl]; [done|].
    destruct (IH (Runner.route_edge result d0 e)) as [-> ->].
    unfold Runner.route_edge, Runner.tracker_of.
    by destruct (Runner.join_trackers d0 !! Edge.target_step_id e). }
  unfold Runner.route. cbv zeta. generalize (StepRunResult.fired_ports result).
  intros ports. revert d. induction ports as [|port ports IH]; intros d; cbn [foldl];
    [done|].
  destruct (IH (foldl (Runner.route_edge result) d
                  (Flow.get_edges_from flow step_id (Some port)))) as [-> ->].
  apply Hedges.
Qed.

(** What [process_one] does to the events and the clock. *)
Lemma process_one_events env flow d step_id (result : StepRunResult.t F) d' :
  Runner.process_one env flow d (step_id, result) = Ok d' →
  Runner.emitted d'
  = Runner.emitted d
    ++ [Event.StepCompleted (Runner.run_id env) step_id result
          ((Runner.perf_counter env (S (Runner.clock_reads d))
            - default (Runner.perf_counter env (Runner.clock_reads d))
                (Runner.step_start_times d !! step_id)) * 1000)
          (Some (StateContainer.values (Runner.state d)))]
  ∧ Runner.step_start_times d' = delete step_id (Runner.step_start_times d)
  ∧ Runner.clock_reads d' = S (S (Runner.clock_reads d)).
Proof.
  unfold Runner.process_one, Runner.del_running. cbn.
  destruct (Runner.running d !! step_id); [|done]. cbn.
  destruct (StepRunResult.continue_without_waiting result); intros [= <-]; [done|].
  match goal with |- context [Runner.route flow step_id result ?d0] =>
    destruct (route_fields flow step_id result d0) as (_ & _ & _ & He & _);
    destruct (route_clock flow step_id result d0) as [Ht Hc]
  end.
  cbv zeta in *. by rewrite He, Ht, Hc.
Qed.

Lemma launch_one_cases env flow d step_id :
  let d' := Runner.launch_one env flow d step_id in
  (Flow.get_step flow step_id = None
   ∧ Runner.emitted d' = Runner.emitted d ∧ Runner.running d' = Runner.running d
   ∧ Runner.step_start_times d' = Runner.step_start_times d
   ∧ Runner.clock_reads d' = Runner.clock_reads d)
  ∨ (∃ step result,
       Flow.get_step flow step_id = Some step
       ∧ Runner.emitted d'
         = (Runner.emitted d
            ++ [Event.StepStarted (Runner.run_id env) step_id
                  (StepType_value (Step.type step))])
           ++ [Event.StepCompleted (Runner.run_id env) step_id result 0 None]
       ∧ Runner.running d' = Runner.running d
       ∧ Runner.step_start_times d' = Runner.step_start_times d
       ∧ Runner.clock_reads d' = Runner.clock_reads d)
  ∨ (∃ step task,
       Flow.get_step flow step_id = Some step
       ∧ Runner.emitted d'
         = Runner.emitted d
           ++ [Event.StepStarted (Runner.run_id env) step_id
                 (StepType_value (Step.type step))]
       ∧ Runner.running d' = <[step_id := task]> (Runner.running d)
       ∧ Runner.step_start_times d'
         = <[step_id := Runner.perf_counter env (Runner.clock_reads d)]>
             (Runner.step_start_times d)
       ∧ Runner.clock_reads d' = S (Runner.clock_reads d)).
Proof.
  unfold Runner.launch_one. cbv zeta.
  destruct (Flow.get_step flow step_id) as [step|]; [|left; done].
  destruct (Interpolation.resolve_config _ _) as [resolved_config|e]; cbn.
  - right; right. by eexists _, _.
  - right; left. by eexists _, _.
Qed.

Section Run.
Variables (env : Runner.Env) (flow : Flow.t F) (trigger : N).

Lemma events_ok_weaken d d' :
  Runner.emitted d' = Runner.emitted d → Runner.running d' = Runner.running d →
  Runner.step_start_times d' = Runner.step_start_times d →
  Runner.clock_reads d' = Runner.clock_reads d →
  Runner.pending d' ⊆ Runner.pending d →
  events_ok env flow trigger d → events_ok env flow trigger d'.
Proof.
  unfold events_ok. intros -> -> _ _ Hp (H1 & H2 & H3 & H4).
  split_and!; [done..|]. intros step_id Hin. apply H4. set_solver.
Qed.

Lemma events_ok_launch_one d step_id :
  reachable flow trigger step_id →
  events_ok env flow trigger d →
  events_ok env flow trigger (Runner.launch_one env flow d step_id).
Proof.
  intros Hreach (H1 & H2 & H3 & H4).
  destruct (launch_one_fields env flow d step_id) as (Hp & _).
  assert (∀ i, i ∈ Runner.pending (Runner.launch_one env flow d step_id) →
               reachable flow trigger i) as H4'.
  { intros i. cbv zeta in Hp. rewrite Hp. intros Hi. apply H4. set_solver. }
  destruct (launch_one_cases env flow d step_id)
    as [(Hstep & He & Hr & _)|[(step & result & Hstep & He & Hr & _)
                              |(step & task & Hstep & He & Hr & _)]];
    cbv zeta in *; unfold events_ok; rewrite He, Hr.
  - done.
  - split_and!; [| | |done].
    + apply completions_started_snoc.
      * apply completions_started_snoc; [done|]. by intros.
      * intros ? ? ? ? ? [= <- <- <- <- <-]. eexists _, _.
        apply elem_of_app. right. left.
    + intros i Hi. rewrite <- app_assoc. by apply started_app, H2.
    + intros run_id i ty [[Hin|Hin%list_elem_of_singleton]%elem_of_app
                         |Hin%list_elem_of_singleton]%elem_of_app; [by apply H3| |done].
      injection Hin as -> -> ->. split_and!; [done..|]. by exists step.
  - split_and!; [| | |done].
    + apply completions_started_snoc; [done|]. by intros.
    + intros i. rewrite dom_insert_L.
      intros [->%elem_of_singleton|Hi]%elem_of_union.
      * eexists _, _. apply elem_of_app. right. left.
      * by apply started_app, H2.
    + intros run_id i ty [Hin|Hin%list_elem_of_singleton]%elem_of_app; [by apply H3|].
      injection Hin as -> -> ->. split_and!; [done..|]. by exists step.
Qed.

Lemma events_ok_process_one d step_id (result : StepRunResult.t F) d' :
  step_id ∈ dom (Runner.running d) →
  Runner.process_one env flow d (step_id, result) = Ok d' →
  events_ok env flow trigger d → events_ok env flow trigger d'.
Proof.
  intros Hrun Hproc (H1 & H2 & H3 & H4).
  destruct (process_one_events _ _ _ _ _ _ Hproc) as (He & _ & _).
  destruct (process_one_spec env flow d step_id result Hrun)
    as (d'' & Hproc' & Hr & _ & Hp & _).
  rewrite Hproc in Hproc'. injection Hproc' as <-.
  unfold events_ok. rewrite He, Hr. split_and!.
  - apply completions_started_snoc; [done|].
    intros ? ? ? ? ? [= <- <- <- <- <-]. by apply H2.
  - intros i [Hi _]%dom_delete%elem_of_difference. by apply started_app, H2.
  - intros run_id i ty [Hin|Hin%list_elem_of_singleton]%elem_of_app; [by apply H3|done].
  - intros i Hi%Hp. apply elem_of_union in Hi as [Hi|Hi]; [by apply H4|].
    unfold successors in Hi.
    apply elem_of_list_to_set, list_elem_of_fmap in Hi as (e & -> & He0).
    unfold Flow.get_edges_from in He0. apply list_elem_of_filter in He0 as [Hsrc He0].
    apply reachable_edge; [|done]. rewrite Hsrc.
    destruct (H2 step_id Hrun) as (run_id & ty & Hin). by apply H3 in Hin as (_ & ? & _).
Qed.

Lemma events_ok_select d d1 steps_to_launch :
  ordered env →
  events_ok env flow trigger d →
  Runner.select env flow d = (d1, steps_to_launch) →
  ∀ step_id, step_id ∈ steps_to_launch → reachable flow trigger step_id.
Proof.
  intros Hord (_ & _ & _ & H4) Hsel step_id Hin.
  destruct (select_fields _ _ _ _ _ Hord Hsel) as [_ Hpending].
  destruct (select_same _ _ _ _ _ Hsel) as (_ & _ & _ & _ & _ & Hsub).
  apply H4, Hsub, Hpending, Hin.
Qed.

Lemma events_ok_initial initial_state :
  events_ok env flow trigger (Runner.initial env flow trigger initial_state).
Proof.
  unfold events_ok. cbn. split_and!.
  - intros before ? ? ? ? ? after Heq. destruct before as [|x [|y before]]; done.
  - intros i. rewrite dom_empty_L. by intros ?%elem_of_empty.
  - intros ? ? ? Hin%list_elem_of_singleton. done.
  - intros i ->%elem_of_singleton. constructor.
Qed.

Lemma run_flow_events_ok fuel initial_state d :
  ordered env →
  Runner.run_flow fuel env flow trigger initial_state = Ok (Some d) →
  ∃ d0, Runner.emitted d
        = Runner.emitted d0
          ++ [Event.FlowCompleted (Runner.run_id env)
                (Runner.final_status (Runner.results d0))]
        ∧ events_ok env flow trigger d0.
Proof.
  intros Hord. unfold Runner.run_flow.
  destruct (Runner.run_loop _ _ _ _) as [[d0|]|] eqn:Hloop; [|done..].
  intros [= <-]. exists d0. split; [done|].
  eapply (invariant_run_loop env flow (events_ok env flow trigger)
            (reachable flow trigger)); [..|exact Hloop|apply events_ok_initial].
  - apply events_ok_weaken.
  - intros. by eapply events_ok_select.
  - apply events_ok_launch_one.
  - apply events_ok_process_one.
Qed.

(** X20: in the events of a run, every [StepCompleted] event comes after a
    [StepStarted] event of its step. *)
Theorem completed_after_started fuel initial_state d :
  ordered env →
  Runner.run_flow fuel env flow trigger initial_state = Ok (Some d) →
  completions_started (Runner.emitted d).
Proof.
  intros Hord Hrun.
  destruct (run_flow_events_ok _ _ _ Hord Hrun) as (d0 & -> & H1 & _).
  apply completions_started_snoc; [done|]. by intros.
Qed.

(** X21: a step that a run starts is a step of the flow that can be reached
    from the trigger along the edges; the [StepStarted] event carries the
    value of its type. *)
Theorem only_reachable_steps_start fuel initial_state d run_id step_id step_type :
  ordered env →
  Runner.run_flow fuel env flow trigger initial_state = Ok (Some d) →
  Event.StepStarted run_id step_id step_type ∈ Runner.emitted d →
  reachable flow trigger step_id
  ∧ ∃ step, Flow.get_step flow step_id = Some step
            ∧ step_type = StepType_value (Step.type step).
Proof.
  intros Hord Hrun.
  destruct (run_flow_events_ok _ _ _ Hord Hrun) as (d0 & -> & _ & _ & H3 & _).
  intros [Hin|Hin%list_elem_of_singleton]%elem_of_app; [|done].
  by apply H3 in Hin as (_ & ? & ?).
Qed.

Lemma times_ok_weaken d d' :
  Runner.emitted d' = Runner.emitted d → Runner.running d' = Runner.running d →
  Runner.step_start_times d' = Runner.step_start_times d →
  Runner.clock_reads d' = Runner.clock_reads d →
  Runner.pending d' ⊆ Runner.pending d →
  times_ok env d → times_ok env d'.
Proof. unfold times_ok. by intros -> _ -> -> _. Qed.

Lemma times_ok_launch_one d step_id :
  monotone env → times_ok env d → times_ok env (Runner.launch_one env flow d step_id).
Proof.
  intros Hmono [Ht Hd].
  pose proof (Hmono (Runner.clock_reads d) (S (Runner.clock_reads d))) as Hnext.
  destruct (launch_one_cases env flow d step_id)
    as [(Hstep & He & _ & Hti & Hc)|[(step & result & Hstep & He & _ & Hti & Hc)
                              |(step & task & Hstep & He & _ & Hti & Hc)]];
    cbv zeta in *; unfold times_ok; rewrite He, Hti, Hc.
  - done.
  - split; [done|]. by repeat (apply Forall_app; split; [|by repeat constructor]).
  - split; [|by repeat (apply Forall_app; split; [|by repeat constructor])].
    intros i t [[_ <-]|[_ Hi]]%lookup_insert_Some; [lia|].
    apply Ht in Hi. lia.
Qed.

Lemma times_ok_process_one d step_id (result : StepRunResult.t F) d' :
  monotone env →
  Runner.process_one env flow d (step_id, result) = Ok d' →
  times_ok env d → times_ok env d'.
Proof.
  intros Hmono Hproc [Ht Hd].
  pose proof (Hmono (Runner.clock_reads d) (S (Runner.clock_reads d))) as Hnext.
  pose proof (Hmono (Runner.clock_reads d) (S (S (Runner.clock_reads d)))) as Hnext2.
  destruct (process_one_events _ _ _ _ _ _ Hproc) as (He & Hti & Hc).
  unfold times_ok. rewrite He, Hti, Hc. split.
  - intros i t [_ Hi]%lookup_delete_Some. apply Ht in Hi. lia.
  - apply Forall_app. split; [done|]. repeat constructor. cbn.
    destruct (Runner.step_start_times d !! step_id) as [t|] eqn:Hstart; cbn.
    + apply Ht in Hstart. lia.
    + lia.
Qed.

(** X22: when the readings of the clock do not decrease, no [StepCompleted]
    event of a run reports a negative duration. *)
Theorem durations_not_negative fuel initial_state d :
  monotone env →
  Runner.run_flow fuel env flow trigger initial_state = Ok (Some d) →
  Forall duration_ok (Runner.emitted d).
Proof.
  intros Hmono. unfold Runner.run_flow.
  destruct (Runner.run_loop _ _ _ _) as [[d0|]|] eqn:Hloop; [|done..].
  intros [= <-]. cbn. apply Forall_app. split; [|by repeat constructor].
  eapply (invariant_run_loop env flow (times_ok env) (fun _ => True));
    [..|exact Hloop|].
  - apply times_ok_weaken.
  - done.
  - intros. by apply times_ok_launch_one.
  - intros. by eapply times_ok_process_one.
  - split; [|by repeat constructor]. intros i t. cbn. by rewrite lookup_empty.
Qed.

End Run.
End EventFacts.
End EventFacts.

(** ** [validate_safe_url] *)

Module SecurityFacts.
Import Aux StringFacts.
Section SecurityFacts.
Context {net : Security.Net}.

Lemma check_tlds_ok hostname_lower tlds :
  Security.check_tlds hostname_lower tlds = Ok ()
  ↔ ∀ tld, tld ∈ tlds → Py.endswith hostname_lower tld = false.
Proof.
  induction tlds as [|tld tlds IH]; cbn [Security.check_tlds].
  - split; [|done]. by intros _ tld ?%elem_of_nil.
  - destruct (Py.endswith hostname_lower tld) eqn:Hend.
    + split; [done|]. intros Hall. specialize (Hall tld). rewrite Hend in Hall.
      discriminate Hall. left.
    + rewrite IH. split.
      * intros Hall t [->|Ht]%elem_of_cons; [done|by apply Hall].
      * intros Hall t Ht. apply Hall. by right.
Qed.

Lemma check_ip_ok hostname :
  Security.check_ip hostname = Ok ()
  ↔ ∃ ip, Security.ip_address hostname = Ok ip
          ∧ Security.is_private ip = false ∧ Security.is_loopback ip = false
          ∧ Security.is_link_local ip = false ∧ Security.is_multicast ip = false
          ∧ Security.is_reserved ip = false.
Proof.
  unfold Security.check_ip.
  destruct (Security.ip_address hostname) as [ip|e]; cbn.
  - destruct ip as [[] [] [] [] []]; cbn; split; try done;
      try (by intros (ip & [= <-] & ? & ? & ? & ? & ?)).
    intros _. by eexists.
  - split; [done|]. by intros (ip & [=] & _).
Qed.

Lemma check_ip_raise hostname e :
  Security.check_ip hostname = Raise e →
  Security.ip_address hostname = Raise e
  ∨ ((∃ ip, Security.ip_address hostname = Ok ip
            ∧ (Security.is_private ip = true ∨ Security.is_loopback ip = true
               ∨ Security.is_link_local ip = true ∨ Security.is_multicast ip = true
               ∨ Security.is_reserved ip = true))
     ∧ Py.contains "not allowed" (exn_msg e) = true).
Proof.
  unfold Security.check_ip.
  destruct (Security.ip_address hostname) as [ip|e']; cbn; [|intros [= <-]; by left].
  intros Hraise. right. split.
  - exists ip. split; [done|]. destruct ip as [[] [] [] [] []]; cbn in *; auto 10.
    done.
  - destruct ip as [[] [] [] [] []]; cbn in Hraise; try done;
      injection Hraise as <-; vm_compute; reflexivity.
Qed.

Lemma check_tlds_raise hostname_lower tlds e :
  Security.check_tlds hostname_lower tlds = Raise e →
  ∃ tld, tld ∈ tlds ∧ Py.endswith hostname_lower tld = true ∧ e = tld_error tld.
Proof.
  induction tlds as [|tld tlds IH]; cbn [Security.check_tlds]; [done|].
  destruct (Py.endswith hostname_lower tld) eqn:Hend.
  - intros [= <-]. exists tld. split_and!; [left|done..].
  - intros (t & Ht & Hrest)%IH. exists t. split; [by right|done].
Qed.

Lemma check_tlds_unique hostname_lower tlds tld :
  tld ∈ tlds → Py.endswith hostname_lower tld = true →
  (∀ t, t ∈ tlds → Py.endswith hostname_lower t = true → t = tld) →
  Security.check_tlds hostname_lower tlds = Raise (tld_error tld).
Proof.
  intros Hin Hend Huniq.
  destruct (Security.check_tlds hostname_lower tlds) as [[]|e] eqn:Hcheck.
  - pose proof (proj1 (check_tlds_ok _ _) Hcheck tld Hin) as Hnone. congruence.
  - apply check_tlds_raise in Hcheck as (t & Ht & Hend' & ->).
    by rewrite (Huniq t Ht Hend').
Qed.

Lemma internal_tld_suffix t1 t2 :
  t1 ∈ Security.internal_tlds → t2 ∈ Security.internal_tlds →
  Py.endswith t1 t2 = true → t1 = t2.
Proof.
  unfold Security.internal_tlds. intros H1 H2.
  repeat (apply elem_of_cons in H1 as [->|H1]);
    [..|by apply elem_of_nil in H1];
    repeat (apply elem_of_cons in H2 as [->|H2]);
    try (by apply elem_of_nil in H2);
    try reflexivity; vm_compute; discriminate.
Qed.

Lemma internal_tld_unique hostname_lower t1 t2 :
  t1 ∈ Security.internal_tlds → t2 ∈ Security.internal_tlds →
  Py.endswith hostname_lower t1 = true → Py.endswith hostname_lower t2 = true →
  t1 = t2.
Proof.
  intros H1 H2. induction hostname_lower as [|c h IH]; cbn [Py.endswith].
  - rewrite !orb_false_r, !bool_decide_eq_true. congruence.
  - rewrite !orb_true_iff, !bool_decide_eq_true.
    intros [Heq1|Hend1] [Heq2|Hend2].
    + congruence.
    + apply internal_tld_suffix; [done..|].
      rewrite <- Heq1. cbn [Py.endswith]. rewrite Hend2. apply orb_true_r.
    + symmetry. apply internal_tld_suffix; [done..|].
      rewrite <- Heq2. cbn [Py.endswith]. rewrite Hend1. apply orb_true_r.
    + by apply IH.
Qed.

(** The order in which the suffixes are tried does not matter. *)
Lemma check_tlds_order hostname_lower tlds :
  tlds ≡ₚ Security.internal_tlds →
  Security.check_tlds hostname_lower tlds
  = Security.check_tlds hostname_lower Security.internal_tlds.
Proof.
  intros Hperm.
  destruct (Security.check_tlds hostname_lower Security.internal_tlds)
    as [[]|e] eqn:Hcheck.
  - apply check_tlds_ok. intros tld Htld. rewrite Hperm in Htld.
    by apply (proj1 (check_tlds_ok _ _) Hcheck).
  - apply check_tlds_raise in Hcheck as (t & Ht & Hend & ->).
    apply check_tlds_unique; [by rewrite Hperm|done|].
    intros t' Ht' Hend'. rewrite Hperm in Ht'. by eapply internal_tld_unique.
Qed.

(** X23: [validate_safe_url] accepts a URL exactly when its scheme is http
    or https, its hostname is not empty and, in lower case, none of the
    names of the local host, the hostname is no address that is private,
    loopback, link-local, multicast or reserved (and, when it is no
    address, the message of [ip_address] does not hold "not allowed"), and
    the hostname in lower case ends with none of the internal suffixes. *)
Theorem validate_safe_url_accepts (url : string) :
  Security.validate_safe_url url = Ok ()
  ↔ ∃ scheme hostname,
      Security.urlparse url = Ok (scheme, Some hostname)
      ∧ scheme ∈ ["http"; "https"]
      ∧ hostname ≠ ""
      ∧ (Py.lower hostname ∉ Security.localhost_names)
      ∧ match Security.ip_address hostname with
        | Ok ip =>
            Security.is_private ip = false ∧ Security.is_loopback ip = false
            ∧ Security.is_link_local ip = false
            ∧ Security.is_multicast ip = false
            ∧ Security.is_reserved ip = false
        | Raise e => Py.contains "not allowed" (exn_msg e) = false
        end
      ∧ ∀ tld, tld ∈ Security.internal_tlds →
               ¬ ∃ pre, Py.lower hostname = pre +:+ tld.
Proof.
  assert (∀ h, Security.check_tlds h Security.internal_tlds = Ok ()
               ↔ ∀ tld, tld ∈ Security.internal_tlds → ¬ ∃ pre, h = pre +:+ tld)
    as Htlds.
  { intros h. rewrite check_tlds_ok.
    split; intros Hall tld Htld; specialize (Hall tld Htld).
    - rewrite <- endswith_spec. congruence.
    - rewrite <- endswith_spec in Hall. by destruct (Py.endswith h tld). }
  unfold Security.validate_safe_url.
  destruct (Security.urlparse url) as [[scheme hostname]|e] eqn:Hparse.
  2:{ split; [done|]. by intros (? & ? & [=] & _). }
  case_bool_decide as Hscheme.
  { split; [done|]. intros (? & ? & [= <- ->] & ? & _). done. }
  destruct hostname as [hostname|].
  2:{ split; [done|]. by intros (? & ? & [=] & _). }
  destruct hostname as [|c hostname].
  { split; [done|]. by intros (? & ? & [= <- <-] & _ & ? & _). }
  case_bool_decide as Hlocal.
  { split; [done|]. by intros (? & ? & [= <- <-] & _ & _ & ? & _). }
  destruct (Security.check_ip (String c hostname)) as [[]|e] eqn:Hip.
  - apply check_ip_ok in Hip as (ip & Hip & Hflags).
    rewrite Htlds. split.
    + intros Hall. exists scheme, (String c hostname). rewrite Hip. done.
    + intros (? & ? & [= <- <-] & _ & _ & _ & _ & Hall). done.
  - destruct (Py.contains "not allowed" (exn_msg e)) eqn:Hmsg.
    + split; [done|]. intros (? & ? & [= <- <-] & _ & _ & _ & Haddr & _).
      apply check_ip_raise in Hip as [Hip|[(ip & Hip & Hflags) _]];
        rewrite Hip in Haddr; [congruence|].
      destruct Haddr as (? & ? & ? & ? & ?).
      destruct Hflags as [?|[?|[?|[?|?]]]]; congruence.
    + apply check_ip_raise in Hip as [Hip|[_ Hmsg']]; [|congruence].
      rewrite Htlds. split.
      * intros Hall. exists scheme, (String c hostname). rewrite Hip. done.
      * intros (? & ? & [= <- <-] & _ & _ & _ & _ & Hall). done.
Qed.

End SecurityFacts.
End SecurityFacts.

(** ** The end of a run *)

Module QuietFacts.
Import Spec Aux JoinFacts RunnerFacts.
Section QuietFacts.
Context {F : Type} {builtins : Py.Builtins F} {pydantic : Interpolation.Pydantic F}.
Implicit Types (d : Runner.Driver F) (env : Runner.Env) (flow : Flow.t F).

Lemma held_back_view flow d d' step_id :
  (∀ i, tracker_view d' i = tracker_view d i) →
  held_back flow d step_id → held_back flow d' step_id.
Proof.
  intros Hview (step & Hstep & Hedges & Hmode & Hready).
  exists step. by rewrite Hview.
Qed.

Lemma select_one_complete flow d acc step_id d' acc' :
  Runner.select_one flow (d, acc) step_id = (d', acc') →
  step_id ∈ acc' ∨ step_id ∉ Runner.pending d' ∨ held_back flow d step_id.
Proof.
  unfold Runner.select_one, held_back.
  destruct (Flow.get_step flow step_id) as [step|] eqn:Hstep.
  2:{ intros [= <- <-]. right; left. cbn. set_solver. }
  case_bool_decide as Hin; cbn [andb].
  2:{ intros [= <- <-]. left. set_solver. }
  case_bool_decide as Hmode; cbn [andb].
  2:{ intros [= <- <-]. left. set_solver. }
  destruct (tracker_of_view d step_id) as (Ht & _).
  destruct (Runner.tracker_of d step_id) as [tracker d2]. cbn in Ht. subst tracker.
  destruct (JoinTracker.is_ready _ _ _) eqn:Hready; cbn [negb]; intros [= <- <-].
  - left. set_solver.
  - right; right. by exists step.
Qed.

Lemma select_fold_complete flow l d acc d' acc' :
  foldl (Runner.select_one flow) (d, acc) l = (d', acc') →
  ∀ i, i ∈ l → i ∈ acc' ∨ i ∉ Runner.pending d' ∨ held_back flow d i.
Proof.
  revert d acc. induction l as [|step_id l IH]; intros d acc; cbn [foldl].
  { by intros _ i ?%elem_of_nil. }
  destruct (Runner.select_one flow (d, acc) step_id) as [d1 acc1] eqn:H1.
  intros Hfold i Hi.
  destruct (select_one_spec _ _ _ _ _ _ H1) as (Hv & Hp & _ & _).
  destruct (select_fold_spec _ _ _ _ _ _ Hfold) as (Hv' & Hp' & _).
  apply elem_of_cons in Hi as [->|Hi].
  - destruct (select_one_complete _ _ _ _ _ _ H1) as [Hacc|[Hpend|Hheld]].
    + left. clear -Hfold Hacc. revert d1 acc1 Hfold Hacc.
      induction l as [|j l IHl]; intros d1 acc1; cbn [foldl].
      * by intros [= <- <-].
      * destruct (Runner.select_one flow (d1, acc1) j) as [d2 acc2] eqn:H2.
        intros Hfold Hacc. apply (IHl _ _ Hfold).
        by apply (select_one_spec _ _ _ _ _ _ H2).
    + right; left. set_solver.
    + by right; right.
  - destruct (IH _ _ Hfold i Hi) as [?|[?|Hheld]]; [by left|by right; left|].
    right; right. eapply held_back_view; [|done]. intros j. by rewrite Hv.
Qed.

Lemma iteration_quiet env flow d d1 steps_to_launch :
  ordered env →
  Runner.select env flow d = (d1, steps_to_launch) →
  ∀ i, i ∈ Runner.pending (Runner.launch env flow d1 steps_to_launch) →
       held_back flow (Runner.launch env flow d1 steps_to_launch) i.
Proof.
  intros Hord Hsel i Hi.
  destruct (launch_fields env flow steps_to_launch d1) as (Hp & Hj & _).
  cbv zeta in *. rewrite Hp in Hi. apply elem_of_difference in Hi as [Hi Hnot].
  unfold Runner.select in Hsel.
  destruct (select_fold_spec _ _ _ _ _ _ Hsel) as (Hv & Hsub & _).
  assert (i ∈ Runner.pending_order env (Runner.awaits d) (Runner.pending d)) as Hin.
  { rewrite (Hord _ _). apply elem_of_elements. set_solver. }
  destruct (select_fold_complete _ _ _ _ _ _ Hsel i Hin) as [Hacc|[Hpend|Hheld]].
  - destruct Hnot. by apply elem_of_list_to_set.
  - done.
  - eapply held_back_view; [|done]. intros j. rewrite <- Hv.
    unfold tracker_view. by rewrite Hj.
Qed.

Lemma run_loop_quiet fuel env flow d d' :
  ordered env →
  Runner.run_loop fuel env flow d = Ok (Some d') →
  Runner.running d' = ∅ ∧ ∀ i, i ∈ Runner.pending d' → held_back flow d' i.
Proof.
  intros Hord. revert d. induction fuel as [|fuel IH]; intros d; cbn [Runner.run_loop].
  - destruct (_ && _) eqn:Hempty.
    { apply andb_true_iff in Hempty as [Hp%bool_decide_eq_true Hr%bool_decide_eq_true].
      intros [= <-]. split; [done|]. rewrite Hp. by intros i ?%elem_of_empty. }
    destruct (Runner.select env flow d) as [d1 steps_to_launch] eqn:Hsel.
    clear Hempty. case_bool_decide as Hrun; [|done]. intros [= <-]. split; [done|].
    by eapply iteration_quiet.
  - destruct (_ && _) eqn:Hempty.
    { apply andb_true_iff in Hempty as [Hp%bool_decide_eq_true Hr%bool_decide_eq_true].
      intros [= <-]. split; [done|]. rewrite Hp. by intros i ?%elem_of_empty. }
    destruct (Runner.select env flow d) as [d1 steps_to_launch] eqn:Hsel.
    clear Hempty. case_bool_decide as Hrun.
    + intros [= <-]. split; [done|]. by eapply iteration_quiet.
    + destruct (Runner.wait_and_process _ _ _) as [d3|] eqn:H3; [|done]. cbn.
      apply IH.
Qed.


End QuietFacts.
End QuietFacts.

(** ** Configurations without references *)

Module ResolveFacts.
Import Spec Aux.
Section ResolveFacts.
Context {F : Type} {builtins : Py.Builtins F} {pydantic : Interpolation.Pydantic F}.

(** Induction on the values of configuration fields and on the
    configurations. *)
Section Induction.
Variables (P : Interpolation.cval F → Prop) (Q : Interpolation.model F → Prop).
Hypothesis P_none : P Interpolation.CNone.
Hypothesis P_bool : ∀ b, P (Interpolation.CBool b).
Hypothesis P_int : ∀ n, P (Interpolation.CInt n).
Hypothesis P_float : ∀ x, P (Interpolation.CFloat x).
Hypothesis P_str : ∀ s, P (Interpolation.CStr s).
Hypothesis P_list : ∀ l, Forall P l → P (Interpolation.CList l).
Hypothesis P_dict : ∀ d, Forall (fun kv => P kv.2) d → P (Interpolation.CDict d).
Hypothesis P_model : ∀ m, Q m → P (Interpolation.CModel m).
Hypothesis Q_model : ∀ cls hints fields,
  Forall (fun kv => P kv.2) fields → Q (Interpolation.Model cls hints fields).

Lemma cval_model_ind : (∀ v, P v) ∧ (∀ m, Q m).
Proof.
  assert (∀ v, P v) as HP.
  { fix IH 1. intros v. destruct v as [|b|n|x|s|l|d|m].
    - apply P_none.
    - apply P_bool.
    - apply P_int.
    - apply P_float.
    - apply P_str.
    - apply P_list. induction l as [|v l IHl]; constructor; [apply IH|apply IHl].
    - apply P_dict. induction d as [|[k v] d IHd]; constructor; [apply IH|apply IHd].
    - apply P_model. destruct m as [cls hints fields]. apply Q_model.
      induction fields as [|[k v] fields IHf]; constructor; [apply IH|apply IHf]. }
  split; [done|]. intros [cls hints fields]. apply Q_model.
  induction fields as [|[k v] fields IHf]; constructor; [apply HP|apply IHf].
Qed.

End Induction.

Section Independent.
Variables (st1 st2 : StateContainer.t F).

Let same_config (m : Interpolation.model F) : Prop :=
  Interpolation.resolve_config m st1 = Interpolation.resolve_config m st2.

Let same_value (v : Interpolation.cval F) : Prop :=
  plain v = true →
  Interpolation.resolve_dict_value st1 v = Interpolation.resolve_dict_value st2 v
  ∧ (∀ m, v = Interpolation.CModel m → same_config m)
  ∧ (∀ l, v = Interpolation.CList l →
          Forall (fun item => plain item = true
                              ∧ ∀ m, item = Interpolation.CModel m → same_config m) l).

Lemma plain_independent :
  (∀ v, same_value v) ∧ (∀ m, plain_model m = true → same_config m).
Proof.
  apply cval_model_ind; unfold same_value, same_config.
  - done.
  - done.
  - done.
  - done.
  - intros s Hs. cbn in Hs. apply negb_true_iff in Hs. cbn. by rewrite Hs.
  - intros l Hall Hplain. cbn in Hplain. split; [done|]. split; [done|].
    intros l' [= <-]. rewrite forallb_forall in Hplain.
    apply Forall_forall. intros item Hitem.
    assert (plain item = true) as Hp by (by apply Hplain, list_elem_of_In).
    split; [done|]. intros m ->.
    rewrite Forall_forall in Hall. by apply (Hall _ Hitem Hp).
  - intros d Hall Hplain. cbn in Hplain. split; [|done].
    cbn. f_equal. rewrite forallb_forall in Hplain.
    induction d as [|[k v] d IH]; [done|].
    apply Forall_cons in Hall as [Hv Hall]. cbn. f_equal.
    + f_equal. apply Hv. apply (Hplain (k, v)). by left.
    + apply IH; [done|]. intros kv Hkv. apply Hplain. by right.
  - intros m Hm Hplain. cbn in Hplain. split; [done|]. split; [|done].
    intros m' [= <-]. by apply Hm.
  - intros cls hints fields Hall Hplain. cbn in Hplain.
    destruct hints as [h|]; [|done]. cbn [Interpolation.resolve_config].
    match goal with |- ?f1 fields ≫= _ = ?f2 fields ≫= _ =>
      assert (f1 fields = f2 fields) as ->; [|done]
    end.
    rewrite forallb_forall in Hplain.
    induction fields as [|[field_name value] fields IH]; [done|].
    apply Forall_cons in Hall as [Hv Hall].
    assert (plain value = true) as Hp by (apply (Hplain (field_name, value)); by left).
    rewrite IH; [|done|intros kv Hkv; apply Hplain; by right].
    match goal with |- ?v1 ≫= _ = ?v2 ≫= _ => assert (v1 = v2) as ->; [|done] end.
    destruct (Hv Hp) as (Hdict & Hmodel & Hlist). cbn [snd] in *.
    destruct (Py.dict_get field_name h) as [target_type|].
    + unfold Interpolation.resolve_value. destruct value; try done.
      cbn in Hp. apply negb_true_iff in Hp. by rewrite Hp.
    + destruct value as [| | | | |l|d|m]; try done.
      * specialize (Hlist l eq_refl). f_equal. clear -Hlist.
        induction Hlist as [|item l [Hitem Hm] _ IHl]; [done|].
        rewrite IHl.
        match goal with |- ?v1 ≫= _ = ?v2 ≫= _ => assert (v1 = v2) as ->; [|done] end.
        destruct item; try done.
        -- cbn in Hitem. apply negb_true_iff in Hitem. by rewrite Hitem.
        -- f_equal. by apply Hm.
      * cbn in Hdict. unfold Interpolation.resolve_dict_values. congruence.
      * f_equal. by apply Hmodel.
Qed.

End Independent.

(** X30: a configuration none of whose strings holds "{{" (in its fields,
    their lists and dicts, and the configurations nested in them) is
    resolved by [resolve_config] to the same result in every state. *)
Theorem plain_config_ignores_state (config : Interpolation.model F)
    (st1 st2 : StateContainer.t F) :
  plain_model config = true →
  Interpolation.resolve_config config st1 = Interpolation.resolve_config config st2.
Proof. apply plain_independent. Qed.

End ResolveFacts.
End ResolveFacts.

(** ** The steps of the package *)

Module KindFacts.
Import Spec Aux StringFacts RunnerFacts.
Section KindFacts.
Context {F : Type} {builtins : Py.Builtins F} {pydantic : Interpolation.Pydantic F}
  {order : Py.FloatOrder F}.
Implicit Types (d : Runner.Driver F) (env : Runner.Env) (flow : Flow.t F).

Lemma set_state_of_model (config : SetState.Config) :
  SetState.of_model (SetState.to_model (F:=F) config) = Some config.
Proof. by destruct config. Qed.

Lemma conditional_of_model (config : Conditional.Config) :
  Conditional.of_model (Conditional.to_model (F:=F) config) = Some config.
Proof. by destruct config. Qed.

Lemma switch_of_model (config : Switch.Config) :
  Switch.of_model (Switch.to_model (F:=F) config) = Some config.
Proof.
  destruct config as [value cases].
  transitivity
    (Switch.mkConfig value
     <$> mapM (Switch.case_of_cval (F:=F))
           ((fun case => Interpolation.CModel (Switch.case_to_model case)) <$> cases));
    [reflexivity|].
  assert (mapM (Switch.case_of_cval (F:=F))
            ((fun case => Interpolation.CModel (Switch.case_to_model case)) <$> cases)
          = Some cases) as ->; [|done].
  apply mapM_Some. induction cases as [|[name v] cases IH]; constructor; done.
Qed.

(** X24: a set-state step either stores its value under its key, through
    the slot when one is declared, and succeeds firing [default], or, when
    the cast of the declared slot raises, leaves the state as it was and
    fails with code EXECUTION_ERROR. *)
Theorem set_state_outcome (id : N) join_mode position is_trigger
    (config resolved : SetState.Config) (state : StateContainer.t F) :
  let step := SetState.step id join_mode position is_trigger config in
  let '(state', result) :=
    Runner.execute_step step state (SetState.to_model resolved) in
  (StateContainer.set state (SetState.key resolved)
     (Py.VStr (SetState.value resolved)) = Ok state'
   ∧ result
     = StepRunResult.mk id SUCCESS ["default"] false
         (Some [(SetState.key resolved, Py.VStr (SetState.value resolved))]) None)
  ∨ (is_Some (StateContainer.slots state !! SetState.key resolved)
     ∧ state' = state
     ∧ StepRunResult.status result = ERROR
     ∧ StepRunResult.fired_ports result = ["default"]
     ∧ StepError.code <$> StepRunResult.error result = Some (Some "EXECUTION_ERROR")).
Proof.
  cbv zeta. unfold Runner.execute_step, SetState.step. cbn [Step.run Step.id].
  rewrite set_state_of_model. unfold SetState.run.
  destruct (StateContainer.set state _ _) as [state'|e] eqn:Hset.
  - by left.
  - right. split_and!; try done.
    unfold StateContainer.set in Hset.
    destruct (StateContainer.slots state !! SetState.key resolved); [done|].
    cbn in Hset. done.
Qed.

(** X25: after a set-state step on a key without slot, [get] of the key
    gives the value and a template that is one reference to the key
    resolves to the value. *)
Theorem set_state_then_reference (id : N) join_mode position is_trigger
    (config resolved : SetState.Config) (state : StateContainer.t F) :
  let key := SetState.key resolved in
  StateContainer.slots state !! key = None →
  key ≠ "" → Py.contains "}" key = false → Py.contains "." key = false →
  Py.strip key = key →
  ∃ state' result,
    Runner.execute_step (SetState.step id join_mode position is_trigger config)
      state (SetState.to_model resolved) = (state', result)
    ∧ StepRunResult.status result = SUCCESS
    ∧ StateContainer.get state' key Py.VNone = Py.VStr (SetState.value resolved)
    ∧ Interpolation.resolve_template ("{{" +:+ key +:+ "}}") state'
      = SetState.value resolved.
Proof.
  cbv zeta. intros Hslot Hkey Hbrace Hdot Hstrip.
  unfold Runner.execute_step, SetState.step. cbn [Step.run Step.id].
  rewrite set_state_of_model. unfold SetState.run, StateContainer.set.
  rewrite Hslot. cbn. eexists _, _. split; [done|]. split; [done|].
  assert (Py.dict_get (SetState.key resolved)
            (Py.dict_set (SetState.key resolved) (Py.VStr (SetState.value resolved))
               (StateContainer.values state))
          = Some (Py.VStr (F:=F) (SetState.value resolved))) as Hget
    by apply StateFacts.dict_get_set.
  split.
  - unfold StateContainer.get. cbn. by rewrite Hget.
  - rewrite (InterpolationFacts.resolve_template_ref _ _ (SetState.key resolved) "").
    2:{ split_and!; [done..|]. by rewrite app_nil_r. }
    change (Interpolation.resolve_template "" _) with "". rewrite app_nil_r.
    unfold Interpolation.replace_ref. rewrite Hstrip.
    rewrite StateFacts.get_nested_dotless by done.
    unfold StateContainer.get. cbn. by rewrite Hget.
Qed.

(** X26: [evaluate_condition]: [equals] holds for equal strings, [contains]
    when the right string is a part of the left one; [not_equals] and
    [not_contains] are their negations; [greater_than] is [less_than] with
    the sides exchanged; any other operator gives [False]. *)
Theorem evaluate_condition_operators (left right operator : string) :
  (Conditional.evaluate_condition left "equals" right = true ↔ left = right)
  ∧ (Conditional.evaluate_condition left "contains" right = true
     ↔ ∃ pre post, left = pre +:+ right +:+ post)
  ∧ Conditional.evaluate_condition left "not_equals" right
    = negb (Conditional.evaluate_condition left "equals" right)
  ∧ Conditional.evaluate_condition left "not_contains" right
    = negb (Conditional.evaluate_condition left "contains" right)
  ∧ Conditional.evaluate_condition left "greater_than" right
    = Conditional.evaluate_condition right "less_than" left
  ∧ (operator ∉ ["equals"; "not_equals"; "contains"; "not_contains";
                 "greater_than"; "less_than"] →
     Conditional.evaluate_condition left operator right = false).
Proof.
  split_and!.
  - unfold Conditional.evaluate_condition. cbn. apply bool_decide_eq_true.
  - unfold Conditional.evaluate_condition. cbn. apply contains_spec.
  - unfold Conditional.evaluate_condition. cbn.
    destruct (decide (left = right)) as [Heq|Hne].
    + rewrite (bool_decide_true (left = right)) by done.
      rewrite (bool_decide_false (left ≠ right)); [done|]. intros Hne. by apply Hne.
    + rewrite (bool_decide_false (left = right)) by done.
      by rewrite (bool_decide_true (left ≠ right)).
  - done.
  - unfold Conditional.evaluate_condition. cbn.
    by destruct (Py.float_of_str left), (Py.float_of_str right).
  - intros Hop. unfold Conditional.evaluate_condition.
    repeat (destruct (decide _) as [->|_]; [exfalso; apply Hop; set_solver|]).
    done.
Qed.

(** X27: a conditional step succeeds and fires one of its two ports, [true]
    when the condition holds and [false] otherwise; the steps that its
    completion adds to [pending] are the targets of the edges that leave
    it through that port. *)
Theorem conditional_routes_one_branch env flow d (id : N) join_mode position
    is_trigger (config resolved : Conditional.Config) (state : StateContainer.t F) :
  id ∈ dom (Runner.running d) →
  let step := Conditional.step id join_mode position is_trigger config in
  let result := (Runner.execute_step step state (Conditional.to_model resolved)).2 in
  let port :=
    if Conditional.evaluate_condition (Conditional.left resolved)
         (Conditional.operator resolved) (Conditional.right resolved)
    then "true" else "false" in
  StepRunResult.status result = SUCCESS
  ∧ StepRunResult.fired_ports result = [port]
  ∧ (port ∈ Step.ports step)
  ∧ ∃ d', Runner.process_one env flow d (id, result) = Ok d'
      ∧ ∀ t, t ∈ Runner.pending d'
             ↔ t ∈ Runner.pending d
               ∨ ∃ e, e ∈ Flow.edges flow ∧ Edge.source_step_id e = id
                      ∧ Edge.source_port e = port ∧ Edge.target_step_id e = t.
Proof.
  intros Hrun. cbv zeta.
  unfold Runner.execute_step, Conditional.step. cbn [Step.run Step.id Step.ports].
  rewrite conditional_of_model. unfold Conditional.run. cbn [snd].
  split; [done|]. split; [done|]. split.
  { unfold Conditional.ports. destruct (Conditional.evaluate_condition _ _ _); set_solver. }
  match goal with |- context [Runner.process_one env flow d (id, ?r)] =>
    destruct (RouteFacts.process_one_routes env flow d id r Hrun)
      as (d' & Hproc & Hp & _); [done|]
  end.
  exists d'. split; [done|]. intros t. rewrite Hp. cbn.
  apply or_iff_compat_l. split.
  - intros (e & He & Hsrc & Hport%list_elem_of_singleton & Ht). by exists e.
  - intros (e & He & Hsrc & Hport & Ht). exists e. split_and!; try done.
    by apply list_elem_of_singleton.
Qed.

Lemma matching_case_spec (value : string) (cases : list Switch.Case.t) :
  match Switch.matching_case value cases with
  | Some case =>
      ∃ before after, cases = before ++ case :: after
        ∧ Switch.Case.value case = value
        ∧ ∀ c, c ∈ before → Switch.Case.value c ≠ value
  | None => ∀ c, c ∈ cases → Switch.Case.value c ≠ value
  end.
Proof.
  induction cases as [|case cases IH]; cbn [Switch.matching_case].
  { by intros c ?%elem_of_nil. }
  destruct (decide (value = Switch.Case.value case)) as [Heq|Hne].
  - exists [], cases. split_and!; [done..|]. by intros c ?%elem_of_nil.
  - destruct (Switch.matching_case value cases) as [found|].
    + destruct IH as (before & after & -> & Hvalue & Hbefore).
      exists (case :: before), after. split_and!; [done..|].
      intros c [->|Hc]%elem_of_cons; [done|by apply Hbefore].
    + intros c [->|Hc]%elem_of_cons; [done|by apply IH].
Qed.


(** [StepRunResult.success] fires the ports given, or [default] when none
    or an empty list is given; [StepRunResult.failure] fires the ports
    given when "error" is one of them, and [default] otherwise. *)
Lemma constructors_fire_a_port (step_id : N) :
  (∀ fired_ports (output_data : option (list (string * Py.value F)))
     continue_without_waiting,
     StepRunResult.fired_ports
       (StepRunResult.success step_id fired_ports output_data continue_without_waiting)
     = match fired_ports with
       | Some (port :: ports) => port :: ports
       | Some [] | None => ["default"]
       end)
  ∧ (∀ message code (details : option (list (string * Py.value F))) fired_ports,
       StepRunResult.fired_ports
         (StepRunResult.failure step_id message code details fired_ports)
       = match fired_ports with
         | Some ports => if bool_decide ("error" ∈ ports) then ports else ["default"]
         | None => ["default"]
         end).
Proof.
  split; [done|]. intros message code details [[|port ports]|]; cbn.
  - rewrite !bool_decide_false; [done|by intros ?%elem_of_nil..].
  - case_bool_decide; done.
  - rewrite bool_decide_false; [done|by intros ?%elem_of_nil].
Qed.

(** Resolving the configuration of a set-state step resolves the
    references of its value and leaves its key as it is. *)
Lemma set_state_config_resolution (config : SetState.Config)
    (state : StateContainer.t F) :
  Interpolation.resolve_config (SetState.to_model config) state
  = Interpolation.model_validate
      (SetState.to_model
         (SetState.mkConfig (SetState.key config)
            (if Py.contains "{{" (SetState.value config)
             then Interpolation.resolve_template (SetState.value config) state
             else SetState.value config)))
  ∧ Interpolation.extract_refs (SetState.to_model (F:=F) config)
    = Interpolation.refs_of_string "value" (SetState.value config).
Proof.
  destruct config as [key value]. split.
  - unfold SetState.to_model. cbn [SetState.key SetState.value].
    cbn [Interpolation.resolve_config]. 
    change (Py.dict_get "key" [("value", Interpolation.TStr)]) with (@None Interpolation.target).
    change (Py.dict_get "value" [("value", Interpolation.TStr)]) with (Some Interpolation.TStr).
    cbn. unfold Interpolation.resolve_value.
    destruct (Py.contains "{{" value); cbn; reflexivity.
  - unfold SetState.to_model. cbn [SetState.key SetState.value].
    cbn [Interpolation.extract_refs].
    change (Py.dict_get "key" [("value", Interpolation.TStr)]) with (@None Interpolation.target).
    change (Py.dict_get "value" [("value", Interpolation.TStr)]) with (Some Interpolation.TStr).
    cbn. by rewrite List.app_nil_r.
Qed.

End KindFacts.
End KindFacts.

Module StepFacts.
Section StepFacts.
Context {F : Type} {builtins : Py.Builtins F} {pydantic : Interpolation.Pydantic F}.


End StepFacts.
End StepFacts.

(** ** Runs *)

Module RunFacts.
Import Spec Aux RunnerFacts Termination.
Section RunFacts.
Context {F : Type} {builtins : Py.Builtins F} {pydantic : Interpolation.Pydantic F}.
Implicit Types (d : Runner.Driver F) (env : Runner.Env) (flow : Flow.t F).

Lemma status_cases (s : StepRunStatus) : s = SUCCESS ∨ s = ERROR.
Proof. destruct s; auto. Qed.

Lemma final_status_spec (results : list (StepRunResult.t F)) :
  (Runner.final_status results = "failed"
   ↔ ∃ r, r ∈ results ∧ StepRunResult.status r = ERROR)
  ∧ (Runner.final_status results = "succeeded"
     ↔ ∀ r, r ∈ results → StepRunResult.status r = SUCCESS).
Proof.
  unfold Runner.final_status.
  destruct (forallb JoinTracker.succeeded results) eqn:Hall.
  - rewrite forallb_forall in Hall.
    assert (∀ r, r ∈ results → StepRunResult.status r = SUCCESS) as Hs.
    { intros r Hr%list_elem_of_In%Hall. unfold JoinTracker.succeeded in Hr.
      by apply bool_decide_eq_true in Hr. }
    split; split; try done.
    intros (r & Hr%Hs & He). congruence.
  - assert (∃ r, r ∈ results ∧ StepRunResult.status r = ERROR) as (r & Hr & He).
    { induction results as [|r results IH]; [done|]. cbn in Hall.
      apply andb_false_iff in Hall as [Hr|Hrest].
      - exists r. split; [left|]. unfold JoinTracker.succeeded in Hr.
        apply bool_decide_eq_false in Hr. by destruct (status_cases (StepRunResult.status r)).
      - destruct (IH Hrest) as (r' & ? & ?). exists r'. split; [by right|done]. }
    split; split; try done; [by exists r|].
    intros Hs. apply Hs in Hr. congruence.
Qed.


(** C9: when [trigger_step_id] is not in the step index of the flow (and
    [list(pending)] lists the set), [run_flow] ends at once with exactly
    two events, [FlowStarted] then
    [FlowCompleted] with status "succeeded", records no result and leaves
    the state as it was given (or empty). *)
Theorem unknown_trigger fuel env flow (trigger_step_id : N)
    (initial_state : option (StateContainer.t F)) :
  ordered env →
  Flow.get_step flow trigger_step_id = None →
  ∃ d, Runner.run_flow fuel env flow trigger_step_id initial_state = Ok (Some d)
    ∧ Runner.emitted d
      = [Event.FlowStarted (Runner.run_id env) (Flow.name flow);
         Event.FlowCompleted (Runner.run_id env) "succeeded"]
    ∧ Runner.state d = default StateContainer.empty initial_state
    ∧ Runner.results d = [].
Proof.
  intros Hord Hstep. unfold Runner.run_flow.
  assert (Runner.run_loop fuel env flow
            (Runner.initial env flow trigger_step_id initial_state)
          = Ok (Some (Runner.with_pending ({[trigger_step_id]} ∖ {[trigger_step_id]})
                        (Runner.initial env flow trigger_step_id initial_state)))) as ->.
  { assert (Runner.select env flow (Runner.initial env flow trigger_step_id initial_state)
            = (Runner.with_pending ({[trigger_step_id]} ∖ {[trigger_step_id]})
                 (Runner.initial env flow trigger_step_id initial_state), [])) as Hsel.
    { unfold Runner.select. cbn [Runner.initial Runner.pending Runner.awaits].
      specialize (Hord 0 {[trigger_step_id]}). rewrite elements_singleton in Hord.
      apply Permutation_singleton_r in Hord as ->.
      cbn [foldl]. unfold Runner.select_one. by rewrite Hstep. }
    destruct fuel; cbn [Runner.run_loop]; rewrite Hsel;
      cbn [Runner.initial Runner.pending Runner.running];
      rewrite bool_decide_false by (apply non_empty_singleton_L); cbn;
      by rewrite bool_decide_true. }
  eexists. split; [done|]. done.
Qed.

(** C4: when the configuration of a launched step does not resolve, the
    driver records a result with status [ERROR] and code
    [CONFIG_RESOLUTION_ERROR], yields [StepStarted] and then
    [StepCompleted] with that result and a duration of 0, and follows no
    edge: the join trackers and the running tasks are as before and
    [pending] only loses the step.  The launch phase as a whole records no
    arrival and adds nothing to [pending]. *)
Theorem config_resolution_error env flow d :
  (∀ step_id step e,
     Flow.get_step flow step_id = Some step →
     Interpolation.resolve_config (Step.config step) (Runner.state d) = Raise e →
     ∃ result,
       let d' := Runner.launch_one env flow d step_id in
       Runner.results d' = Runner.results d ++ [result]
       ∧ StepRunResult.status result = ERROR
       ∧ StepError.code <$> StepRunResult.error result
         = Some (Some "CONFIG_RESOLUTION_ERROR")
       ∧ Runner.emitted d'
         = Runner.emitted d
             ++ [Event.StepStarted (Runner.run_id env) step_id
                   (StepType_value (Step.type step));
                 Event.StepCompleted (Runner.run_id env) step_id result 0 None]
       ∧ Runner.join_trackers d' = Runner.join_trackers d
       ∧ Runner.pending d' = Runner.pending d ∖ {[step_id]}
       ∧ Runner.running d' = Runner.running d
       ∧ Runner.state d' = Runner.state d)
  ∧ (∀ steps_to_launch,
       let d' := Runner.launch env flow d steps_to_launch in
       Runner.join_trackers d' = Runner.join_trackers d
       ∧ Runner.pending d' ⊆ Runner.pending d).
Proof.
  split.
  - intros step_id step e Hstep Hcfg. unfold Runner.launch_one.
    rewrite Hstep. cbn. rewrite Hcfg. cbn. eexists. split_and!; try done.
    by rewrite <-app_assoc.
  - intros steps_to_launch.
    destruct (launch_fields env flow steps_to_launch d) as (Hp & Hj & _).
    cbv zeta in *. split; [done|]. rewrite Hp. set_solver.
Qed.

(** X1: the arrivals recorded in the trackers at the end of a run come from
    sources of the incoming edges of the step they are kept for. *)
Theorem run_flow_trackers_ok fuel env flow (trigger_step_id : N)
    (initial_state : option (StateContainer.t F)) d :
  Runner.run_flow fuel env flow trigger_step_id initial_state = Ok (Some d) →
  trackers_ok flow d.
Proof.
  unfold Runner.run_flow.
  destruct (Runner.run_loop _ _ _ _) as [[d1|]|] eqn:Hloop; [|done..].
  intros [= <-].
  apply (TrackerFacts.trackers_ok_same flow d1); [done|].
  apply (TrackerFacts.trackers_ok_run_loop _ _ _ _ _ Hloop).
  apply TrackerFacts.trackers_ok_initial.
Qed.

(** X2: a result with [continue_without_waiting] is recorded and its
    [StepCompleted] is yielded, but no edge is followed. *)
Theorem fire_and_forget env flow d step_id (result : StepRunResult.t F) :
  StepRunResult.continue_without_waiting result = true →
  step_id ∈ dom (Runner.running d) →
  ∃ d', Runner.process_one env flow d (step_id, result) = Ok d'
    ∧ Runner.results d' = Runner.results d ++ [result]
    ∧ Runner.pending d' = Runner.pending d
    ∧ Runner.join_trackers d' = Runner.join_trackers d
    ∧ Runner.running d' = delete step_id (Runner.running d).
Proof.
  intros Hcww [task Htask]%elem_of_dom.
  unfold Runner.process_one, Runner.del_running. cbn.
  rewrite Htask. cbn. rewrite Hcww. by eexists.
Qed.

End RunFacts.
End RunFacts.

(** ** Examples, witnesses and counterexamples *)

Module Examples.
Import Fixture.

(** Scenario S6 of the specification. *)
Example nested_paths_resolve :
  Interpolation.resolve_template "{{user.profile.email}}/{{items.0.name}}"
    state_with_data = "a@x/I1"
  ∧ Interpolation.resolve_template "{{missing}}" state_with_data = "".
Proof. split; reflexivity. Qed.

(** The text put for a reference is not scanned again. *)
Example replacement_not_rescanned :
  Interpolation.resolve_template "{{x}}" state_with_data = "{{y}}".
Proof. reflexivity. Qed.

(** The cases of [test_cast_boolean] that concern strings and [None]. *)
Example cast_boolean_strings :
  StateSlot.cast (StateSlot.mk "test" BOOLEAN None) (Py.VStr "true")
  = Ok (Py.VBool true)
  ∧ StateSlot.cast (StateSlot.mk "test" BOOLEAN None) (Py.VStr "Yes")
    = Ok (Py.VBool true)
  ∧ StateSlot.cast (StateSlot.mk "test" BOOLEAN None) (Py.VInt 0)
    = Ok (Py.VBool false).
Proof. repeat split; reflexivity. Qed.

(** Scenario S1: eight events, the last one a success, and the final
    state. *)
Example linear_flow_runs :
  ∃ d, Runner.run_flow 3 eager linear_flow 1%N None = Ok (Some d)
    ∧ length (Runner.emitted d) = 8
    ∧ last (Runner.emitted d) = Some (Event.FlowCompleted 99%N "succeeded")
    ∧ StateContainer.values (Runner.state d)
      = [("x", Py.VStr "a"); ("y", Py.VStr "a!")].
Proof. eexists. split; [vm_compute; reflexivity|]. repeat split. Qed.

(** Scenario S5: the joined step is never started and the run fails. *)
Example join_flow_fails :
  ∃ d, Runner.run_flow 3 eager join_flow 1%N None = Ok (Some d)
    ∧ last (Runner.emitted d) = Some (Event.FlowCompleted 99%N "failed")
    ∧ Forall (fun event =>
                match event with
                | Event.StepStarted _ step_id _ => step_id ≠ 4%N
                | _ => True
                end) (Runner.emitted d).
Proof.
  eexists. split; [vm_compute; reflexivity|]. split; [reflexivity|].
  repeat constructor; done.
Qed.



(** C2, counterexample: both sources of the tracker succeeded and the only
    source of the incoming edge has delivered, yet [is_ready] is false:
    the tracker holds an arrival from a second source. *)
Lemma all_success_extra_arrival :
  [edge 11%N 1%N 3%N] ≠ []
  ∧ Spec.all_success_ready crowded_tracker [edge 11%N 1%N 3%N]
  ∧ JoinTracker.is_ready crowded_tracker ALL_SUCCESS [edge 11%N 1%N 3%N] = false.
Proof.
  split; [done|]. split; [|reflexivity]. split.
  - intros e ->%list_elem_of_singleton. by eexists.
  - intros source r. cbn. rewrite !lookup_insert_Some, lookup_empty.
    intros [[_ <-]|[_ [[_ <-]|[_ ?]]]]; done.
Qed.

Lemma all_success_join_witness :
  JoinTracker.is_ready single_tracker ALL_SUCCESS [edge 11%N 1%N 3%N] = true
  ↔ Spec.all_success_ready single_tracker [edge 11%N 1%N 3%N].
Proof.
  apply (proj1 (proj2 (JoinFacts.all_success_join single_tracker
                         [edge 11%N 1%N 3%N]))).
  intros source [r Hr]. cbn in Hr.
  apply lookup_insert_Some in Hr as [[<- _]|[_ Hr]]; [|by rewrite lookup_empty in Hr].
  exists (edge 11%N 1%N 3%N). split; [left|done].
Defined.

Lemma rank_join_flow :
  ∀ e, e ∈ Flow.edges join_flow →
    (N.to_nat (4 - Edge.target_step_id e) < N.to_nat (4 - Edge.source_step_id e))%nat.
Proof.
  intros e He. cbn in He.
  repeat (apply elem_of_cons in He as [->|He]); [cbn; lia..|].
  by apply elem_of_nil in He.
Defined.

Lemma eager_ordered : Spec.ordered eager.
Proof. intros n X. reflexivity. Defined.

Lemma eager_live : Spec.live eager.
Proof.
  intros n tasks [i Hi]%set_choose_L. exists i. split; [|done].
  by apply elem_of_elements.
Defined.


Lemma config_resolution_error_witness :
  ∃ result,
    Runner.results
      (Runner.launch_one eager count_flow
         (Runner.initial eager count_flow 1%N (Some state_with_data)) 1%N)
    = [result]
    ∧ StepRunResult.status result = ERROR
    ∧ StepError.code <$> StepRunResult.error result
      = Some (Some "CONFIG_RESOLUTION_ERROR").
Proof.
  destruct (proj1 (RunFacts.config_resolution_error eager count_flow
                     (Runner.initial eager count_flow 1%N (Some state_with_data)))
              1%N (counting 1%N "{{x}}")
              (mkExn "ValueError" "invalid literal for int()")
              eq_refl eq_refl)
    as (result & Hresults & Hstatus & Hcode & _).
  exists result. split; [exact Hresults|]. split; [exact Hstatus|exact Hcode].
Defined.

Lemma resolve_template_single_pass_witness :
  Interpolation.resolve_template "{{ x }} and {{y}}" state_with_data
  = Spec.replacement state_with_data (Py.strip " x ")
    +:+ Interpolation.resolve_template " and {{y}}" state_with_data.
Proof.
  apply (proj1 (InterpolationFacts.resolve_template_single_pass state_with_data)).
  split; [done|]. split; reflexivity.
Defined.

(** C7, counterexample: the string "false" is not one of the three, its
    truthiness is [True], and it is cast to [False]; and [None] is cast to
    [None], which is no boolean. *)
Lemma cast_boolean_false_string :
  (Py.lower "false" ∉ ["true"; "1"; "yes"])
  ∧ Py.bool (Py.VStr "false" : Py.value Z) = true
  ∧ StateSlot.cast (StateSlot.mk "flag" BOOLEAN None) (Py.VStr "false" : Py.value Z)
    = Ok (Py.VBool false)
  ∧ StateSlot.cast (StateSlot.mk "flag" BOOLEAN None) (Py.VNone : Py.value Z)
    = Ok Py.VNone.
Proof.
  split; [|repeat split].
  intros Hin. repeat (apply elem_of_cons in Hin as [Hin|Hin]; [done|]).
  by apply elem_of_nil in Hin.
Qed.

(** C8, counterexample: the set-state step with the empty key lies before
    the second step, its configured key is the empty string, and yet the
    empty string is not available to the second step, whose reference to
    the empty root is reported. *)
Lemma empty_key_not_available :
  Flow.steps_before empty_key_flow (set_state 2%N NO_WAIT "y" "{{ }}")
  = [set_state 1%N NO_WAIT "" "v"]
  ∧ Spec.set_state_key (set_state 1%N NO_WAIT "" "v") = {[""]}
  ∧ ("" ∉ Validator.get_available_keys_before empty_key_flow
            (set_state 2%N NO_WAIT "y" "{{ }}"))
  ∧ length (Validator.validate_flow empty_key_flow) = 1%nat.
Proof.
  split; [reflexivity|]. split; [reflexivity|]. split; [|reflexivity].
  assert (Validator.get_available_keys_before empty_key_flow
            (set_state 2%N NO_WAIT "y" "{{ }}") = ∅) as -> by reflexivity.
  set_solver.
Qed.

Lemma unknown_trigger_witness :
  ∃ d, Runner.run_flow 0 eager linear_flow 5%N None = Ok (Some d)
    ∧ Runner.emitted d
      = [Event.FlowStarted 99%N (Some "linear");
         Event.FlowCompleted 99%N "succeeded"]
    ∧ Runner.state d = StateContainer.empty
    ∧ Runner.results d = [].
Proof.
  exact (RunFacts.unknown_trigger 0 eager linear_flow 5%N None eager_ordered
           eq_refl).
Defined.

Lemma run_flow_trackers_ok_witness :
  ∃ d, Runner.run_flow 3 eager join_flow 1%N None = Ok (Some d)
    ∧ Aux.trackers_ok join_flow d.
Proof.
  eexists. split; [vm_compute; reflexivity|].
  apply (RunFacts.run_flow_trackers_ok 3 eager join_flow 1%N None).
  vm_compute. reflexivity.
Defined.

Lemma fire_and_forget_witness :
  ∃ d', Runner.process_one eager linear_flow
          (Runner.with_running
             {[1%N := Runner.mkTask (webhook_trigger 1%N) no_config]}
             (Runner.initial eager linear_flow 1%N None))
          (1%N, StepRunResult.success 1%N None None true)
        = Ok d'
    ∧ Runner.pending d' = {[1%N]}.
Proof.
  destruct (RunFacts.fire_and_forget eager linear_flow
              (Runner.with_running
                 {[1%N := Runner.mkTask (webhook_trigger 1%N) no_config]}
                 (Runner.initial eager linear_flow 1%N None))
              1%N (StepRunResult.success 1%N None None true) eq_refl)
    as (d' & Hprocess & _ & Hpending & _).
  { cbn. apply elem_of_dom. by eexists. }
  exists d'. split; [exact Hprocess|exact Hpending].
Defined.

(** Instances of the theorems that carry hypotheses. *)

Lemma set_then_get_witness :
  ∃ st', StateContainer.set state_with_data "z" (Py.VInt 5) = Ok st'
    ∧ (∀ default, StateContainer.get st' "z" default = Py.VInt 5)
    ∧ StateContainer.get st' "y" Py.VNone = Py.VStr "z".
Proof.
  eexists. split; [reflexivity|].
  destruct (StateFacts.set_then_get state_with_data _ "z" (Py.VInt 5) eq_refl)
    as ((stored & Hstored & Hget) & Hother & _).
  cbn in Hstored. rewrite lookup_empty in Hstored. subst stored.
  split; [exact Hget|]. rewrite Hother by done. reflexivity.
Defined.


Lemma cast_result_kind_witness :
  (∃ n, Py.VInt 42 = Py.VInt (F:=Z) n) ∨ (∃ x : Z, Py.VInt 42 = Py.VFloat x).
Proof.
  exact (StateFacts.cast_result_kind (StateSlot.mk "n" NUMBER None)
           (Py.VStr "42") (Py.VInt 42) eq_refl ltac:(discriminate)).
Defined.

Lemma get_nested_single_key_witness :
  StateContainer.get_nested state_with_data "y" Py.VNone
  = match StateContainer.get state_with_data "y" Py.VNone with
    | Py.VNone => Py.VNone
    | value => value
    end.
Proof. apply StateFacts.get_nested_single_key. reflexivity. Defined.

Lemma single_reference_template_witness :
  Interpolation.resolve_template ("{{" +:+ " y " +:+ "}}") state_with_data
  = StateContainer.get_as_string state_with_data (Py.strip " y ").
Proof.
  apply InterpolationFacts.single_reference_template; [done|reflexivity..].
Defined.

Lemma missing_reference_zero_witness :
  Interpolation.resolve_value (Interpolation.CStr ("{{" +:+ "missing" +:+ "}}"))
    state_with_data Interpolation.TInt
  = Ok (Aux.zero_of Interpolation.TInt).
Proof.
  apply InterpolationFacts.missing_reference_zero; [done|reflexivity..].
Defined.

Lemma unreferenced_unchanged_witness :
  Interpolation.resolve_template "no {reference} here" state_with_data
  = "no {reference} here".
Proof.
  apply (InterpolationFacts.unreferenced_unchanged state_with_data "value").
  reflexivity.
Defined.

Lemma add_edge_keeps_valid_witness :
  ∃ flow' edge,
    Flow.add_edge linear_flow 13%N 1%N 3%N "default" "default" = Ok (flow', edge)
    ∧ Validator.validate_edges flow' = Validator.validate_edges linear_flow.
Proof.
  eexists _, _. split; [reflexivity|].
  apply (ValidatorFacts.add_edge_keeps_valid linear_flow 13%N 1%N 3%N
           "default" "default" _ _ eq_refl).
Defined.

Lemma joined_trigger_never_runs_witness :
  ∃ d, Runner.run_flow 5 eager joined_trigger_flow 1%N None = Ok (Some d)
    ∧ Runner.emitted d
      = [Event.FlowStarted 99%N None; Event.FlowCompleted 99%N "succeeded"]
    ∧ Runner.results d = []
    ∧ Runner.pending d = {[1%N]}.
Proof.
  apply (ModeFacts.joined_trigger_never_runs 5 eager joined_trigger_flow 1%N None
           (set_state 1%N ALL_SUCCESS "a" "1") eager_ordered eq_refl);
    discriminate.
Defined.

Lemma routing_follows_fired_ports_witness :
  ∃ d', Runner.process_one eager linear_flow trigger_running
          (1%N, success_of 1%N) = Ok d'
    ∧ 2%N ∈ Runner.pending d'.
Proof.
  destruct (RouteFacts.routing_follows_fired_ports eager linear_flow
              trigger_running 1%N (success_of 1%N))
    as (d' & Hprocess & Hpending & _).
  { cbn. apply elem_of_dom. by eexists. }
  { reflexivity. }
  exists d'. split; [exact Hprocess|]. apply Hpending. right.
  exists (edge 11%N 1%N 2%N). split; [left|]. split; [reflexivity|].
  split; [left|reflexivity].
Defined.

Lemma eager_monotone : Spec.monotone eager.
Proof. intros n m Hle. cbn. lia. Defined.

Lemma completed_after_started_witness :
  ∃ d, Runner.run_flow 3 eager linear_flow 1%N None = Ok (Some d)
    ∧ Spec.completions_started (Runner.emitted d).
Proof.
  eexists. split; [vm_compute; reflexivity|].
  apply (EventFacts.completed_after_started eager linear_flow 1%N 3 None).
  - exact eager_ordered.
  - vm_compute. reflexivity.
Defined.

Lemma only_reachable_steps_start_witness :
  Spec.reachable linear_flow 1%N 3%N
  ∧ ∃ step, Flow.get_step linear_flow 3%N = Some step
            ∧ "set_state" = StepType_value (Step.type step).
Proof.
  destruct (linear_flow_runs) as (d & Hrun & _).
  apply (EventFacts.only_reachable_steps_start eager linear_flow 1%N 3 None d
           99%N 3%N "set_state" eager_ordered Hrun).
  revert Hrun. vm_compute. intros [= <-].
  do 5 apply list_elem_of_further. apply list_elem_of_here.
Defined.

Lemma durations_not_negative_witness :
  ∃ d, Runner.run_flow 3 eager linear_flow 1%N None = Ok (Some d)
    ∧ Forall Spec.duration_ok (Runner.emitted d).
Proof.
  eexists. split; [vm_compute; reflexivity|].
  apply (EventFacts.durations_not_negative eager linear_flow 1%N 3 None).
  - exact eager_monotone.
  - vm_compute. reflexivity.
Defined.

Lemma set_state_then_reference_witness :
  ∃ state' result,
    Runner.execute_step
      (SetState.step 2%N NO_WAIT (0, 0)%Z false (SetState.mkConfig "k" "{{y}}"))
      state_with_data (SetState.to_model (SetState.mkConfig "k" "z"))
    = (state', result)
    ∧ StepRunResult.status result = SUCCESS
    ∧ StateContainer.get state' "k" Py.VNone = Py.VStr "z"
    ∧ Interpolation.resolve_template ("{{" +:+ "k" +:+ "}}") state' = "z".
Proof.
  apply (KindFacts.set_state_then_reference 2%N NO_WAIT (0, 0)%Z false
           (SetState.mkConfig "k" "{{y}}") (SetState.mkConfig "k" "z")
           state_with_data); [apply lookup_empty|done|reflexivity..].
Defined.

Lemma conditional_routes_one_branch_witness :
  let result :=
    (Runner.execute_step
       (Conditional.step 1%N NO_WAIT (0, 0)%Z false
          (Conditional.mkConfig "{{x}}" "equals" "a"))
       state_with_data
       (Conditional.to_model (Conditional.mkConfig "b" "equals" "a"))).2 in
  StepRunResult.fired_ports result = ["false"]
  ∧ ∃ d', Runner.process_one eager linear_flow trigger_running (1%N, result) = Ok d'
      ∧ 2%N ∉ Runner.pending d'.
Proof.
  destruct (KindFacts.conditional_routes_one_branch eager linear_flow
              trigger_running 1%N NO_WAIT (0, 0)%Z false
              (Conditional.mkConfig "{{x}}" "equals" "a")
              (Conditional.mkConfig "b" "equals" "a") state_with_data)
    as (_ & Hports & _ & d' & Hprocess & Hpending).
  { cbn. apply elem_of_dom. by eexists. }
  split; [exact Hports|]. exists d'. split; [exact Hprocess|].
  rewrite Hpending. intros [Hin|(e & He & _ & Hport & _)].
  - cbn in Hin. by apply elem_of_singleton in Hin.
  - cbn in He. repeat (apply elem_of_cons in He as [->|He]); try discriminate Hport.
    by apply elem_of_nil in He.
Defined.


Lemma plain_config_ignores_state_witness :
  Interpolation.resolve_config (set_state_config "x" "a") state_with_data
  = Interpolation.resolve_config (set_state_config "x" "a") StateContainer.empty.
Proof.
  apply ResolveFacts.plain_config_ignores_state. reflexivity.
Defined.

End Examples.
